(** * The transfer engine of src/file_transfer.py, embedded in Rocq

    The class [FileTransfer] is embedded shallowly: its attributes become the
    fields of the record [engine], its methods become computations of the
    monad [M] (state passing over [engine], with Python exceptions as the
    [Raise] outcome), and everything the class reaches through its
    collaborators (the connection manager, the paramiko SFTP client, [os],
    the clock and the thread that calls [cancel_transfer]) is read from a
    record [world].

    Conventions of the embedding:
    - Python [int] is [Z]; Python [float] is [Q], so arithmetic is exact where
      the interpreter rounds to a double.  The two renderings of a float to
      text used by [format_size] are fields of [world].
    - [os.path] is taken to be [posixpath].
    - A text is the string of the bytes of its UTF-8 encoding.
    - [Raise] stands for an exception of class [Exception], which is what
      every [except Exception] clause of the class catches.  Exceptions that
      are not of that class ([SystemExit], [KeyboardInterrupt]) pass through
      those clauses and are outside the embedding: collaborators and
      observers are taken to raise exceptions of class [Exception] only.
    - Objects that the code shares by reference (the log list and the dict of
      each log entry) live in a store indexed by locations.
    - Every callback invocation, [print] and side-effecting collaborator call
      is appended to the field [trace], which is what the theorems observe.

    Two neighbours of the engine are embedded as well.  The class
    [ConnectionManager] of src/connection_manager.py, whose state the guard
    of every transfer reads, is the module [Conn]: a record [manager], a
    monad [C] over it whose exceptions carry the class that the [except]
    clauses of [connect] tell apart, and a record [net] that says which
    paramiko calls raise.  The handlers of src/gui_components.py that build
    the batches handed to [transfer_files] are the module [Gui]; there a
    Python [str] is the list of its code points, because the rows of the
    file lists carry icons outside ASCII. *)

From Stdlib Require Import ZArith QArith Qround String Ascii List Lia.
From stdpp Require Import base gmap strings list pretty.

Open Scope string_scope.
Open Scope list_scope.

(** ** Python strings and paths *)

Module Py.

Definition is_upper (c : ascii) : bool :=
  (65 <=? nat_of_ascii c)%nat && (nat_of_ascii c <=? 90)%nat.

Definition lower_ascii (c : ascii) : ascii :=
  if is_upper c then ascii_of_nat (nat_of_ascii c + 32) else c.

Fixpoint startswith (p s : string) : bool :=
  match p, s with
  | EmptyString, _ => true
  | String a p', String b s' => if Ascii.eqb a b then startswith p' s' else false
  | String _ _, EmptyString => false
  end.

(** The UTF-8 bytes of U+212A (KELVIN SIGN), of U+0130 (LATIN CAPITAL LETTER
    I WITH DOT ABOVE) and of U+0307 (COMBINING DOT ABOVE). *)
Definition kelvin_sign : string :=
  String (ascii_of_nat 226)
    (String (ascii_of_nat 132) (String (ascii_of_nat 170) EmptyString)).
Definition dotted_capital_i : string :=
  String (ascii_of_nat 196) (String (ascii_of_nat 176) EmptyString).
Definition dot_above : string :=
  String (ascii_of_nat 204) (String (ascii_of_nat 135) EmptyString).

(** [str.lower] from a position inside [s]: the next [skip] bytes belong to
    a code point already lowered. *)
Fixpoint lower_from (skip : nat) (s : string) : string :=
  match s with
  | EmptyString => EmptyString
  | String c s' =>
      match skip with
      | S k => lower_from k s'
      | O =>
          if startswith kelvin_sign s then String "k" (lower_from 2 s')
          else if startswith dotted_capital_i s then
            String "i" (dot_above +:+ lower_from 1 s')
          else String (lower_ascii c) (lower_from 0 s')
      end
  end.

(** [str.lower], as far as the ASCII characters of the result go.  The code
    points whose lower case holds an ASCII character are A to Z, U+212A
    (lowered to k) and U+0130 (lowered to i followed by U+0307).  Every
    other code point outside ASCII is lowered to code points outside ASCII
    and is left as it is here: [lower] is only used to search the result
    for an ASCII text, and that search gives the same answer. *)
Definition lower (s : string) : string := lower_from 0 s.

(** [needle in hay]. *)
Fixpoint contains (needle hay : string) : bool :=
  startswith needle hay ||
  match hay with
  | EmptyString => false
  | String _ hay' => contains needle hay'
  end.

Definition is_slash (c : ascii) : bool := Ascii.eqb c "/"%char.

Fixpoint has_slash (s : string) : bool :=
  match s with
  | EmptyString => false
  | String c s' => is_slash c || has_slash s'
  end.

(** [posixpath.basename]: what follows the last slash. *)
Fixpoint basename (p : string) : string :=
  match p with
  | EmptyString => EmptyString
  | String c rest =>
      if has_slash rest then basename rest
      else if is_slash c then rest else p
  end.

Fixpoint endswith_slash (s : string) : bool :=
  match s with
  | EmptyString => false
  | String c EmptyString => is_slash c
  | String _ s' => endswith_slash s'
  end.

(** [posixpath.join] of two components. *)
Definition join (a b : string) : string :=
  if startswith "/" b then b
  else if String.eqb a "" || endswith_slash a then a +:+ b
  else a +:+ "/" +:+ b.

(** [s.replace("\\", "/")]. *)
Fixpoint unbackslash (s : string) : string :=
  match s with
  | EmptyString => EmptyString
  | String c s' =>
      String (if Ascii.eqb c "\"%char then "/"%char else c) (unbackslash s')
  end.

(** [int(x)] of a float: truncation towards zero. *)
Definition int (x : Q) : Z := Z.quot (Qnum x) (Zpos (Qden x)).

(** [x // y] and [x % y] on floats, for [y > 0]. *)
Definition floordiv (x y : Q) : Q := inject_Z (Qfloor (x / y)).
Definition modulo (x y : Q) : Q := Qred (x - y * floordiv x y).

Definition Qltb (x y : Q) : bool := negb (Qle_bool y x).

(** Text of an [int] inside an f-string. *)
Definition str_int (z : Z) : string := pretty z.

End Py.

(** ** Data model *)

(** Identity of a Python object in the store. *)
Definition loc := nat.

(** The dict built by [log_transfer]. *)
Record log_entry := LogEntry {
  e_timestamp : string;
  e_action : string;
  e_filename : string;
  e_size : option Z;
  e_duration : option Q;
}.

(** What the engine does to the outside: the observer callbacks it invokes,
    what it prints, and the collaborator calls that change a file store. *)
Inductive event :=
| EvProgress (percent : Q)
| EvStatus (message : string)
| EvSpeed (text : string)
| EvEta (text : string)
| EvPrint (text : string)
| EvPut (local_path remote_path : string) (with_callback : bool)
| EvGet (remote_path local_path : string) (with_callback : bool)
| EvMkdir (remote_path : string)
| EvMakedirs (local_path : string).

(** Outcome of a Python call: a value, or an exception of class
    [Exception] with its [str(e)]. *)
Inductive result (A : Type) :=
| Ok (a : A)
| Raise (msg : string).
Arguments Ok {A} a.
Arguments Raise {A} msg.

(** An observer callback: it is handed an argument and returns ([None]) or
    raises an exception of class [Exception] ([Some msg]). *)
Definition observer (A : Type) : Type := A -> option string.

(** The attributes of a [FileTransfer] object, the part of the object store it
    can reach, and the record of its effects. *)
Record engine := Engine {
  transfer_in_progress : bool;
  transfer_cancelled : bool;
  current_transfer_thread : option (list (string * string) * string);
  progress_callback : option (observer Q);
  status_callback : option (observer string);
  speed_callback : option (observer string);
  eta_callback : option (observer string);
  transfer_log : loc;
  lists : gmap loc (list loc);
  dicts : gmap loc log_entry;
  trace : list event;
}.

(** One invocation of the progress hook by the streaming primitive. *)
Record chunk := Chunk {
  c_cancel : bool;   (* [cancel_transfer] ran on the other thread since the last hook *)
  c_bytes : Z;       (* cumulative bytes handed to the hook *)
  c_elapsed : Q;     (* [time.time() - start_time] read inside the hook *)
}.

(** Behaviour of one [put] or [get] that was given a hook: the hook calls it
    makes, then how it ends. *)
Record stream := Stream {
  chunks : list chunk;
  finish : result unit;
}.

(** A directory tree as an enumeration reports it: the mode of an entry
    ([None] where [os.stat] gives none, and where the [st_mode] of the
    attributes that [listdir_attr] returns is [None]) and, below a
    directory, its named entries in enumeration order. *)
#[warnings="-register-all"]
Inductive node := Node (st_mode : option Z) (listing : list (string * node)).

Definition mode_of (n : node) : option Z := match n with Node m _ => m end.
Definition listing_of (n : node) : list (string * node) :=
  match n with Node _ l => l end.

(** Points of [transfer_thread] at which a [cancel_transfer] issued by the
    other thread can become visible (chunk hooks have [c_cancel]). *)
Inductive checkpoint :=
| BeforeJob (i : nat)
| AfterTransfer (i : nat)
| BeforeProgress (i : nat)
| BeforeFinalStatus.

(** Everything outside the class. *)
Record world := World {
  (* ConnectionManager attributes *)
  is_connected : bool;
  ssh_client : bool;
  sftp_client : bool;
  (* os *)
  os_tree : string -> option node;
  os_listdir_raises : string -> option string;
  os_getsize : string -> result Z;
  os_makedirs : string -> result unit;
  (* paramiko.SFTPClient *)
  sftp_stat_size : string -> result Z;
  sftp_listdir_attr_raises : string -> option string;
  sftp_mkdir : string -> result unit;
  sftp_put : string -> string -> stream;
  sftp_put_plain : string -> string -> result unit;
  sftp_get : string -> string -> stream;
  sftp_get_plain : string -> string -> result unit;
  (* time.time() and datetime.now() around job number i *)
  job_duration : nat -> Q;
  job_timestamp : nat -> string;
  (* the thread that calls cancel_transfer *)
  cancel_at : checkpoint -> bool;
  (* str(x) and format(x, ".1f") of a float *)
  float_str : Q -> string;
  float_1f : Q -> string;
}.

(** ** The monad of method bodies *)

Definition M (A : Type) : Type := engine -> result A * engine.

Definition ret {A} (a : A) : M A := fun s => (Ok a, s).

Definition bind {A B} (m : M A) (k : A -> M B) : M B :=
  fun s =>
    match m s with
    | (Ok a, s') => k a s'
    | (Raise e, s') => (Raise e, s')
    end.

Definition raise {A} (msg : string) : M A := fun s => (Raise msg, s).

(** [try: body except Exception as e: handler(e)]; every [Raise] is of
    class [Exception], so the clause catches it. *)
Definition try_except {A} (body : M A) (handler : string -> M A) : M A :=
  fun s =>
    match body s with
    | (Ok a, s') => (Ok a, s')
    | (Raise e, s') => handler e s'
    end.

(** [try: body finally: final], for a [final] that does not raise. *)
Definition try_finally {A} (body : M A) (final : engine -> engine) : M A :=
  fun s => let '(r, s') := body s in (r, final s').

Definition get {A} (f : engine -> A) : M A := fun s => (Ok (f s), s).
Definition modify (f : engine -> engine) : M unit := fun s => (Ok tt, f s).
Definition lift {A} (r : result A) : M A := fun s => (r, s).

Declare Scope M_scope.
Delimit Scope M_scope with M.
Notation "x <- m ;; k" := (bind m (fun x => k))
  (at level 100, m at next level, right associativity) : M_scope.
Notation "m ;; k" := (bind m (fun _ => k))
  (at level 100, right associativity) : M_scope.
Open Scope M_scope.

(** Attribute assignment. *)
Definition set_transfer_in_progress (b : bool) (s : engine) : engine :=
  Engine b (transfer_cancelled s) (current_transfer_thread s)
    (progress_callback s) (status_callback s) (speed_callback s)
    (eta_callback s) (transfer_log s) (lists s) (dicts s) (trace s).

Definition set_transfer_cancelled (b : bool) (s : engine) : engine :=
  Engine (transfer_in_progress s) b (current_transfer_thread s)
    (progress_callback s) (status_callback s) (speed_callback s)
    (eta_callback s) (transfer_log s) (lists s) (dicts s) (trace s).

Definition set_current_transfer_thread
    (t : option (list (string * string) * string)) (s : engine) : engine :=
  Engine (transfer_in_progress s) (transfer_cancelled s) t
    (progress_callback s) (status_callback s) (speed_callback s)
    (eta_callback s) (transfer_log s) (lists s) (dicts s) (trace s).

Definition set_store (tl : loc) (ls : gmap loc (list loc))
    (ds : gmap loc log_entry) (s : engine) : engine :=
  Engine (transfer_in_progress s) (transfer_cancelled s)
    (current_transfer_thread s) (progress_callback s) (status_callback s)
    (speed_callback s) (eta_callback s) tl ls ds (trace s).

Definition emit (e : event) : M unit :=
  modify (fun s =>
    Engine (transfer_in_progress s) (transfer_cancelled s)
      (current_transfer_thread s) (progress_callback s) (status_callback s)
      (speed_callback s) (eta_callback s) (transfer_log s) (lists s)
      (dicts s) (trace s ++ [e])%list).

(** [print(text)]. *)
Definition print (text : string) : M unit := emit (EvPrint text).

(** Invoking an observer: the call is recorded, then it returns or raises. *)
Definition invoke {A} (ev : A -> event) (cb : observer A) (a : A) : M unit :=
  emit (ev a) ;;
  match cb a with
  | None => ret tt
  | Some msg => raise msg
  end.

(** A [cancel_transfer] of the other thread taking effect here. *)
Definition arrive (cancel : bool) : M unit :=
  if cancel then modify (set_transfer_cancelled true) else ret tt.

(** [a / b] on two ints. *)
Definition truediv (a b : Z) : M Q :=
  if (b =? 0)%Z then raise "division by zero"
  else ret (inject_Z a / inject_Z b)%Q.

(** [stat.S_ISDIR], which is what [os.path.isdir] tests. *)
Definition S_ISDIR (mode : Z) : bool := (Z.land mode 61440 =? 16384)%Z.

(** [os.path.isdir] of an entry whose [os.stat] gives [mode]: False when it
    gives none. *)
Definition isdir (mode : option Z) : bool :=
  match mode with
  | Some m => S_ISDIR m
  | None => false
  end.

(** ** The log, in the object store *)

(** The list object the attribute [transfer_log] refers to. *)
Definition log_list (s : engine) : list loc :=
  default [] (lists s !! transfer_log s).

(** The entries of the log, read through the store. *)
Definition log_entries (s : engine) : list log_entry :=
  omap (fun d => dicts s !! d) (log_list s).

(** [l[-100:]]. *)
Definition last100 {A} (l : list A) : list A := drop (length l - 100) l.

(** [FileTransfer.log_transfer]; [timestamp] is the text of
    [datetime.now()].  The append mutates the list object in place; the
    slice allocates a new list object and rebinds the attribute. *)
Definition log_transfer (timestamp action filename : string)
    (size : option Z) (duration : option Q) : M unit :=
  modify (fun s =>
    let log_entry := fresh (dom (dicts s)) in
    let dicts' :=
      <[log_entry := LogEntry timestamp action filename size duration]>
        (dicts s) in
    let appended := (log_list s ++ [log_entry])%list in
    let lists' := <[transfer_log s := appended]> (lists s) in
    if (100 <? length appended)%nat then
      let sliced := fresh (dom lists') in
      set_store sliced (<[sliced := last100 appended]> lists') dicts' s
    else
      set_store (transfer_log s) lists' dicts' s).

(** [FileTransfer.get_transfer_log]: [list.copy] allocates a new list object
    holding the same references. *)
Definition get_transfer_log : M loc :=
  fun s =>
    let copy := fresh (dom (lists s)) in
    (Ok copy,
     set_store (transfer_log s) (<[copy := log_list s]> (lists s)) (dicts s) s).

(** [FileTransfer.clear_transfer_log]: [list.clear] in place. *)
Definition clear_transfer_log : M unit :=
  modify (fun s =>
    set_store (transfer_log s) (<[transfer_log s := []]> (lists s)) (dicts s) s).

(** What a caller holding the reference [r] to a list, or [d] to a dict, can
    do to it: replace its contents in place. *)
Module Caller.

Definition mutate_list (r : loc) (contents : list loc) (s : engine) : engine :=
  set_store (transfer_log s) (<[r := contents]> (lists s)) (dicts s) s.

Definition mutate_dict (d : loc) (contents : log_entry) (s : engine) : engine :=
  set_store (transfer_log s) (lists s) (<[d := contents]> (dicts s)) s.

(** Reading a list of entries through a reference. *)
Definition read (r : loc) (s : engine) : list log_entry :=
  omap (fun d => dicts s !! d) (default [] (lists s !! r)).

End Caller.

(** ** The methods of [FileTransfer] *)

(** [FileTransfer.__init__]. *)
Definition init : engine :=
  Engine false false None None None None None 0 {[ 0 := [] ]} ∅ [].

(** [FileTransfer.set_progress_callbacks]. *)
Definition set_progress_callbacks
    (progress_cb : option (observer Q))
    (status_cb speed_cb eta_cb : option (observer string)) : M unit :=
  modify (fun s =>
    Engine (transfer_in_progress s) (transfer_cancelled s)
      (current_transfer_thread s) progress_cb status_cb speed_cb eta_cb
      (transfer_log s) (lists s) (dicts s) (trace s)).

(** [FileTransfer.is_transfer_in_progress]. *)
Definition is_transfer_in_progress : M bool := get transfer_in_progress.

(** [FileTransfer.cancel_transfer]. *)
Definition cancel_transfer : M unit := modify (set_transfer_cancelled true).

(** [FileTransfer.is_directory]. *)
Definition is_directory (mode : Z) : bool := negb (Z.land mode 16384 =? 0)%Z.

Section Methods.

Variable w : world.

(** [ConnectionManager.is_connected_to_server], as a truth value. *)
Definition is_connected_to_server : bool :=
  is_connected w && ssh_client w && sftp_client w.

(** [ConnectionManager.get_sftp_client], as a truth value. *)
Definition get_sftp_client : bool :=
  if is_connected w then sftp_client w else false.

(** [FileTransfer.format_size]. *)
Definition format_size (size : Q) : string :=
  if Qeq_bool size 0 then "0 B"
  else if Py.Qltb size 1024 then float_str w size +:+ " B"
  else if Py.Qltb size (1024 ^ 2) then float_1f w (size / 1024) +:+ " KB"
  else if Py.Qltb size (1024 ^ 3) then
    float_1f w (size / (1024 ^ 2)) +:+ " MB"
  else float_1f w (size / (1024 ^ 3)) +:+ " GB".

(** [FileTransfer.format_time]. *)
Definition format_time (seconds : Q) : string :=
  if Py.Qltb seconds 60 then Py.str_int (Py.int seconds) +:+ "s"
  else if Py.Qltb seconds 3600 then
    Py.str_int (Py.int (Py.floordiv seconds 60)) +:+ "m "
    +:+ Py.str_int (Py.int (Py.modulo seconds 60)) +:+ "s"
  else
    Py.str_int (Py.int (Py.floordiv seconds 3600)) +:+ "h "
    +:+ Py.str_int (Py.int (Py.floordiv (Py.modulo seconds 3600) 60))
    +:+ "m".

(** [FileTransfer.get_file_size]. *)
Definition get_file_size (path : string) (is_remote : bool) : option Z :=
  if is_remote then
    if get_sftp_client then
      match sftp_stat_size w path with
      | Ok size => Some size
      | Raise _ => None
      end
    else None
  else
    match os_getsize w path with
    | Ok size => Some size
    | Raise _ => None
    end.

(** The closure [callback] of [upload_file] and of [download_file] (the
    two are the same text up to the name of the counter); [c] is one call
    of it by the streaming primitive. *)
Definition callback (file_size : Z) (c : chunk) : M unit :=
  cancelled <- get transfer_cancelled ;;
  if cancelled then raise "Transfer cancelled / Transfer iptal edildi"
  else
    let transferred := c_bytes c in
    progress_cb <- get progress_callback ;;
    match progress_cb with
    | Some cb =>
        ratio <- truediv transferred file_size ;;
        invoke EvProgress cb (Qred (ratio * 100))
    | None => ret tt
    end ;;
    let elapsed := c_elapsed c in
    if Py.Qltb 0 elapsed then
      let speed := (inject_Z transferred / elapsed)%Q in
      let speed_str := format_size speed +:+ "/s" in
      speed_cb <- get speed_callback ;;
      match speed_cb with
      | Some cb => invoke EvSpeed cb speed_str
      | None => ret tt
      end ;;
      eta_cb <- get eta_callback ;;
      match eta_cb with
      | Some cb =>
          let eta :=
            if Py.Qltb 0 speed
            then (inject_Z (file_size - transferred) / speed)%Q else 0%Q in
          invoke EvEta cb ("ETA: " +:+ format_time eta)
      | None => ret tt
      end
    else ret tt.

(** A [put] or [get] that was handed [hook]: before each hook call a
    cancel request may have arrived; an exception of the hook ends the
    stream. *)
Fixpoint feed (hook : chunk -> M unit) (cs : list chunk) : M unit :=
  match cs with
  | [] => ret tt
  | c :: cs' => arrive (c_cancel c) ;; hook c ;; feed hook cs'
  end.

Definition run_stream (st : stream) (hook : chunk -> M unit) : M unit :=
  feed hook (chunks st) ;; lift (finish st).

(** The inner [try] of [upload_file] and [download_file]: the transfer
    with the hook, and the retry without it when the message of the
    exception mentions the callback. *)
Definition with_fallback (first : M unit) (again : M unit) : M unit :=
  try_except first
    (fun e =>
       if Py.contains "callback" (Py.lower e) then
         again ;;
         progress_cb <- get progress_callback ;;
         match progress_cb with
         | Some cb => invoke EvProgress cb 100%Q
         | None => ret tt
         end
       else raise e).

(** [FileTransfer.upload_file]. *)
Definition upload_file (local_path remote_path : string) : M bool :=
  if negb is_connected_to_server then ret false
  else if negb get_sftp_client then ret false
  else
    try_except
      (file_size <- lift (os_getsize w local_path) ;;
       with_fallback
         (emit (EvPut local_path remote_path true) ;;
          run_stream (sftp_put w local_path remote_path)
            (callback file_size))
         (emit (EvPut local_path remote_path false) ;;
          lift (sftp_put_plain w local_path remote_path)) ;;
       ret true)
      (fun e =>
         print ("Upload error / Yükleme hatası: " +:+ e) ;; ret false).

(** [FileTransfer.download_file]. *)
Definition download_file (remote_path local_path : string) : M bool :=
  if negb is_connected_to_server then ret false
  else if negb get_sftp_client then ret false
  else
    try_except
      (file_size <- lift (sftp_stat_size w remote_path) ;;
       with_fallback
         (emit (EvGet remote_path local_path true) ;;
          run_stream (sftp_get w remote_path local_path)
            (callback file_size))
         (emit (EvGet remote_path local_path false) ;;
          lift (sftp_get_plain w remote_path local_path)) ;;
       ret true)
      (fun e =>
         print ("Download error / İndirme hatası: " +:+ e) ;; ret false).

(** [FileTransfer.upload_directory]; [t] is the tree found at
    [local_path], whose listing is what [os.listdir] enumerates. *)
Fixpoint upload_directory (t : node) (local_path remote_path : string)
    {struct t} : M bool :=
  if negb is_connected_to_server then ret false
  else if negb get_sftp_client then ret false
  else
    try_except
      (try_except
         (emit (EvMkdir remote_path) ;; lift (sftp_mkdir w remote_path))
         (fun _ => ret tt) ;;
       match os_listdir_raises w local_path with
       | Some msg => raise msg
       | None => ret tt
       end ;;
       match t with
       | Node _ items =>
           (fix each (items : list (string * node)) : M unit :=
              match items with
              | [] => ret tt
              | (item, child) :: rest =>
                  let local_item_path := Py.join local_path item in
                  let remote_item_path :=
                    Py.unbackslash (Py.join remote_path item) in
                  (if isdir (mode_of child)
                   then upload_directory child local_item_path
                          remote_item_path
                   else upload_file local_item_path remote_item_path) ;;
                  each rest
              end) items
       end ;;
       ret true)
      (fun e =>
         print ("Directory upload error / Klasör yükleme hatası: " +:+ e) ;;
         ret false).

(** [FileTransfer.download_directory]; [t] is the tree found at
    [remote_path], whose listing is what [listdir_attr] enumerates.  For an
    entry without a mode, [is_directory] raises the [TypeError] of
    [None & 0o040000]. *)
Fixpoint download_directory (t : node) (remote_path local_path : string)
    {struct t} : M bool :=
  if negb is_connected_to_server then ret false
  else if negb get_sftp_client then ret false
  else
    try_except
      (emit (EvMakedirs local_path) ;; lift (os_makedirs w local_path) ;;
       match sftp_listdir_attr_raises w remote_path with
       | Some msg => raise msg
       | None => ret tt
       end ;;
       match t with
       | Node _ items =>
           (fix each (items : list (string * node)) : M unit :=
              match items with
              | [] => ret tt
              | (item, child) :: rest =>
                  let remote_item_path :=
                    Py.unbackslash (Py.join remote_path item) in
                  let local_item_path := Py.join local_path item in
                  match mode_of child with
                  | Some mode =>
                      if is_directory mode
                      then download_directory child remote_item_path
                             local_item_path
                      else download_file remote_item_path local_item_path
                  | None =>
                      raise "unsupported operand type(s) for &: 'NoneType' and 'int'"
                  end ;;
                  each rest
              end) items
       end ;;
       ret true)
      (fun e =>
         print ("Directory download error / Klasör indirme hatası: " +:+ e) ;;
         ret false).

(** The text of the per-job status. *)
Definition job_status (i total_files : nat) (source : string) : string :=
  "Transferring (" +:+ pretty (S i) +:+ "/" +:+ pretty total_files +:+ "): "
  +:+ Py.basename source.

(** [os.path.isdir(source)], with the tree found there. *)
Definition os_isdir (path : string) : option node :=
  match os_tree w path with
  | Some t => if isdir (mode_of t) then Some t else None
  | None => None
  end.

(** The choice of the transfer for one job in [transfer_thread]. *)
Definition transfer_one (direction source destination : string) : M bool :=
  if String.eqb direction "upload" then
    match os_isdir source with
    | Some t => upload_directory t source destination
    | None => upload_file source destination
    end
  else download_file source destination.

(** The inner [try] block of the loop of [transfer_thread] for job
    number [i]: the transfer, then the log entry. *)
Definition job_try (direction : string) (i : nat)
    (source destination : string) : M unit :=
  success <- transfer_one direction source destination ;;
  arrive (cancel_at w (AfterTransfer i)) ;;
  cancelled <- get transfer_cancelled ;;
  if success && negb cancelled then
    let duration := job_duration w i in
    let file_size :=
      get_file_size source (String.eqb direction "download") in
    log_transfer (job_timestamp w i) direction
      (Py.basename source) file_size (Some duration)
  else ret tt.

(** The status sent when a job starts. *)
Definition announce_job (i total_files : nat) (source : string) : M unit :=
  status_cb <- get status_callback ;;
  match status_cb with
  | Some cb => invoke EvStatus cb (job_status i total_files source)
  | None => ret tt
  end.

(** The [try] block of a job with its [except] clause. *)
Definition guarded_job (direction : string) (i : nat)
    (source destination : string) : M unit :=
  try_except (job_try direction i source destination)
    (fun e => print ("File transfer error / Dosya transfer hatası: " +:+ e)).

(** The progress sent when a job is over. *)
Definition update_progress (i total_files : nat) : M unit :=
  arrive (cancel_at w (BeforeProgress i)) ;;
  cancelled <- get transfer_cancelled ;;
  if negb cancelled then
    ratio <- truediv (Z.of_nat i + 1) (Z.of_nat total_files) ;;
    progress_cb <- get progress_callback ;;
    match progress_cb with
    | Some cb => invoke EvProgress cb (Qred (ratio * 100))
    | None => ret tt
    end
  else ret tt.

(** The [for] loop of [transfer_thread], from job number [i] on; leaving
    the recursion is the [break]. *)
Fixpoint each_job (direction : string) (total_files i : nat)
    (file_list : list (string * string)) : M unit :=
  match file_list with
  | [] => ret tt
  | (source, destination) :: rest =>
      arrive (cancel_at w (BeforeJob i)) ;;
      cancelled <- get transfer_cancelled ;;
      if cancelled then ret tt
      else
        announce_job i total_files source ;;
        guarded_job direction i source destination ;;
        update_progress i total_files ;;
        each_job direction total_files (S i) rest
  end.

(** The final status of [transfer_thread], after the loop. *)
Definition final_status : M unit :=
  status_cb <- get status_callback ;;
  match status_cb with
  | Some cb =>
      arrive (cancel_at w BeforeFinalStatus) ;;
      cancelled <- get transfer_cancelled ;;
      if cancelled then invoke EvStatus cb "Transfer cancelled"
      else invoke EvStatus cb "Transfer completed"
  | None => ret tt
  end.

(** The closure [transfer_thread] of [transfer_files]: the body of the
    worker thread. *)
Definition transfer_thread (file_list : list (string * string))
    (direction : string) : M unit :=
  try_finally
    (try_except
       (modify (set_transfer_in_progress true) ;;
        modify (set_transfer_cancelled false) ;;
        let total_files := length file_list in
        each_job direction total_files 0 file_list ;;
        final_status)
       (fun e =>
          print ("Transfer thread error / Transfer thread hatası: " +:+ e)))
    (fun s => set_transfer_cancelled false (set_transfer_in_progress false s)).

(** [FileTransfer.transfer_files]: the guard, then the creation of the
    worker thread, whose body runs later as [run_thread]. *)
Definition transfer_files (file_list : list (string * string))
    (direction : string) : M bool :=
  in_progress <- get transfer_in_progress ;;
  if in_progress then ret false
  else
    modify (set_current_transfer_thread (Some (file_list, direction))) ;;
    ret true.

(** The worker thread created by the last accepted [transfer_files],
    run to its end. *)
Definition run_thread : M unit :=
  thread <- get current_transfer_thread ;;
  match thread with
  | Some (file_list, direction) => transfer_thread file_list direction
  | None => ret tt
  end.

End Methods.

(** ** Observations used in the statements *)

(** The state a computation leaves, and what it returns. *)
Definition exec {A} (m : M A) (s : engine) : engine := (m s).2.
Definition outcome {A} (m : M A) (s : engine) : result A := (m s).1.

(** The attributes that hold the log. *)
Definition store (s : engine) : loc * gmap loc (list loc) * gmap loc log_entry :=
  (transfer_log s, lists s, dicts s).

(** The four observer callbacks. *)
Definition callbacks (s : engine) :=
  (progress_callback s, status_callback s, speed_callback s, eta_callback s).

(** The messages handed to the status callback, in order. *)
Definition statuses (tr : list event) : list string :=
  omap (fun e => match e with EvStatus m => Some m | _ => None end) tr.

(** Every reference held by the log list is to an allocated dict. *)
Definition log_allocated (s : engine) : Prop :=
  Forall (fun d => is_Some (dicts s !! d)) (log_list s).

(** The list object of the log is allocated. *)
Definition log_owned (s : engine) : Prop :=
  is_Some (lists s !! transfer_log s).

(** The dict that job number [i] of a batch adds to the log. *)
Definition job_entry (w : world) (direction : string) (i : nat)
    (source : string) : log_entry :=
  LogEntry (job_timestamp w i) direction (Py.basename source)
    (get_file_size w source (String.eqb direction "download"))
    (Some (job_duration w i)).

(** The per-job statuses of a batch, from job number [i] on. *)
Fixpoint job_statuses (total_files i : nat)
    (file_list : list (string * string)) : list string :=
  match file_list with
  | [] => []
  | (source, _) :: rest =>
      job_status i total_files source :: job_statuses total_files (S i) rest
  end.

(** Events that write to a file store. *)
Definition is_observer_event (e : event) : bool :=
  match e with
  | EvProgress _ | EvSpeed _ | EvEta _ | EvPrint _ => true
  | _ => false
  end.

Definition is_speed_or_eta (e : event) : bool :=
  match e with
  | EvSpeed _ | EvEta _ => true
  | _ => false
  end.

Definition is_progress (e : event) : bool :=
  match e with
  | EvProgress _ => true
  | _ => false
  end.

(** The log after a sequence of [log_transfer] calls, given by their
    arguments. *)
Fixpoint log_all (entries : list log_entry) : M unit :=
  match entries with
  | [] => ret tt
  | e :: rest =>
      log_transfer (e_timestamp e) (e_action e) (e_filename e) (e_size e)
        (e_duration e) ;;
      log_all rest
  end.

(** ** Relations between the state before and after a computation *)

(** [m] keeps [R]: from every state, [m] leads to a state related to it. *)
Definition keeps (R : engine -> engine -> Prop) {A} (m : M A) : Prop :=
  forall s, R s (exec m s).

(** The log is untouched. *)
Definition same_store (s s' : engine) : Prop := store s' = store s.

(** A cancel request, once set, is still set. *)
Definition sticky_cancel (s s' : engine) : Prop :=
  transfer_cancelled s = true -> transfer_cancelled s' = true.

(** The trace grew by events that satisfy [P]. *)
Definition extends (P : event -> Prop) (s s' : engine) : Prop :=
  exists evs, trace s' = trace s ++ evs /\ Forall P evs.

(** No cancel request ever arrives in [w]. *)
Definition calm (w : world) : Prop :=
  (forall cp, cancel_at w cp = false)
  /\ (forall l r c, c ∈ chunks (sftp_put w l r) -> c_cancel c = false)
  /\ (forall r l c, c ∈ chunks (sftp_get w r l) -> c_cancel c = false).

(** The observers are the same, no status was sent and, in a calm world,
    no cancel request appeared. *)
Definition undisturbed (w : world) (s s' : engine) : Prop :=
  callbacks s' = callbacks s
  /\ statuses (trace s') = statuses (trace s)
  /\ (calm w -> transfer_cancelled s = false -> transfer_cancelled s' = false).

(** The status and progress observers of [s] return normally. *)
Definition observers_return (s : engine) : Prop :=
  (forall cb, status_callback s = Some cb -> forall m, cb m = None)
  /\ (forall cb, progress_callback s = Some cb -> forall p, cb p = None).

Definition is_status (e : event) : bool :=
  match e with
  | EvStatus _ => true
  | _ => false
  end.


(** ** Worlds and engines of the examples *)

Module Scenario.

(** An observer that records and returns. *)
Definition quiet {A} : observer A := fun _ => None.

(** A fresh engine with the four observers installed. *)
Definition observed : engine :=
  exec (set_progress_callbacks (Some quiet) (Some quiet) (Some quiet)
          (Some quiet)) init.

Definition render (x : Q) : string := pretty (Py.int x) +:+ ".0".

(** A connected world in which directories can be made and listed and the
    retry without hook succeeds. *)
Definition connected (tree : string -> option node)
    (getsize stat : string -> result Z)
    (put get : string -> string -> stream)
    (cancel : checkpoint -> bool) : world :=
  World true true true
    tree (fun _ => None) getsize (fun _ => Ok tt)
    stat (fun _ => None) (fun _ => Ok tt)
    put (fun _ _ => Ok tt) get (fun _ _ => Ok tt)
    (fun _ => 1%Q) (fun _ => "2024-01-01 12:00:00")
    cancel render render.

Definition nothing : string -> result Z := fun _ => Raise "No such file".
Definition silent : string -> string -> stream :=
  fun _ _ => Stream [] (Ok tt).
Definition never : checkpoint -> bool := fun _ => false.

(** An empty file whose transfer calls the hook once, with 0 bytes. *)
Definition empty_file : world :=
  connected (fun _ => None) (fun _ => Ok 0%Z) (fun _ => Ok 0%Z)
    (fun _ _ => Stream [Chunk false 0 (1 # 100)] (Ok tt))
    (fun _ _ => Stream [Chunk false 0 (1 # 100)] (Ok tt)) never.

(** An empty file whose transfer ends without calling the hook. *)
Definition empty_file_no_hook : world :=
  connected (fun _ => None) (fun _ => Ok 0%Z) (fun _ => Ok 0%Z)
    silent silent never.

(** The remote directory [/remote/d]: a file [f.bin] of 100 bytes and an
    empty directory [sub].  A [get] of the directory itself fails. *)
Definition remote_d : node :=
  Node (Some 16877%Z) [("f.bin", Node (Some 33188%Z) []); ("sub", Node (Some 16877%Z) [])].

Definition remote_dir : world :=
  connected (fun _ => None) nothing
    (fun p => if String.eqb p "/remote/d/f.bin" then Ok 100%Z
              else Ok 4096%Z)
    silent
    (fun r _ =>
       if String.eqb r "/remote/d/f.bin"
       then Stream [Chunk false 100 1] (Ok tt)
       else Stream [] (Raise "Failure"))
    never.

(** The local directory [/home/d] with two files of 10 bytes. *)
Definition local_d : node :=
  Node (Some 16877%Z) [("a.txt", Node (Some 33188%Z) []); ("b.txt", Node (Some 33188%Z) [])].

Definition local_dir : world :=
  connected
    (fun p => if String.eqb p "/home/d" then Some local_d else None)
    (fun p => if String.eqb p "/home/d" then Ok 4096%Z else Ok 10%Z)
    nothing
    (fun _ _ => Stream [Chunk false 10 1] (Ok tt)) silent never.

(** Two local files, the first of which cannot be read. *)
Definition first_unreadable : world :=
  connected (fun _ => None)
    (fun p => if String.eqb p "/home/a.txt"
              then Raise "Permission denied" else Ok 10%Z)
    nothing
    (fun _ _ => Stream [Chunk false 10 1] (Ok tt)) silent never.

(** A file of 2048 bytes sent in two chunks. *)
Definition two_chunks : world :=
  connected (fun _ => None) (fun _ => Ok 2048%Z) (fun _ => Ok 2048%Z)
    (fun _ _ => Stream [Chunk false 1024 1; Chunk false 2048 2] (Ok tt))
    (fun _ _ => Stream [Chunk false 1024 1; Chunk false 2048 2] (Ok tt))
    never.

(** The same, with a cancel request arriving before the second chunk. *)
Definition cancelled_mid_file : world :=
  connected (fun _ => None) (fun _ => Ok 2048%Z) (fun _ => Ok 2048%Z)
    (fun _ _ => Stream [Chunk false 1024 1; Chunk true 2048 2] (Ok tt))
    (fun _ _ => Stream [Chunk false 1024 1; Chunk true 2048 2] (Ok tt))
    never.

(** An engine with a batch running. *)
Definition busy : engine := set_transfer_in_progress true observed.


Definition two_jobs : list (string * string) :=
  [("/home/a.txt", "/remote/a.txt"); ("/home/b.txt", "/remote/b.txt")].

(** An engine whose log holds one entry, and a changed version of that
    entry. *)
Definition logged_once : engine :=
  exec (log_transfer "2024-01-01 12:00:00" "upload" "a.txt" (Some 2048%Z)
          (Some 1%Q)) init.

Definition defaced : log_entry :=
  LogEntry "2024-01-01 12:00:00" "upload" "changed" (Some 2048%Z) (Some 1%Q).

(** 101 distinct log entries. *)
Definition numbered (i : nat) : log_entry :=
  LogEntry "2024-01-01 12:00:00" "upload" "a.txt" (Some (Z.of_nat i)) None.

Definition entries101 : list log_entry := numbered <$> seq 0 101.

(** A batch of [n] files, [f0] to the one numbered [n - 1]. *)
Definition numbered_jobs (n : nat) : list (string * string) :=
  (fun i => ("/home/f" +:+ pretty i, "/remote/f" +:+ pretty i)) <$> seq 0 n.

End Scenario.

(** ** Further observations *)

(** [m] always returns a value: no exception escapes it. *)
Definition returns {A} (m : M A) : Prop :=
  forall s, exists a, outcome m s = Ok a.

(** The log is in order: its list object and the dicts it refers to are
    allocated, and it holds at most 100 entries. *)
Definition log_ok (s : engine) : Prop :=
  log_owned s /\ log_allocated s /\ length (log_entries s) <= 100.

(** Calls that write to a file store. *)
Definition is_store_write (e : event) : bool :=
  match e with
  | EvPut _ _ _ | EvGet _ _ _ | EvMkdir _ | EvMakedirs _ => true
  | _ => false
  end.

(** The log is untouched and no call wrote to a file store. *)
Definition no_write (s s' : engine) : Prop :=
  store s' = store s /\ extends (fun e => is_store_write e = false) s s'.

(** [m] always returns the value [a]. *)
Definition yields {A} (m : M A) (a : A) : Prop :=
  forall s, outcome m s = Ok a.

(** The reference [r] is to a list object, other than the log's own, that
    holds the references [l], all allocated, and reads as [entries]. *)
Definition snapshot (r : loc) (l : list loc) (entries : list log_entry)
    (s : engine) : Prop :=
  lists s !! r = Some l
  /\ r <> transfer_log s
  /\ Forall (fun d => is_Some (dicts s !! d)) l
  /\ omap (fun d => dicts s !! d) l = entries.

(** The log is still in order. *)
Definition keeps_log_ok (s s' : engine) : Prop := log_ok s -> log_ok s'.

(** The snapshot is still there. *)
Definition keeps_snapshot (r : loc) (l : list loc) (entries : list log_entry)
    (s s' : engine) : Prop :=
  snapshot r l entries s -> snapshot r l entries s'.

(** The entries a batch can add to the log: one per job, from job number
    [i] on. *)
Fixpoint job_entries (w : world) (direction : string) (i : nat)
    (file_list : list (string * string)) : list log_entry :=
  match file_list with
  | [] => []
  | (source, _) :: rest =>
      job_entry w direction i source :: job_entries w direction (S i) rest
  end.

(** The log, in order before and after, gained some of [candidates], in
    their order, and lost entries at the front only. *)
Definition gained (candidates : list log_entry) (s s' : engine) : Prop :=
  log_ok s ->
  log_ok s'
  /\ exists added,
       sublist added candidates
       /\ log_entries s' = last100 (log_entries s ++ added).

(** The source and destination of a [get] that was handed the hook. *)
Definition hooked_get (e : event) : option (string * string) :=
  match e with
  | EvGet remote_path local_path true => Some (remote_path, local_path)
  | _ => None
  end.



(** The trace grew, and the [get]s with the hook that it gained are those
    of [jobs], in order. *)
Definition fetched (jobs : list (string * string)) (s s' : engine) : Prop :=
  exists evs, trace s' = trace s ++ evs /\ omap hooked_get evs = jobs.

(** The end of a batch: both flags are reset. *)
Definition idle (s : engine) : engine :=
  set_transfer_cancelled false (set_transfer_in_progress false s).

(** The state a batch starts its loop in. *)
Definition started (s : engine) : engine :=
  set_transfer_cancelled false (set_transfer_in_progress true s).

(** Handing [e] to the observer [cb], if there is one, which returns. *)
Definition told {A} (cb : option (observer A)) (e : event) (s : engine) :
    engine :=
  match cb with
  | Some _ => exec (emit e) s
  | None => s
  end.

(** One job carried out to its end, with no cancel request and observers
    that return: the status of the job, its transfer, the log entry if the
    transfer succeeded, the progress of the batch. *)
Definition job_in_turn (w : world) (direction : string) (total_files i : nat)
    (source destination : string) (s : engine) : engine :=
  let s1 :=
    told (status_callback s) (EvStatus (job_status i total_files source)) s in
  let s2 := exec (transfer_one w direction source destination) s1 in
  let s3 :=
    match outcome (transfer_one w direction source destination) s1 with
    | Ok true =>
        exec (log_transfer (job_timestamp w i) direction (Py.basename source)
                (get_file_size w source (String.eqb direction "download"))
                (Some (job_duration w i))) s2
    | _ => s2
    end in
  told (progress_callback s3)
    (EvProgress (Qred (inject_Z (Z.of_nat i + 1)
                       / inject_Z (Z.of_nat total_files) * 100))) s3.

(** Every job of a list carried out in turn, from job number [i] on. *)
Fixpoint jobs_in_turn (w : world) (direction : string) (total_files i : nat)
    (file_list : list (string * string)) (s : engine) : engine :=
  match file_list with
  | [] => s
  | (source, destination) :: rest =>
      jobs_in_turn w direction total_files (S i) rest
        (job_in_turn w direction total_files i source destination s)
  end.


(** ** More worlds for the examples *)

Module More.

(** A world with no session. *)
Definition offline : world :=
  World false false false
    (fun _ => None) (fun _ => None) (fun _ => Ok 10%Z) (fun _ => Ok tt)
    (fun _ => Ok 10%Z) (fun _ => None) (fun _ => Ok tt)
    Scenario.silent (fun _ _ => Ok tt) Scenario.silent (fun _ _ => Ok tt)
    (fun _ => 1%Q) (fun _ => "2024-01-01 12:00:00")
    Scenario.never Scenario.render Scenario.render.

(** A connected world in which no file can be read or fetched, no remote
    directory can be made, and listing anything but the top directory
    fails. *)
Definition hostile : world :=
  World true true true
    (fun _ => None)
    (fun p => if String.eqb p "/home/d" then None
              else Some "Permission denied")
    (fun _ => Raise "Permission denied") (fun _ => Ok tt)
    (fun _ => Raise "No such file")
    (fun p => if String.eqb p "/remote/d" then None
              else Some "Permission denied")
    (fun _ => Raise "Failure")
    Scenario.silent (fun _ _ => Ok tt) Scenario.silent (fun _ _ => Ok tt)
    (fun _ => 1%Q) (fun _ => "2024-01-01 12:00:00")
    Scenario.never Scenario.render Scenario.render.

(** A directory holding a file and a directory with a file in it. *)
Definition nested : node :=
  Node (Some 16877%Z) [("a.txt", Node (Some 33188%Z) []);
              ("sub", Node (Some 16877%Z) [("b.txt", Node (Some 33188%Z) [])])].

(** A remote directory one entry of which is listed without a mode. *)
Definition modeless : node :=
  Node (Some 16877%Z) [("a.txt", Node (Some 33188%Z) []); ("b", Node None [])].



(** The world [Scenario.two_chunks] with the cancel requests [cancel]. *)
Definition cancelling (cancel : checkpoint -> bool) : world :=
  Scenario.connected (fun _ => None) (fun _ => Ok 2048%Z) (fun _ => Ok 2048%Z)
    (fun _ _ => Stream [Chunk false 1024 1; Chunk false 2048 2] (Ok tt))
    (fun _ _ => Stream [Chunk false 1024 1; Chunk false 2048 2] (Ok tt))
    cancel.

(** A cancel request that arrives before the second job is started. *)
Definition before_second (cp : checkpoint) : bool :=
  match cp with
  | BeforeJob 1 => true
  | _ => false
  end.

(** A cancel request that arrives when the transfer of the first job has
    returned. *)
Definition after_first_transfer (cp : checkpoint) : bool :=
  match cp with
  | AfterTransfer 0 => true
  | _ => false
  end.

(** A cancel request that arrives after the last job. *)
Definition at_the_end (cp : checkpoint) : bool :=
  match cp with
  | BeforeFinalStatus => true
  | _ => false
  end.


End More.

(** ** The connection manager of src/connection_manager.py *)

Module Conn.

(** The exception classes that the [except] clauses of [connect] tell apart,
    each with its [str(e)].  [AuthenticationException] is a subclass of
    [SSHException]; its clause comes first. *)
Inductive exn :=
| AuthenticationException (msg : string)
| SSHException (msg : string)
| SocketTimeout (msg : string)
| SocketGaierror (msg : string)
| OtherException (msg : string).

Definition str (e : exn) : string :=
  match e with
  | AuthenticationException msg | SSHException msg | SocketTimeout msg
  | SocketGaierror msg | OtherException msg => msg
  end.

(** A paramiko client object; the class only tests whether an attribute
    holds one. *)
Inductive client := Client.

(** The dict [current_connection]. *)
Record connection := Connection {
  conn_ip : string;
  conn_username : string;
  conn_port : Z;
  conn_name : string;
}.

(** What the manager does to its observers and to the console. *)
Inductive event :=
| OnConnect
| OnDisconnect
| OnError (error_msg : string)
| Print (text : string).

(** A callback returns ([None]) or raises. *)
Definition callback (A : Type) : Type := A -> option exn.

(** The attributes of a [ConnectionManager], and the record of its calls. *)
Record manager := Manager {
  ssh_client : option client;
  sftp_client : option client;
  current_connection : option connection;
  is_connected : bool;
  on_connect_callback : option (callback unit);
  on_disconnect_callback : option (callback unit);
  on_error_callback : option (callback string);
  calls : list event;
}.

(** paramiko, as one call of a method meets it: whether each call returns
    ([None]) or raises. *)
Record net := Net {
  ssh_connect : string -> Z -> string -> string -> Z -> option exn;
  open_sftp : option exn;
  sftp_close : option exn;
  ssh_close : option exn;
  sftp_listdir : string -> option exn;
}.

(** Method bodies: state passing over [manager], with exceptions. *)
Inductive outcome (A : Type) :=
| Return (a : A)
| Throw (e : exn).
Arguments Return {A} a.
Arguments Throw {A} e.

Definition C (A : Type) : Type := manager -> outcome A * manager.

Definition ret {A} (a : A) : C A := fun m => (Return a, m).

Definition bind {A B} (c : C A) (k : A -> C B) : C B :=
  fun m =>
    match c m with
    | (Return a, m') => k a m'
    | (Throw e, m') => (Throw e, m')
    end.

Definition try_except {A} (body : C A) (handler : exn -> C A) : C A :=
  fun m =>
    match body m with
    | (Return a, m') => (Return a, m')
    | (Throw e, m') => handler e m'
    end.

Definition get {A} (f : manager -> A) : C A := fun m => (Return (f m), m).
Definition modify (f : manager -> manager) : C unit :=
  fun m => (Return tt, f m).

(** A collaborator call that returns nothing. *)
Definition attempt (r : option exn) : C unit :=
  fun m => (match r with None => Return tt | Some e => Throw e end, m).

Declare Scope conn_scope.
Delimit Scope conn_scope with conn.
Notation "x <- c ;; k" := (bind c (fun x => k))
  (at level 100, c at next level, right associativity) : conn_scope.
Notation "c ;; k" := (bind c (fun _ => k))
  (at level 100, right associativity) : conn_scope.
#[local] Open Scope conn_scope.

(** Attribute assignment. *)
Definition set_ssh_client (v : option client) (m : manager) : manager :=
  Manager v (sftp_client m) (current_connection m) (is_connected m)
    (on_connect_callback m) (on_disconnect_callback m) (on_error_callback m)
    (calls m).

Definition set_sftp_client (v : option client) (m : manager) : manager :=
  Manager (ssh_client m) v (current_connection m) (is_connected m)
    (on_connect_callback m) (on_disconnect_callback m) (on_error_callback m)
    (calls m).

Definition set_current_connection (v : option connection) (m : manager)
    : manager :=
  Manager (ssh_client m) (sftp_client m) v (is_connected m)
    (on_connect_callback m) (on_disconnect_callback m) (on_error_callback m)
    (calls m).

Definition set_is_connected (v : bool) (m : manager) : manager :=
  Manager (ssh_client m) (sftp_client m) (current_connection m) v
    (on_connect_callback m) (on_disconnect_callback m) (on_error_callback m)
    (calls m).

Definition record (e : event) : C unit :=
  modify (fun m =>
    Manager (ssh_client m) (sftp_client m) (current_connection m)
      (is_connected m) (on_connect_callback m) (on_disconnect_callback m)
      (on_error_callback m) (calls m ++ [e])).

(** [print(text)]. *)
Definition print (text : string) : C unit := record (Print text).

(** [if cb: cb(a)]: the call is recorded, then it returns or raises. *)
Definition notify {A} (ev : event) (cb : option (callback A)) (a : A)
    : C unit :=
  match cb with
  | Some f => record ev ;; attempt (f a)
  | None => ret tt
  end.

(** [ConnectionManager.__init__]. *)
Definition init : manager := Manager None None None false None None None [].

(** [ConnectionManager.set_connection_callbacks]. *)
Definition set_connection_callbacks
    (on_connect on_disconnect : option (callback unit))
    (on_error : option (callback string)) : C unit :=
  modify (fun m =>
    Manager (ssh_client m) (sftp_client m) (current_connection m)
      (is_connected m) on_connect on_disconnect on_error (calls m)).

Section Methods.

Variable n : net.

(** [ConnectionManager.disconnect]. *)
Definition disconnect : C unit :=
  try_except
    (sftp <- get sftp_client ;;
     match sftp with
     | Some _ => attempt (sftp_close n) ;; modify (set_sftp_client None)
     | None => ret tt
     end ;;
     ssh <- get ssh_client ;;
     match ssh with
     | Some _ => attempt (ssh_close n) ;; modify (set_ssh_client None)
     | None => ret tt
     end ;;
     modify (set_is_connected false) ;;
     modify (set_current_connection None) ;;
     cb <- get on_disconnect_callback ;;
     notify OnDisconnect cb tt)
    (fun e =>
       print ("Disconnect error / Bağlantı kesme hatası: " +:+ str e)).

(** The [error_msg] of the [except] clause of [connect] that takes [e]. *)
Definition error_msg_of (e : exn) : string :=
  match e with
  | AuthenticationException _ =>
      "Authentication failed / Kimlik doğrulama başarısız"
  | SSHException msg => "SSH error / SSH hatası: " +:+ msg
  | SocketTimeout _ => "Connection timeout / Bağlantı zaman aşımı"
  | SocketGaierror _ => "Host not found / Sunucu bulunamadı"
  | OtherException msg => "Connection error / Bağlantı hatası: " +:+ msg
  end.

(** [ConnectionManager.connect]. *)
Definition connect (ip username password : string) (port timeout : Z)
    : C (bool * string) :=
  try_except
    (connected <- get is_connected ;;
     (if connected then disconnect else ret tt) ;;
     modify (set_ssh_client (Some Client)) ;;
     attempt (ssh_connect n ip port username password timeout) ;;
     attempt (open_sftp n) ;;
     modify (set_sftp_client (Some Client)) ;;
     modify (set_current_connection
               (Some (Connection ip username port
                        (username +:+ "@" +:+ ip +:+ ":"
                         +:+ Py.str_int port)))) ;;
     modify (set_is_connected true) ;;
     cb <- get on_connect_callback ;;
     notify OnConnect cb tt ;;
     ret (true, EmptyString))
    (fun e =>
       let error_msg := error_msg_of e in
       cb <- get on_error_callback ;;
       notify (OnError error_msg) cb error_msg ;;
       ret (false, error_msg)).

(** [ConnectionManager.is_connected_to_server], as a truth value. *)
Definition is_connected_to_server (m : manager) : bool :=
  is_connected m && bool_decide (is_Some (ssh_client m))
  && bool_decide (is_Some (sftp_client m)).

(** [ConnectionManager.get_current_connection]. *)
Definition get_current_connection (m : manager) : option connection :=
  current_connection m.

(** [ConnectionManager.get_sftp_client]. *)
Definition get_sftp_client (m : manager) : option client :=
  if is_connected m then sftp_client m else None.

(** [ConnectionManager.get_ssh_client]. *)
Definition get_ssh_client (m : manager) : option client :=
  if is_connected m then ssh_client m else None.

(** [ConnectionManager.test_connection]. *)
Definition test_connection : C bool :=
  connected <- get is_connected_to_server ;;
  if negb connected then ret false
  else
    try_except
      (attempt (sftp_listdir n "/") ;; ret true)
      (fun _ => disconnect ;; ret false).

(** [ConnectionManager.get_remote_path]. *)
Definition get_remote_path (m : manager) : string :=
  match current_connection m with
  | Some c => "/home/" +:+ conn_username c
  | None => "/home/pi"
  end.

End Methods.

(** The state a method leaves, and what it returns. *)
Definition exec {A} (c : C A) (m : manager) : manager := (c m).2.
Definition result_of {A} (c : C A) (m : manager) : outcome A := (c m).1.

(** A network on which every call succeeds, one whose SFTP session cannot be
    closed, and a manager with a session and observers. *)
Definition fine : net := Net (fun _ _ _ _ _ => None) None None None (fun _ => None).

Definition stuck : net :=
  Net (fun _ _ _ _ _ => Some (SSHException "No route to host")) None
    (Some (OtherException "Socket is closed")) None
    (fun _ => Some (OtherException "Socket is closed")).

Definition unreachable : net :=
  Net (fun _ _ _ _ _ => Some (SocketTimeout "timed out")) None None None
    (fun _ => Some (OtherException "Socket is closed")).

Definition quiet {A} : callback A := fun _ => None.
Definition failing {A} : callback A :=
  fun _ => Some (OtherException "main thread is not in main loop").

Definition session : manager :=
  exec (set_connection_callbacks (Some quiet) (Some quiet) (Some quiet) ;;
        connect fine "192.168.1.10" "pi" "raspberry" 22 10) init.

End Conn.

(** The world of the engine when its connection manager is in state [m]. *)
Definition served_by (m : Conn.manager) (w : world) : world :=
  World (Conn.is_connected m)
    (bool_decide (is_Some (Conn.ssh_client m)))
    (bool_decide (is_Some (Conn.sftp_client m)))
    (os_tree w) (os_listdir_raises w) (os_getsize w) (os_makedirs w)
    (sftp_stat_size w) (sftp_listdir_attr_raises w) (sftp_mkdir w)
    (sftp_put w) (sftp_put_plain w) (sftp_get w) (sftp_get_plain w)
    (job_duration w) (job_timestamp w) (cancel_at w)
    (float_str w) (float_1f w).

(** ** The file lists of src/gui_components.py *)

Module Gui.

(** A Python [str] as the list of its code points: the rows of the file
    lists carry an icon outside ASCII, and [name[2:]] counts code points. *)
Definition str := list N.

Definition folder : N := 128193.     (* U+1F4C1, the folder icon *)
Definition page : N := 128196.       (* U+1F4C4, the file icon *)
Definition space : N := 32.
Definition slash : N := 47.
Definition backslash : N := 92.

(** [s.startswith(prefix)]. *)
Fixpoint startswith (prefix s : str) : bool :=
  match prefix, s with
  | [], _ => true
  | _ :: _, [] => false
  | a :: prefix', b :: s' => (a =? b)%N && startswith prefix' s'
  end.

(** [s.replace(old, new)] from a position inside [s]: the next [skip] code
    points belong to an occurrence already replaced. *)
Fixpoint replace_from (old new : str) (skip : nat) (s : str) : str :=
  match s with
  | [] => []
  | c :: rest =>
      match skip with
      | S k => replace_from old new k rest
      | O =>
          if startswith old s
          then new ++ replace_from old new (length old - 1) rest
          else c :: replace_from old new 0 rest
      end
  end.

(** [s.replace(old, new)]: the occurrences of [old] are taken from the left
    and do not overlap; an empty [old] matches before every code point and
    at the end. *)
Definition replace (old new s : str) : str :=
  match old with
  | [] => new ++ flat_map (fun c => c :: new) s
  | _ :: _ => replace_from old new 0 s
  end.

(** [os.path.join(a, b)]. *)
Definition join (a b : str) : str :=
  if startswith [slash] b then b
  else
    match last a with
    | None => a ++ b
    | Some c => if (c =? slash)%N then a ++ b else a ++ slash :: b
    end.

(** The text of a row, [f"{icon} {name}"], as [refresh_local_files] and
    [refresh_remote_files] insert it. *)
Definition item_text (is_dir : bool) (name : str) : str :=
  (if is_dir then folder else page) :: space :: name.

(** The name that [transfer_to_remote] and [transfer_to_local] take from the
    text of a selected row. *)
Definition selected_name (text : str) : str :=
  let name := replace [page; space] [] (replace [folder; space] [] text) in
  if startswith [folder] name then drop 2 name else name.

(** What a handler ends in. *)
Inductive action :=
| ShowError (message : string)
| ShowWarning (message : string)
| TransferFiles (file_list : list (str * str)) (direction : string)
| Nothing.

(** [transfer_to_remote], for the texts of the selected rows. *)
Definition transfer_to_remote (connected : bool)
    (local_current_path remote_current_path : str) (selection : list str)
    : action :=
  if negb connected then ShowError "No connection!"
  else
    match selection with
    | [] => ShowWarning "Select files to transfer!"
    | _ :: _ =>
        let selected_files :=
          map (fun text =>
                 let name := selected_name text in
                 let local_path := join local_current_path name in
                 (local_path,
                  replace [backslash] [slash]
                    (join remote_current_path name)))
            selection in
        match selected_files with
        | [] => Nothing
        | _ :: _ => TransferFiles selected_files "upload"
        end
    end.

(** [transfer_to_local], for the texts of the selected rows. *)
Definition transfer_to_local (connected : bool)
    (local_current_path remote_current_path : str) (selection : list str)
    : action :=
  if negb connected then ShowError "No connection!"
  else
    match selection with
    | [] => ShowWarning "Select files to transfer!"
    | _ :: _ =>
        let selected_files :=
          map (fun text =>
                 let name := selected_name text in
                 let remote_path :=
                   replace [backslash] [slash]
                     (join remote_current_path name) in
                 (remote_path, join local_current_path name))
            selection in
        match selected_files with
        | [] => Nothing
        | _ :: _ => TransferFiles selected_files "download"
        end
    end.

(** [old in s]. *)
Fixpoint contains (old s : str) : bool :=
  startswith old s
  || match s with
     | [] => false
     | _ :: rest => contains old rest
     end.

(** A name that carries no icon of its own: it holds neither icon followed
    by a space and does not begin with the folder icon. *)
Definition plain (name : str) : bool :=
  negb (contains [folder; space] name)
  && negb (contains [page; space] name)
  && negb (startswith [folder] name).

(** The code points of an ASCII text. *)
Definition ascii_str (s : string) : str :=
  map (fun a => N_of_ascii a) (list_ascii_of_string s).

End Gui.

(** * Proofs *)

(** ** Induction on directory trees *)

Lemma node_ind_nested (P : node -> Prop) :
  (forall m items, Forall (fun p => P p.2) items -> P (Node m items)) ->
  forall t, P t.
Proof.
  intros H. fix IH 1. intros [m items]. apply H.
  revert items. fix IHitems 1. intros [|[name c] items].
  - constructor.
  - constructor; [apply IH | apply IHitems].
Qed.

(** ** Relations kept by every step of a computation *)

Section Keeps.

Variable R : engine -> engine -> Prop.
Context `{!PreOrder R}.

(** Which events may be emitted, and whether a cancel request may arrive. *)
Variable ok_event : event -> Prop.
Variable can_cancel : Prop.

Hypothesis R_emit : forall e s, ok_event e -> R s (exec (emit e) s).
Hypothesis R_cancel :
  can_cancel -> forall s, R s (set_transfer_cancelled true s).

Lemma keeps_ret {A} (a : A) : keeps R (ret a).
Proof. intros s. reflexivity. Qed.

Lemma keeps_raise {A} (msg : string) : keeps R (@raise A msg).
Proof. intros s. reflexivity. Qed.

Lemma keeps_get {A} (f : engine -> A) : keeps R (get f).
Proof. intros s. reflexivity. Qed.

Lemma keeps_lift {A} (r : result A) : keeps R (lift r).
Proof. intros s. reflexivity. Qed.

Lemma keeps_bind {A B} (m : M A) (k : A -> M B) :
  keeps R m -> (forall a, keeps R (k a)) -> keeps R (bind m k).
Proof.
  intros Hm Hk s. unfold exec, bind. specialize (Hm s). unfold exec in Hm.
  destruct (m s) as [[a|e] s1]; simpl in *; [|exact Hm].
  etransitivity; [exact Hm|]. apply Hk.
Qed.

Lemma keeps_try_except {A} (body : M A) (handler : string -> M A) :
  keeps R body -> (forall e, keeps R (handler e)) ->
  keeps R (try_except body handler).
Proof.
  intros Hm Hk s. unfold exec, try_except. specialize (Hm s).
  unfold exec in Hm.
  destruct (body s) as [[a|e] s1]; simpl in *; [exact Hm|].
  etransitivity; [exact Hm|]. apply Hk.
Qed.

Lemma keeps_emit (e : event) : ok_event e -> keeps R (emit e).
Proof. intros He s. apply R_emit, He. Qed.

Lemma keeps_print (text : string) :
  ok_event (EvPrint text) -> keeps R (print text).
Proof. apply keeps_emit. Qed.

Lemma keeps_invoke {A} (ev : A -> event) (cb : observer A) (a : A) :
  ok_event (ev a) -> keeps R (invoke ev cb a).
Proof.
  intros He. unfold invoke. apply keeps_bind; [apply keeps_emit, He|].
  intros _. destruct (cb a); [apply keeps_raise | apply keeps_ret].
Qed.

Lemma keeps_arrive (b : bool) : (b = true -> can_cancel) -> keeps R (arrive b).
Proof.
  intros Hb. destruct b; simpl; [|apply keeps_ret].
  intros s. apply R_cancel. auto.
Qed.

Lemma keeps_truediv (a b : Z) : keeps R (truediv a b).
Proof.
  unfold truediv. destruct (b =? 0)%Z; [apply keeps_raise | apply keeps_ret].
Qed.

Ltac keeps_step :=
  first
    [ apply keeps_ret | apply keeps_raise | apply keeps_get
    | apply keeps_lift | apply keeps_truediv
    | apply keeps_bind; [|intros ?]
    | apply keeps_try_except; [|intros ?]
    | apply keeps_invoke | apply keeps_print | apply keeps_emit
    | match goal with
      | |- keeps _ (if ?b then _ else _) => destruct b
      | |- keeps _ (match ?x with Some _ => _ | None => _ end) => destruct x
      end ].

(** *** The methods *)

Variable w : world.

Hypothesis ok_observer :
  forall e, is_observer_event e = true -> ok_event e.
Hypothesis put_cancel :
  forall l r c, c ∈ chunks (sftp_put w l r) -> c_cancel c = true -> can_cancel.
Hypothesis get_cancel :
  forall r l c, c ∈ chunks (sftp_get w r l) -> c_cancel c = true -> can_cancel.

Lemma keeps_callback (file_size : Z) (c : chunk) :
  keeps R (callback w file_size c).
Proof.
  unfold callback. repeat keeps_step; apply ok_observer; reflexivity.
Qed.

Lemma keeps_feed (hook : chunk -> M unit) (cs : list chunk) :
  (forall c, c ∈ cs -> c_cancel c = true -> can_cancel) ->
  (forall c, keeps R (hook c)) -> keeps R (feed hook cs).
Proof.
  intros Hcs Hhook. induction cs as [|c cs IH]; simpl; [apply keeps_ret|].
  apply keeps_bind.
  - apply keeps_arrive, Hcs. left.
  - intros _. apply keeps_bind; [apply Hhook|]. intros _. apply IH.
    intros c' Hc'. apply Hcs. right. exact Hc'.
Qed.

Lemma keeps_run_stream (st : stream) (hook : chunk -> M unit) :
  (forall c, c ∈ chunks st -> c_cancel c = true -> can_cancel) ->
  (forall c, keeps R (hook c)) -> keeps R (run_stream st hook).
Proof.
  intros Hcs Hhook. unfold run_stream. apply keeps_bind.
  - apply keeps_feed; assumption.
  - intros _. apply keeps_lift.
Qed.

Lemma keeps_with_fallback (first again : M unit) :
  keeps R first -> keeps R again -> keeps R (with_fallback first again).
Proof.
  intros Hfirst Hagain. unfold with_fallback.
  apply keeps_try_except; [exact Hfirst|]. intros e.
  destruct (Py.contains _ _); [|apply keeps_raise].
  apply keeps_bind; [exact Hagain|]. intros _.
  repeat keeps_step. apply ok_observer. reflexivity.
Qed.

Lemma keeps_upload_file (local_path remote_path : string) :
  (forall b, ok_event (EvPut local_path remote_path b)) ->
  keeps R (upload_file w local_path remote_path).
Proof.
  intros Hput. unfold upload_file.
  destruct (negb _); [apply keeps_ret|].
  destruct (negb _); [apply keeps_ret|].
  apply keeps_try_except.
  - apply keeps_bind; [apply keeps_lift|]. intros file_size.
    apply keeps_bind; [|intros _; apply keeps_ret].
    apply keeps_with_fallback.
    + apply keeps_bind; [apply keeps_emit, Hput|]. intros _.
      apply keeps_run_stream; [apply put_cancel | apply keeps_callback].
    + apply keeps_bind; [apply keeps_emit, Hput|]. intros _.
      apply keeps_lift.
  - intros e. apply keeps_bind; [|intros _; apply keeps_ret].
    apply keeps_print, ok_observer. reflexivity.
Qed.

Lemma keeps_download_file (remote_path local_path : string) :
  (forall b, ok_event (EvGet remote_path local_path b)) ->
  keeps R (download_file w remote_path local_path).
Proof.
  intros Hget. unfold download_file.
  destruct (negb _); [apply keeps_ret|].
  destruct (negb _); [apply keeps_ret|].
  apply keeps_try_except.
  - apply keeps_bind; [apply keeps_lift|]. intros file_size.
    apply keeps_bind; [|intros _; apply keeps_ret].
    apply keeps_with_fallback.
    + apply keeps_bind; [apply keeps_emit, Hget|]. intros _.
      apply keeps_run_stream; [apply get_cancel | apply keeps_callback].
    + apply keeps_bind; [apply keeps_emit, Hget|]. intros _.
      apply keeps_lift.
  - intros e. apply keeps_bind; [|intros _; apply keeps_ret].
    apply keeps_print, ok_observer. reflexivity.
Qed.

Lemma keeps_upload_directory :
  (forall l r b, ok_event (EvPut l r b)) ->
  (forall r, ok_event (EvMkdir r)) ->
  forall t local_path remote_path,
    keeps R (upload_directory w t local_path remote_path).
Proof.
  intros Hput Hmkdir t.
  induction t as [m items IH] using node_ind_nested.
  intros local_path remote_path. simpl.
  destruct (negb _); [apply keeps_ret|].
  destruct (negb _); [apply keeps_ret|].
  apply keeps_try_except.
  - apply keeps_bind.
    { apply keeps_try_except; [|intros _; apply keeps_ret].
      apply keeps_bind; [apply keeps_emit, Hmkdir|]. intros _.
      apply keeps_lift. }
    intros _. apply keeps_bind.
    { destruct (os_listdir_raises w local_path);
        [apply keeps_raise | apply keeps_ret]. }
    intros _. apply keeps_bind; [|intros _; apply keeps_ret].
    induction IH as [|[item child] rest Hchild _ IHrest]; [apply keeps_ret|].
    apply keeps_bind; [|intros _; exact IHrest].
    destruct (isdir _); [apply Hchild | apply keeps_upload_file, Hput].
  - intros e. apply keeps_bind; [|intros _; apply keeps_ret].
    apply keeps_print, ok_observer. reflexivity.
Qed.

Lemma keeps_download_directory :
  (forall r l b, ok_event (EvGet r l b)) ->
  (forall l, ok_event (EvMakedirs l)) ->
  forall t remote_path local_path,
    keeps R (download_directory w t remote_path local_path).
Proof.
  intros Hget Hmakedirs t.
  induction t as [m items IH] using node_ind_nested.
  intros remote_path local_path. simpl.
  destruct (negb _); [apply keeps_ret|].
  destruct (negb _); [apply keeps_ret|].
  apply keeps_try_except.
  - apply keeps_bind; [apply keeps_emit, Hmakedirs|]. intros _.
    apply keeps_bind; [apply keeps_lift|]. intros _.
    apply keeps_bind.
    { destruct (sftp_listdir_attr_raises w remote_path);
        [apply keeps_raise | apply keeps_ret]. }
    intros _. apply keeps_bind; [|intros _; apply keeps_ret].
    induction IH as [|[item child] rest Hchild _ IHrest]; [apply keeps_ret|].
    apply keeps_bind; [|intros _; exact IHrest].
    destruct (mode_of _) as [mode|]; [|apply keeps_raise].
    destruct (is_directory mode);
      [apply Hchild | apply keeps_download_file, Hget].
  - intros e. apply keeps_bind; [|intros _; apply keeps_ret].
    apply keeps_print, ok_observer. reflexivity.
Qed.

Lemma keeps_transfer_one (direction source destination : string) :
  (direction = "upload" ->
   (forall l r b, ok_event (EvPut l r b)) /\ (forall r, ok_event (EvMkdir r))) ->
  (direction <> "upload" ->
   forall b, ok_event (EvGet source destination b)) ->
  keeps R (transfer_one w direction source destination).
Proof.
  intros Hup Hdown. unfold transfer_one.
  destruct (String.eqb_spec direction "upload") as [Heq|Hne].
  - destruct (Hup Heq) as [Hput Hmkdir].
    destruct (os_isdir w source);
      [apply keeps_upload_directory | apply keeps_upload_file]; auto.
  - apply keeps_download_file, Hdown, Hne.
Qed.

(** *** The batch *)

Hypothesis checkpoint_cancel :
  forall cp, cancel_at w cp = true -> can_cancel.
Hypothesis R_log :
  forall ts a f sz d, keeps R (log_transfer ts a f sz d).

Lemma keeps_job_try (direction : string) (i : nat)
    (source destination : string) :
  keeps R (transfer_one w direction source destination) ->
  keeps R (job_try w direction i source destination).
Proof.
  intros Hone. unfold job_try.
  apply keeps_bind; [exact Hone|]. intros success.
  apply keeps_bind; [apply keeps_arrive, checkpoint_cancel|]. intros _.
  apply keeps_bind; [apply keeps_get|]. intros cancelled.
  destruct (success && negb cancelled); [apply R_log | apply keeps_ret].
Qed.

Hypothesis ok_status : forall m, ok_event (EvStatus m).

Lemma keeps_final_status : keeps R (final_status w).
Proof.
  unfold final_status. apply keeps_bind; [apply keeps_get|].
  intros [cb|]; [|apply keeps_ret].
  apply keeps_bind; [apply keeps_arrive, checkpoint_cancel|]. intros _.
  apply keeps_bind; [apply keeps_get|].
  intros []; apply keeps_invoke, ok_status.
Qed.

Lemma keeps_announce_job (i total_files : nat) (source : string) :
  keeps R (announce_job i total_files source).
Proof.
  unfold announce_job. apply keeps_bind; [apply keeps_get|].
  intros [cb|]; [apply keeps_invoke, ok_status | apply keeps_ret].
Qed.

Lemma keeps_guarded_job (direction : string) (i : nat)
    (source destination : string) :
  keeps R (transfer_one w direction source destination) ->
  keeps R (guarded_job w direction i source destination).
Proof.
  intros Hone. apply keeps_try_except.
  - apply keeps_job_try, Hone.
  - intros e. apply keeps_print, ok_observer. reflexivity.
Qed.

Lemma keeps_update_progress (i total_files : nat) :
  keeps R (update_progress w i total_files).
Proof.
  unfold update_progress.
  apply keeps_bind; [apply keeps_arrive, checkpoint_cancel|]. intros _.
  apply keeps_bind; [apply keeps_get|]. intros cancelled.
  destruct (negb cancelled); [|apply keeps_ret].
  apply keeps_bind; [apply keeps_truediv|]. intros ratio.
  apply keeps_bind; [apply keeps_get|].
  intros [cb|]; [|apply keeps_ret].
  apply keeps_invoke, ok_observer. reflexivity.
Qed.

Lemma keeps_each_job (direction : string) (total_files : nat)
    (file_list : list (string * string)) :
  (forall source destination, (source, destination) ∈ file_list ->
     keeps R (transfer_one w direction source destination)) ->
  forall i, keeps R (each_job w direction total_files i file_list).
Proof.
  induction file_list as [|[source destination] rest IH]; intros Hone i;
    simpl; [apply keeps_ret|].
  apply keeps_bind; [apply keeps_arrive, checkpoint_cancel|]. intros _.
  apply keeps_bind; [apply keeps_get|]. intros [|]; [apply keeps_ret|].
  apply keeps_bind; [apply keeps_announce_job|]. intros _.
  apply keeps_bind; [apply keeps_guarded_job, Hone; left|]. intros _.
  apply keeps_bind; [apply keeps_update_progress|]. intros _.
  apply IH. intros src dst Hin. apply Hone. right. exact Hin.
Qed.

Hypothesis R_flags :
  forall b s,
    R s (set_transfer_in_progress b s) /\ R s (set_transfer_cancelled b s).

Lemma keeps_transfer_thread (file_list : list (string * string))
    (direction : string) :
  (forall source destination, (source, destination) ∈ file_list ->
     keeps R (transfer_one w direction source destination)) ->
  keeps R (transfer_thread w file_list direction).
Proof.
  intros Hone s. unfold transfer_thread, exec, try_finally.
  match goal with
  | |- context [try_except ?body ?handler s] =>
      assert (Hinner : keeps R (try_except body handler))
  end.
  { apply keeps_try_except.
    - apply keeps_bind; [intros s0; apply R_flags|]. intros _.
      apply keeps_bind; [intros s0; apply R_flags|]. intros _.
      apply keeps_bind; [apply keeps_each_job, Hone|]. intros _.
      apply keeps_final_status.
    - intros e. apply keeps_print, ok_observer. reflexivity. }
  specialize (Hinner s). unfold exec in Hinner.
  destruct (try_except _ _ s) as [r s1]. simpl in *.
  etransitivity; [exact Hinner|].
  etransitivity; [apply (R_flags false)|]. apply (R_flags false).
Qed.

End Keeps.

(** ** The log in the store *)

Lemma last100_short {A} (l : list A) : length l <= 100 -> last100 l = l.
Proof.
  intros H. unfold last100. replace (length l - 100) with 0 by lia.
  reflexivity.
Qed.

Lemma last100_length {A} (l : list A) :
  length (last100 l) = Nat.min (length l) 100.
Proof. unfold last100. rewrite length_drop. lia. Qed.

Lemma last100_app {A} (a b : list A) :
  last100 (last100 a ++ b) = last100 (a ++ b).
Proof.
  destruct (decide (length a <= 100)) as [Hle|Hgt].
  - rewrite (last100_short a Hle). reflexivity.
  - unfold last100 at 1 3. rewrite !length_app, last100_length.
    unfold last100.
    replace (length a `min` 100 + length b - 100) with (length b) by lia.
    replace (length a + length b - 100)
      with ((length a - 100) + length b) by lia.
    rewrite <- drop_drop. f_equal.
    rewrite drop_app_le by lia. reflexivity.
Qed.

Lemma omap_total_length {A B} (f : A -> option B) (l : list A) :
  Forall (fun x => is_Some (f x)) l -> length (omap f l) = length l.
Proof.
  induction 1 as [|x l [y Hy] _ IH]; simpl; [reflexivity|].
  rewrite Hy. simpl. f_equal. exact IH.
Qed.

Lemma omap_total_drop {A B} (f : A -> option B) (l : list A) (k : nat) :
  Forall (fun x => is_Some (f x)) l -> omap f (drop k l) = drop k (omap f l).
Proof.
  intros H. revert k. induction H as [|x l [y Hy] _ IH]; intros k.
  - destruct k; reflexivity.
  - destruct k as [|k]; [reflexivity|]. simpl. rewrite Hy. simpl. apply IH.
Qed.

Lemma omap_ext_Forall {A B} (f g : A -> option B) (l : list A) :
  Forall (fun x => f x = g x) l -> omap f l = omap g l.
Proof.
  induction 1 as [|x l Hx _ IH]; csimpl; [reflexivity|].
  rewrite Hx, IH. reflexivity.
Qed.

(** A dict allocated by [log_transfer] is new: the dicts already referenced
    keep their contents. *)
Lemma log_allocated_fresh (s : engine) (e : log_entry) :
  log_allocated s ->
  Forall (fun d => (<[fresh (dom (dicts s)) := e]> (dicts s)) !! d = dicts s !! d)
    (log_list s).
Proof.
  intros Hall. eapply Forall_impl; [exact Hall|]. intros d Hd. simpl in *.
  apply lookup_insert_ne. intros Heq. subst d.
  apply (is_fresh (dom (dicts s))). apply elem_of_dom. exact Hd.
Qed.

Lemma log_list_set_store (tl : loc) (ls : gmap loc (list loc))
    (ds : gmap loc log_entry) (s : engine) (x : list loc) :
  log_list (set_store tl (<[tl := x]> ls) ds s) = x.
Proof. unfold log_list. simpl. rewrite lookup_insert_eq. reflexivity. Qed.

(** The effect of [log_transfer] on the entries of the log. *)
Lemma log_transfer_entries (ts a f : string) (sz : option Z) (d : option Q)
    (s : engine) :
  log_allocated s ->
  log_entries (exec (log_transfer ts a f sz d) s)
  = last100 (log_entries s ++ [LogEntry ts a f sz d])
  /\ log_allocated (exec (log_transfer ts a f sz d) s).
Proof.
  intros Hall. pose proof (log_allocated_fresh s (LogEntry ts a f sz d) Hall) as Hsame.
  set (e := LogEntry ts a f sz d) in *.
  set (l := fresh (dom (dicts s))) in *.
  set (ds := <[l := e]> (dicts s)) in *.
  assert (Hnew : Forall (fun x => is_Some (ds !! x)) (log_list s ++ [l])).
  { apply Forall_app. split.
    - unfold log_allocated in Hall. rewrite Forall_forall in Hall, Hsame |- *.
      intros x Hx. rewrite (Hsame x Hx). apply Hall, Hx.
    - constructor; [|constructor]. unfold ds. rewrite lookup_insert_eq. eauto. }
  assert (Hent : omap (fun x => ds !! x) (log_list s ++ [l]) = log_entries s ++ [e]).
  { rewrite omap_app. simpl. unfold ds at 2. rewrite lookup_insert_eq. simpl.
    f_equal. apply omap_ext_Forall. exact Hsame. }
  assert (Hlen : length (log_entries s ++ [e]) = length (log_list s ++ [l])).
  { rewrite <- Hent. apply omap_total_length. exact Hnew. }
  unfold exec, log_transfer, modify. simpl. fold e l ds.
  destruct (100 <? length (log_list s ++ [l]))%nat eqn:Hbig.
  - unfold log_entries at 1, log_allocated. simpl.
    rewrite log_list_set_store. split.
    + unfold last100 at 1. rewrite omap_total_drop by exact Hnew.
      rewrite Hent. unfold last100. rewrite Hlen. reflexivity.
    + unfold last100. apply Forall_drop. exact Hnew.
  - unfold log_entries at 1, log_allocated. simpl.
    rewrite log_list_set_store. split; [|exact Hnew].
    rewrite Hent. symmetry. apply last100_short.
    rewrite Hlen. apply Nat.ltb_ge in Hbig. lia.
Qed.

Lemma log_all_entries (entries : list log_entry) (s : engine) :
  log_allocated s -> length (log_entries s) <= 100 ->
  log_entries (exec (log_all entries) s) = last100 (log_entries s ++ entries).
Proof.
  revert s. induction entries as [|e rest IH]; intros s Hall Hlen.
  - unfold exec. simpl. rewrite app_nil_r. symmetry.
    apply last100_short, Hlen.
  - destruct (log_transfer_entries (e_timestamp e) (e_action e)
                (e_filename e) (e_size e) (e_duration e) s Hall)
      as [Hent Hall'].
    destruct e as [ts a f sz d]. simpl in *.
    change (exec (_ ;; log_all rest) s)
      with (exec (log_all rest) (exec (log_transfer ts a f sz d) s)).
    rewrite IH.
    + rewrite Hent, last100_app, <- app_assoc. reflexivity.
    + exact Hall'.
    + rewrite Hent, last100_length. lia.
Qed.

Lemma log_entries_init : log_entries init = [].
Proof. vm_compute. reflexivity. Qed.

Lemma log_allocated_init : log_allocated init.
Proof.
  unfold log_allocated, log_list. simpl. rewrite lookup_singleton_eq.
  constructor.
Qed.

Lemma log_owned_kept (s : engine) :
  log_owned s ->
  (forall ts a f sz d, log_owned (exec (log_transfer ts a f sz d) s)) /\
  log_owned (exec clear_transfer_log s) /\
  log_owned (exec get_transfer_log s) /\
  (forall r contents, log_owned (Caller.mutate_list r contents s)) /\
  (forall d contents, log_owned (Caller.mutate_dict d contents s)).
Proof.
  intros Hown. unfold log_owned in *. repeat split.
  - intros ts a f sz d. unfold exec, log_transfer, modify. simpl.
    destruct (_ <? _)%nat; simpl; [rewrite lookup_insert_eq; eauto|].
    rewrite lookup_insert_eq. eauto.
  - unfold exec. simpl. rewrite lookup_insert_eq. eauto.
  - unfold exec. simpl. rewrite lookup_insert_ne; [exact Hown|].
    intros Heq. apply (is_fresh (dom (lists s))). rewrite Heq.
    apply elem_of_dom. exact Hown.
  - intros r contents. simpl. rewrite lookup_insert. case_decide; eauto.
  - intros d contents. simpl. exact Hown.
Qed.

(** ** The claims *)

(** C4: a call of [transfer_files] made while a batch is in progress
    ([is_transfer_in_progress] answers true) returns false and leaves the
    whole engine as it was: flags, worker thread, callbacks, log and the
    record of effects. *)
Theorem transfer_files_busy_rejected
    (file_list : list (string * string)) (direction : string) (s : engine) :
  outcome is_transfer_in_progress s = Ok true ->
  transfer_files file_list direction s = (Ok false, s).
Proof.
  unfold outcome, is_transfer_in_progress, get. simpl. intros H.
  injection H as H. unfold transfer_files, bind, get. rewrite H. reflexivity.
Qed.

Lemma transfer_files_busy_rejected_witness :
  transfer_files [("/home/a.txt", "/remote/a.txt")] "upload" Scenario.busy
  = (Ok false, Scenario.busy).
Proof. apply transfer_files_busy_rejected. reflexivity. Defined.

Lemma get_transfer_log_reads (s : engine) :
  exists r,
    outcome get_transfer_log s = Ok r
    /\ Caller.read r (exec get_transfer_log s) = log_entries s.
Proof.
  exists (fresh (dom (lists s))). split; [reflexivity|].
  unfold exec, get_transfer_log, Caller.read. simpl.
  rewrite lookup_insert_eq. reflexivity.
Qed.

(** C5: starting from the empty log, after any sequence of [log_transfer]
    calls, one per successful transfer, [get_transfer_log] returns a list
    that reads as the last 100 of the entries logged, in insertion order,
    so never more than 100; after 101 calls it reads as exactly 100
    entries, namely entries 2 to 101 in order, and the first entry is not
    among them.  The log itself holds the same entries.  So it is after a
    batch of 101 uploads that all succeed, of the files [f0] to [f100]:
    [get_transfer_log] returns the entries of [f1] to [f100], in order. *)
Theorem log_keeps_last_100 (entries : list log_entry) :
  (let s := exec (log_all entries) init in
   exists r,
     outcome get_transfer_log s = Ok r
     /\ let got := Caller.read r (exec get_transfer_log s) in
        got = last100 entries
        /\ length got <= 100
        /\ log_entries s = got
        /\ (length entries = 101 ->
            length got = 100
            /\ got = drop 1 entries
            /\ (NoDup entries ->
                forall first, head entries = Some first -> first ∉ got)))
  /\ (let s := exec (transfer_thread Scenario.two_chunks
                       (Scenario.numbered_jobs 101) "upload")
                 Scenario.observed in
      exists r,
        outcome get_transfer_log s = Ok r
        /\ e_filename <$> Caller.read r (exec get_transfer_log s)
           = (fun i => "f" +:+ pretty i) <$> seq 1 100).
Proof.
  split.
  2:{ intros s. eexists. split; [reflexivity|]. vm_compute. reflexivity. }
  intros s.
  assert (Hs : log_entries s = last100 entries).
  { unfold s. rewrite log_all_entries.
    - reflexivity.
    - apply log_allocated_init.
    - rewrite log_entries_init. simpl. lia. }
  destruct (get_transfer_log_reads s) as (r & Hr & Hread).
  exists r. split; [exact Hr|]. cbv zeta. rewrite Hread, Hs.
  split; [reflexivity|]. split; [rewrite last100_length; lia|].
  split; [reflexivity|].
  intros Hlen. unfold last100. rewrite Hlen. simpl.
  split; [rewrite length_drop; lia|]. split; [reflexivity|].
  intros Hnd first Hfirst. destruct entries as [|e rest]; [discriminate|].
  simpl in Hfirst. injection Hfirst as ->. simpl.
  apply NoDup_cons in Hnd. apply Hnd.
Qed.

Lemma log_keeps_last_100_witness :
  exists r,
    outcome get_transfer_log (exec (log_all Scenario.entries101) init) = Ok r
    /\ length (Caller.read r
                 (exec get_transfer_log
                    (exec (log_all Scenario.entries101) init))) = 100
    /\ Scenario.numbered 0
       ∉ Caller.read r
           (exec get_transfer_log (exec (log_all Scenario.entries101) init)).
Proof.
  destruct (log_keeps_last_100 Scenario.entries101)
    as ((r & Hr & _ & _ & _ & H) & _).
  exists r. split; [exact Hr|].
  destruct (H eq_refl) as (Hlen & _ & Hgone).
  split; [exact Hlen|]. apply Hgone; [|reflexivity].
  apply NoDup_fmap_2; [|apply NoDup_seq].
  intros i j Hij. injection Hij as Hij. lia.
Defined.

(** C1: the division of the hook by the file size is not guarded.  For a
    file of 0 bytes, with a progress callback installed, a call of the hook
    raises a division by zero: the upload, and likewise the download,
    reports failure and emits no progress event.  When the hook is never
    called the transfer succeeds, again with no progress event: no event
    with the value 100 is produced in either case. *)
Theorem zero_size_transfer_unguarded :
  upload_file Scenario.empty_file "/home/e.txt" "/remote/e.txt"
    Scenario.observed
  = (Ok false,
     exec (emit (EvPut "/home/e.txt" "/remote/e.txt" true) ;;
           print "Upload error / Yükleme hatası: division by zero")
       Scenario.observed)
  /\ download_file Scenario.empty_file "/remote/e.txt" "/home/e.txt"
       Scenario.observed
     = (Ok false,
        exec (emit (EvGet "/remote/e.txt" "/home/e.txt" true) ;;
              print "Download error / İndirme hatası: division by zero")
          Scenario.observed)
  /\ upload_file Scenario.empty_file_no_hook "/home/e.txt" "/remote/e.txt"
       Scenario.observed
     = (Ok true,
        exec (emit (EvPut "/home/e.txt" "/remote/e.txt" true))
          Scenario.observed).
Proof. repeat split; vm_compute; reflexivity. Qed.

(** C2: in the download direction a job is never handed to
    [download_directory]: the loop calls [download_file] on the source
    whatever it is.  For the remote directory [/remote/d] the batch issues
    one [get] of the directory itself, which fails, and makes no local
    directory; [download_directory] called on the same source would make
    [d] and [d/sub] and fetch [f.bin]. *)
Theorem download_job_not_delegated :
  (forall w source destination,
     transfer_one w "download" source destination
     = download_file w source destination)
  /\ trace (exec (transfer_thread Scenario.remote_dir [("/remote/d", "d")]
                    "download") Scenario.observed)
     = [EvStatus "Transferring (1/1): d";
        EvGet "/remote/d" "d" true;
        EvPrint "Download error / İndirme hatası: Failure";
        EvProgress 100;
        EvStatus "Transfer completed"]
  /\ log_entries (exec (transfer_thread Scenario.remote_dir
                          [("/remote/d", "d")] "download") Scenario.observed)
     = []
  /\ trace (exec (download_directory Scenario.remote_dir Scenario.remote_d
                    "/remote/d" "d") Scenario.observed)
     = [EvMakedirs "d";
        EvGet "/remote/d/f.bin" "d/f.bin" true;
        EvProgress 100; EvSpeed "100.0 B/s"; EvEta "ETA: 0s";
        EvMakedirs "d/sub"].
Proof.
  split; [reflexivity|]. repeat split; vm_compute; reflexivity.
Qed.

(** C8, as the claim states it, fails: at a chunk with an elapsed time of 0
    seconds, with all four observers installed, the hook invokes the
    progress callback only; the speed callback is not invoked at all. *)
Lemma zero_elapsed_no_speed_report :
  trace (exec (callback Scenario.two_chunks 2048 (Chunk false 1024 0))
           Scenario.observed)
  = [EvProgress 50]
  /\ ~ (exists text,
          EvSpeed text ∈
            trace (exec (callback Scenario.two_chunks 2048
                           (Chunk false 1024 0)) Scenario.observed)).
Proof.
  assert (H : trace (exec (callback Scenario.two_chunks 2048
                             (Chunk false 1024 0)) Scenario.observed)
              = [EvProgress 50]) by (vm_compute; reflexivity).
  split; [exact H|]. rewrite H. intros [text Hin].
  apply list_elem_of_singleton in Hin. discriminate.
Qed.

(** C8, amended: at a chunk boundary at which the elapsed time is 0 (or not
    positive) the hook invokes neither the speed nor the ETA callback, and
    what it does is this.  With a cancel request set it raises and invokes
    nothing.  Otherwise, with no progress callback installed, it returns
    and invokes nothing; with one installed and a file size of 0 it raises
    a division by zero and invokes nothing; with one installed and any
    other file size it invokes the progress callback, once, with
    [transferred / file_size * 100], and ends as that call ends. *)
Theorem no_speed_without_elapsed_time
    (w : world) (file_size : Z) (c : chunk) (s : engine) :
  (c_elapsed c <= 0)%Q ->
  callback w file_size c s
  = if transfer_cancelled s then
      (Raise "Transfer cancelled / Transfer iptal edildi", s)
    else
      match progress_callback s with
      | None => (Ok tt, s)
      | Some cb =>
          if (file_size =? 0)%Z then (Raise "division by zero", s)
          else
            let percent :=
              Qred (inject_Z (c_bytes c) / inject_Z file_size * 100) in
            (match cb percent with
             | None => Ok tt
             | Some msg => Raise msg
             end,
             exec (emit (EvProgress percent)) s)
      end.
Proof.
  intros Hle.
  assert (Hlt : Py.Qltb 0 (c_elapsed c) = false).
  { unfold Py.Qltb. apply negb_false_iff, Qle_bool_iff, Hle. }
  destruct s as [ip cancelled th pcb scb spcb ecb tl ls ds tr].
  unfold callback, exec, bind, get. simpl.
  destruct cancelled; [reflexivity|].
  rewrite Hlt.
  destruct pcb as [cb|]; [|reflexivity].
  unfold truediv. destruct (file_size =? 0)%Z; [reflexivity|].
  unfold ret, invoke, bind, emit, modify, raise. simpl.
  destruct (cb _); reflexivity.
Qed.

Lemma no_speed_without_elapsed_time_witness :
  callback Scenario.two_chunks 2048 (Chunk false 1024 0) Scenario.observed
  = (Ok tt, exec (emit (EvProgress 50)) Scenario.observed).
Proof.
  refine (eq_trans
            (no_speed_without_elapsed_time Scenario.two_chunks 2048
               (Chunk false 1024 0) Scenario.observed _) _).
  - unfold Qle. simpl. lia.
  - reflexivity.
Defined.

(** C9, as the claim states it, fails: the list returned by
    [get_transfer_log] holds the same dict objects as the log.  After one
    logged transfer the caller changes the filename inside the entry it was
    handed; a later [get_transfer_log] shows the changed entry. *)
Lemma returned_entries_are_shared :
  exists r d r2,
    outcome get_transfer_log Scenario.logged_once = Ok r
    /\ lists (exec get_transfer_log Scenario.logged_once) !! r = Some [d]
    /\ let changed :=
         Caller.mutate_dict d Scenario.defaced
           (exec get_transfer_log Scenario.logged_once) in
       outcome get_transfer_log changed = Ok r2
       /\ Caller.read r2 (exec get_transfer_log changed) = [Scenario.defaced]
       /\ Caller.read r2 (exec get_transfer_log changed)
          <> log_entries Scenario.logged_once.
Proof.
  exists 1, 0, 2. repeat split; try (vm_compute; reflexivity).
  vm_compute. discriminate.
Qed.

(** C9, amended: [get_transfer_log] returns a new list object, distinct
    from the log's own list, that reads as the current entries; whatever
    the caller then stores in that list (adding, removing, reordering or
    replacing elements), the log of the engine is unchanged, as a later
    [get_transfer_log] observes.  The entries themselves are shared, not
    copied. *)
Theorem returned_list_is_a_copy (s : engine) (contents : list loc) :
  log_owned s ->
  exists r,
    outcome get_transfer_log s = Ok r
    /\ r <> transfer_log s
    /\ Caller.read r (exec get_transfer_log s) = log_entries s
    /\ lists (exec get_transfer_log s) !! r = Some (log_list s)
    /\ let mutated := Caller.mutate_list r contents (exec get_transfer_log s) in
       log_list mutated = log_list s
       /\ log_entries mutated = log_entries s
       /\ exists r2,
            outcome get_transfer_log mutated = Ok r2
            /\ Caller.read r2 (exec get_transfer_log mutated) = log_entries s.
Proof.
  intros Hown. exists (fresh (dom (lists s))).
  assert (Hne : fresh (dom (lists s)) <> transfer_log s).
  { intros Heq. apply (is_fresh (dom (lists s))). rewrite Heq.
    apply elem_of_dom. exact Hown. }
  set (r := fresh (dom (lists s))) in *.
  assert (Hlist : forall x,
             log_list (Caller.mutate_list r x
                         (set_store (transfer_log s)
                            (<[r := log_list s]> (lists s)) (dicts s) s))
             = log_list s).
  { intros x. unfold log_list, Caller.mutate_list. simpl.
    rewrite !lookup_insert_ne by exact Hne. reflexivity. }
  split; [reflexivity|]. split; [exact Hne|].
  unfold exec, get_transfer_log, Caller.read. simpl. fold r.
  rewrite lookup_insert_eq. simpl.
  split; [reflexivity|]. split; [reflexivity|].
  split; [apply Hlist|].
  split; [unfold log_entries at 1; rewrite Hlist; reflexivity|].
  eexists. split; [reflexivity|]. rewrite lookup_insert_eq. simpl.
  rewrite Hlist. reflexivity.
Qed.

Lemma returned_list_is_a_copy_witness :
  exists r,
    outcome get_transfer_log Scenario.logged_once = Ok r
    /\ r <> transfer_log Scenario.logged_once
    /\ Caller.read r (exec get_transfer_log Scenario.logged_once)
       = log_entries Scenario.logged_once
    /\ lists (exec get_transfer_log Scenario.logged_once) !! r
       = Some (log_list Scenario.logged_once)
    /\ let mutated :=
         Caller.mutate_list r [] (exec get_transfer_log Scenario.logged_once) in
       log_list mutated = log_list Scenario.logged_once
       /\ log_entries mutated = log_entries Scenario.logged_once
       /\ exists r2,
            outcome get_transfer_log mutated = Ok r2
            /\ Caller.read r2 (exec get_transfer_log mutated)
               = log_entries Scenario.logged_once.
Proof.
  apply returned_list_is_a_copy. vm_compute. eexists. reflexivity.
Defined.

(** ** The relations are kept by the transfers *)

#[local] Instance same_store_preorder : PreOrder same_store.
Proof.
  split; [intros s; reflexivity|].
  intros s1 s2 s3 H12 H23. unfold same_store in *. congruence.
Qed.

#[local] Instance sticky_cancel_preorder : PreOrder sticky_cancel.
Proof.
  split; [intros s H; exact H|].
  intros s1 s2 s3 H12 H23 H. apply H23, H12, H.
Qed.

#[local] Instance extends_preorder (P : event -> Prop) : PreOrder (extends P).
Proof.
  split.
  - intros s. exists []. rewrite app_nil_r. split; [reflexivity|constructor].
  - intros s1 s2 s3 (e12 & H12 & P12) (e23 & H23 & P23).
    exists (e12 ++ e23). rewrite H23, H12, app_assoc.
    split; [reflexivity|]. apply Forall_app. split; assumption.
Qed.

#[local] Instance undisturbed_preorder (w : world) : PreOrder (undisturbed w).
Proof.
  split.
  - intros s. repeat split. auto.
  - intros s1 s2 s3 (C12 & S12 & F12) (C23 & S23 & F23).
    split; [congruence|]. split; [congruence|]. auto.
Qed.

Lemma statuses_app (a b : list event) :
  statuses (a ++ b) = statuses a ++ statuses b.
Proof. unfold statuses. apply omap_app. Qed.

Lemma not_calm_put (w : world) (l r : string) (c : chunk) :
  c ∈ chunks (sftp_put w l r) -> c_cancel c = true -> ~ calm w.
Proof.
  intros Hin Hc (_ & Hput & _). rewrite (Hput l r c Hin) in Hc. discriminate.
Qed.

Lemma not_calm_get (w : world) (r l : string) (c : chunk) :
  c ∈ chunks (sftp_get w r l) -> c_cancel c = true -> ~ calm w.
Proof.
  intros Hin Hc (_ & _ & Hget). rewrite (Hget r l c Hin) in Hc. discriminate.
Qed.

Lemma not_calm_checkpoint (w : world) (cp : checkpoint) :
  cancel_at w cp = true -> ~ calm w.
Proof. intros Hc (Hcp & _). rewrite Hcp in Hc. discriminate. Qed.

Lemma observer_event_not_status (e : event) :
  is_observer_event e = true -> is_status e = false.
Proof. destruct e; simpl; congruence. Qed.

Lemma undisturbed_emit (w : world) (e : event) (s : engine) :
  is_status e = false -> undisturbed w s (exec (emit e) s).
Proof.
  intros He. unfold undisturbed, exec. simpl.
  split; [reflexivity|]. split; [|auto].
  rewrite statuses_app. destruct e; try discriminate; apply app_nil_r.
Qed.

Lemma undisturbed_cancel (w : world) :
  ~ calm w -> forall s, undisturbed w s (set_transfer_cancelled true s).
Proof.
  intros Hnot s. split; [reflexivity|]. split; [reflexivity|].
  intros Hcalm. contradiction.
Qed.

Lemma undisturbed_log (w : world) ts a f sz d :
  keeps (undisturbed w) (log_transfer ts a f sz d).
Proof.
  intros s. unfold exec, log_transfer, modify. simpl.
  destruct (_ <? _)%nat; repeat split; auto.
Qed.

(** No transfer touches the log. *)
Lemma transfer_one_same_store (w : world)
    (direction source destination : string) :
  keeps same_store (transfer_one w direction source destination).
Proof.
  apply (keeps_transfer_one same_store (fun _ => True) True); auto.
  - intros e s _. reflexivity.
  - intros _ s. reflexivity.
Qed.

(** A job, with its [except] clause, sends no status, keeps the observers
    and, in a calm world, sets no cancel request. *)
Lemma job_undisturbed (w : world) (direction : string) (i : nat)
    (source destination : string) :
  keeps (undisturbed w) (guarded_job w direction i source destination).
Proof.
  apply keeps_try_except; [apply _| |].
  - apply (keeps_job_try (undisturbed w) (~ calm w)).
    + apply undisturbed_cancel.
    + apply not_calm_checkpoint.
    + apply undisturbed_log.
    + apply (keeps_transfer_one (undisturbed w)
               (fun e => is_status e = false) (~ calm w)).
      * intros e s. apply undisturbed_emit.
      * apply undisturbed_cancel.
      * apply observer_event_not_status.
      * apply not_calm_put.
      * apply not_calm_get.
      * intros _. split; reflexivity.
      * intros _ b. reflexivity.
  - intros e s. apply undisturbed_emit. reflexivity.
Qed.

Lemma same_store_log (s s' : engine) :
  same_store s s' ->
  log_entries s' = log_entries s /\ (log_allocated s -> log_allocated s').
Proof.
  unfold same_store, store, log_entries, log_allocated, log_list.
  intros H. injection H as Htl Hls Hds. rewrite Htl, Hls, Hds. auto.
Qed.

Lemma extends_same_trace (P : event -> Prop) (s s' : engine) :
  trace s' = trace s -> extends P s s'.
Proof.
  intros H. exists []. rewrite app_nil_r. split; [exact H|constructor].
Qed.

(** C3, as the claim states it, fails: an upload batch whose one job is
    the directory [/home/d], holding two files, transfers both files and
    leaves exactly one log entry, whose filename is the name of the
    directory; neither file has an entry. *)
Lemma directory_job_logged_under_its_name :
  let s' := exec (transfer_thread Scenario.local_dir
                    [("/home/d", "/remote/d")] "upload") Scenario.observed in
  log_entries s'
  = [LogEntry "2024-01-01 12:00:00" "upload" "d" (Some 4096%Z) (Some 1%Q)]
  /\ (exists e, e ∈ log_entries s' /\ e_filename e = Py.basename "/home/d")
  /\ filter (fun e => bool_decide (is_observer_event e = false)) (trace s')
     = [EvStatus "Transferring (1/1): d";
        EvMkdir "/remote/d";
        EvPut "/home/d/a.txt" "/remote/d/a.txt" true;
        EvPut "/home/d/b.txt" "/remote/d/b.txt" true;
        EvStatus "Transfer completed"].
Proof.
  intros s'.
  assert (H : log_entries s'
              = [LogEntry "2024-01-01 12:00:00" "upload" "d" (Some 4096%Z)
                   (Some 1%Q)]) by (vm_compute; reflexivity).
  split; [exact H|]. split.
  - rewrite H. eexists. split; [apply list_elem_of_singleton; reflexivity|].
    reflexivity.
  - vm_compute. reflexivity.
Qed.

(** ** The statuses of a batch *)

Lemma bind_ok {A B} (m : M A) (k : A -> M B) (s s' : engine) (a : A) :
  m s = (Ok a, s') -> bind m k s = k a s'.
Proof. intros H. unfold bind. rewrite H. reflexivity. Qed.

Lemma bind_get {A B} (f : engine -> A) (k : A -> M B) (s : engine) :
  bind (get f) k s = k (f s) s.
Proof. reflexivity. Qed.

Lemma arrive_eq (b : bool) (s : engine) :
  arrive b s = (Ok tt, if b then set_transfer_cancelled true s else s).
Proof. destruct b; reflexivity. Qed.

Lemma invoke_returns {A} (ev : A -> event) (cb : observer A) (a : A)
    (s : engine) :
  cb a = None -> invoke ev cb a s = (Ok tt, exec (emit (ev a)) s).
Proof. intros H. unfold invoke, bind, exec. simpl. rewrite H. reflexivity. Qed.

Lemma callbacks_same (s s' : engine) :
  callbacks s' = callbacks s ->
  status_callback s' = status_callback s
  /\ progress_callback s' = progress_callback s
  /\ (observers_return s -> observers_return s').
Proof.
  unfold callbacks, observers_return. intros H.
  injection H as Hp Hs _ _. rewrite Hp, Hs. auto.
Qed.

Lemma announce_job_returns (i total_files : nat) (source : string)
    (s : engine) :
  is_Some (status_callback s) -> observers_return s ->
  announce_job i total_files source s
  = (Ok tt, exec (emit (EvStatus (job_status i total_files source))) s).
Proof.
  intros [cb Hcb] [Hret _]. unfold announce_job. rewrite bind_get, Hcb.
  apply invoke_returns, (Hret cb Hcb).
Qed.

Lemma guarded_job_returns (w : world) (direction : string) (i : nat)
    (source destination : string) (s : engine) :
  guarded_job w direction i source destination s
  = (Ok tt, exec (guarded_job w direction i source destination) s).
Proof.
  unfold exec, guarded_job, try_except.
  destruct (job_try w direction i source destination s) as [[[]|e] s1];
    reflexivity.
Qed.

Lemma update_progress_undisturbed (w : world) (i total_files : nat) :
  keeps (undisturbed w) (update_progress w i total_files).
Proof.
  apply (keeps_update_progress (undisturbed w)
           (fun e => is_status e = false) (~ calm w)).
  - intros e s. apply undisturbed_emit.
  - apply undisturbed_cancel.
  - apply observer_event_not_status.
  - apply not_calm_checkpoint.
Qed.

Lemma returns_eq {A} (m : M A) (s : engine) (a : A) :
  outcome m s = Ok a -> m s = (Ok a, exec m s).
Proof.
  unfold outcome, exec. destruct (m s) as [r s']. simpl. congruence.
Qed.

Lemma bind_modify {B} (f : engine -> engine) (k : unit -> M B) (s : engine) :
  bind (modify f) k s = k tt (f s).
Proof. reflexivity. Qed.

Lemma calm_first_unreadable : calm Scenario.first_unreadable.
Proof.
  split; [reflexivity|]. split.
  - intros l r c Hin. simpl in Hin.
    apply list_elem_of_singleton in Hin. subst c. reflexivity.
  - intros r l c Hin. simpl in Hin. apply elem_of_nil in Hin. contradiction.
Qed.

Lemma observed_returns :
  is_Some (status_callback Scenario.observed)
  /\ observers_return Scenario.observed.
Proof.
  split; [eexists; reflexivity|].
  split; intros cb Hcb x; injection Hcb as <-; reflexivity.
Qed.

(** C6, as the claim states it, fails: in an upload batch of two files the
    first of which cannot be read, the transfer of the first job fails, its
    error is printed, and the status callback receives the two per-job
    statuses and the final one only: no error status is sent.  The second
    job is transferred and logged. *)
Lemma failed_job_sends_no_error_status :
  let batch := [("/home/a.txt", "/remote/a.txt");
                ("/home/b.txt", "/remote/b.txt")] in
  let s' := exec (transfer_thread Scenario.first_unreadable batch "upload")
              Scenario.observed in
  outcome (upload_file Scenario.first_unreadable "/home/a.txt" "/remote/a.txt")
    Scenario.observed = Ok false
  /\ statuses (trace s')
     = ["Transferring (1/2): a.txt"; "Transferring (2/2): b.txt";
        "Transfer completed"]
  /\ trace s'
     = [EvStatus "Transferring (1/2): a.txt";
        EvPrint "Upload error / Yükleme hatası: Permission denied";
        EvProgress 50;
        EvStatus "Transferring (2/2): b.txt";
        EvPut "/home/b.txt" "/remote/b.txt" true;
        EvProgress 100; EvSpeed "10.0 B/s"; EvEta "ETA: 0s";
        EvProgress 100;
        EvStatus "Transfer completed"]
  /\ e_filename <$> log_entries s' = ["b.txt"].
Proof. intros batch s'. repeat split; vm_compute; reflexivity. Qed.

Lemma invoke_trace {A} (ev : A -> event) (cb : observer A) (a : A)
    (s : engine) :
  trace (exec (invoke ev cb a) s) = trace s ++ [ev a].
Proof. unfold exec, invoke, bind. simpl. destruct (cb a); reflexivity. Qed.


(** A run: a cancel request arrives before the second chunk of the first
    of two files.  The hook raises, the second job is never started, the
    final status is "Transfer cancelled", nothing is logged and the flags
    are reset. *)
Lemma cancel_mid_file_run :
  let s' := exec (transfer_thread Scenario.cancelled_mid_file
                    Scenario.two_jobs "upload") Scenario.observed in
  trace s'
  = [EvStatus "Transferring (1/2): a.txt";
     EvPut "/home/a.txt" "/remote/a.txt" true;
     EvProgress 50; EvSpeed "1.0 KB/s"; EvEta "ETA: 1s";
     EvPrint "Upload error / Yükleme hatası: Transfer cancelled / Transfer iptal edildi";
     EvStatus "Transfer cancelled"]
  /\ log_entries s' = []
  /\ transfer_in_progress s' = false
  /\ transfer_cancelled s' = false.
Proof. intros s'. repeat split; vm_compute; reflexivity. Qed.

(** * Further properties of the engine *)

(** ** The transfers return *)

Lemma returns_guarded {A} (body : M A) (text : string -> string) (a : A) :
  returns (try_except body (fun e => print (text e) ;; ret a)).
Proof.
  intros s. unfold outcome, try_except.
  destruct (body s) as [[b|e] s1]; eexists; reflexivity.
Qed.

Lemma returns_if {A} (b : bool) (m1 m2 : M A) :
  returns m1 -> returns m2 -> returns (if b then m1 else m2).
Proof. destruct b; auto. Qed.

Lemma returns_ret {A} (a : A) : returns (ret a).
Proof. intros s. eexists. reflexivity. Qed.

Lemma upload_file_returns (w : world) (local_path remote_path : string) :
  returns (upload_file w local_path remote_path).
Proof.
  unfold upload_file. repeat apply returns_if; try apply returns_ret.
  apply (returns_guarded _ (fun e => "Upload error / Yükleme hatası: " +:+ e)).
Qed.

Lemma download_file_returns (w : world) (remote_path local_path : string) :
  returns (download_file w remote_path local_path).
Proof.
  unfold download_file. repeat apply returns_if; try apply returns_ret.
  apply (returns_guarded _
           (fun e => "Download error / İndirme hatası: " +:+ e)).
Qed.

Lemma upload_directory_returns (w : world) (t : node)
    (local_path remote_path : string) :
  returns (upload_directory w t local_path remote_path).
Proof.
  destruct t as [m items]. simpl.
  repeat apply returns_if; try apply returns_ret.
  apply (returns_guarded _
           (fun e => "Directory upload error / Klasör yükleme hatası: " +:+ e)).
Qed.

Lemma download_directory_returns (w : world) (t : node)
    (remote_path local_path : string) :
  returns (download_directory w t remote_path local_path).
Proof.
  destruct t as [m items]. simpl.
  repeat apply returns_if; try apply returns_ret.
  apply (returns_guarded _
           (fun e =>
              "Directory download error / Klasör indirme hatası: " +:+ e)).
Qed.

Lemma transfer_one_returns (w : world)
    (direction source destination : string) :
  returns (transfer_one w direction source destination).
Proof.
  unfold transfer_one. destruct (String.eqb _ _).
  - destruct (os_isdir w source);
      [apply upload_directory_returns | apply upload_file_returns].
  - apply download_file_returns.
Qed.

(** ** Relations kept by the loop, given what one job keeps *)

Section Loop.

Variable R : engine -> engine -> Prop.
Context `{!PreOrder R}.
Variable ok_event : event -> Prop.
Variable w : world.
Variable direction : string.

Hypothesis R_emit : forall e s, ok_event e -> R s (exec (emit e) s).
Hypothesis R_cancel : forall s, R s (set_transfer_cancelled true s).
Hypothesis R_flags :
  forall b s,
    R s (set_transfer_in_progress b s) /\ R s (set_transfer_cancelled b s).
Hypothesis ok_observer : forall e, is_observer_event e = true -> ok_event e.
Hypothesis ok_status : forall m, ok_event (EvStatus m).
Hypothesis R_job :
  forall i source destination,
    keeps R (guarded_job w direction i source destination).

Lemma loop_keeps (total_files : nat) (file_list : list (string * string)) :
  forall i, keeps R (each_job w direction total_files i file_list).
Proof.
  induction file_list as [|[source destination] rest IH]; intros i;
    simpl; [apply keeps_ret; apply _|].
  apply keeps_bind; [apply _| |].
  { apply (keeps_arrive R True); auto. }
  intros _. apply keeps_bind; [apply _|apply keeps_get; apply _|].
  intros [|]; [apply keeps_ret; apply _|].
  apply keeps_bind; [apply _| |].
  { apply (keeps_announce_job R ok_event); auto. }
  intros _. apply keeps_bind; [apply _|apply R_job|].
  intros _. apply keeps_bind; [apply _| |].
  { apply (keeps_update_progress R ok_event True); auto. }
  intros _. apply IH.
Qed.

Lemma thread_keeps (file_list : list (string * string)) :
  keeps R (transfer_thread w file_list direction).
Proof.
  intros s. unfold transfer_thread, exec, try_finally.
  match goal with
  | |- context [try_except ?body ?handler s] =>
      assert (Hinner : keeps R (try_except body handler))
  end.
  { apply keeps_try_except; [apply _| |].
    - apply keeps_bind; [apply _|intros s0; apply R_flags|]. intros _.
      apply keeps_bind; [apply _|intros s0; apply R_flags|]. intros _.
      apply keeps_bind; [apply _|apply loop_keeps|]. intros _.
      apply (keeps_final_status R ok_event True); auto.
    - intros e. apply (keeps_print R ok_event); auto. }
  specialize (Hinner s). unfold exec in Hinner.
  destruct (try_except _ _ s) as [r s1]. simpl in *.
  etransitivity; [exact Hinner|].
  etransitivity; [apply (R_flags false)|]. apply (R_flags false).
Qed.

End Loop.

(** ** Without a session *)

#[local] Instance no_write_preorder : PreOrder no_write.
Proof.
  split.
  - intros s. split; reflexivity.
  - intros s1 s2 s3 [S12 E12] [S23 E23]. split; [congruence|].
    etransitivity; eassumption.
Qed.

Lemma no_write_same_store_trace (s s' : engine) :
  store s' = store s -> trace s' = trace s -> no_write s s'.
Proof.
  intros Hs Ht. split; [exact Hs|]. apply extends_same_trace, Ht.
Qed.

Lemma no_write_emit (e : event) (s : engine) :
  is_store_write e = false -> no_write s (exec (emit e) s).
Proof.
  intros He. split; [reflexivity|]. exists [e]. split; [reflexivity|].
  constructor; [exact He|constructor].
Qed.

Lemma no_session_transfer_one (w : world)
    (direction source destination : string) (s : engine) :
  is_connected_to_server w = false ->
  transfer_one w direction source destination s = (Ok false, s).
Proof.
  intros Hno. unfold transfer_one.
  destruct (String.eqb _ _); [destruct (os_isdir w source) as [[m items]|]|];
    simpl; unfold upload_file, download_file; rewrite Hno; reflexivity.
Qed.

Lemma no_session_guarded_job (w : world) (direction : string) (i : nat)
    (source destination : string) (s : engine) :
  is_connected_to_server w = false ->
  guarded_job w direction i source destination s
  = (Ok tt, exec (arrive (cancel_at w (AfterTransfer i))) s).
Proof.
  intros Hno. unfold guarded_job, try_except, job_try.
  rewrite (bind_ok _ _ _ _ _ (no_session_transfer_one w direction source
                                 destination s Hno)).
  unfold bind at 1, exec. rewrite arrive_eq. reflexivity.
Qed.

(** X2: without an active session nothing is transferred.  Each of the four
    transfer methods returns False at once and leaves the engine exactly as
    it was; a whole batch run in that state leaves the log untouched and
    makes no call that writes to either file store (it still sends its
    statuses and per-job progress). *)
Theorem no_session_no_transfer (w : world) (s : engine) :
  is_connected_to_server w = false ->
  (forall local_path remote_path,
     upload_file w local_path remote_path s = (Ok false, s))
  /\ (forall remote_path local_path,
        download_file w remote_path local_path s = (Ok false, s))
  /\ (forall t local_path remote_path,
        upload_directory w t local_path remote_path s = (Ok false, s))
  /\ (forall t remote_path local_path,
        download_directory w t remote_path local_path s = (Ok false, s))
  /\ (forall file_list direction,
        let s' := exec (transfer_thread w file_list direction) s in
        log_entries s' = log_entries s
        /\ exists evs,
             trace s' = trace s ++ evs
             /\ Forall (fun e => is_store_write e = false) evs).
Proof.
  intros Hno.
  split; [intros; unfold upload_file; rewrite Hno; reflexivity|].
  split; [intros; unfold download_file; rewrite Hno; reflexivity|].
  split; [intros [m items] ? ?; simpl; rewrite Hno; reflexivity|].
  split; [intros [m items] ? ?; simpl; rewrite Hno; reflexivity|].
  intros file_list direction s'.
  assert (H : no_write s s').
  { apply (thread_keeps no_write (fun e => is_store_write e = false) w
             direction).
    - intros e s0. apply no_write_emit.
    - intros s0. apply no_write_same_store_trace; reflexivity.
    - intros b s0. split; apply no_write_same_store_trace; reflexivity.
    - intros e He. destruct e; simpl in *; congruence.
    - reflexivity.
    - intros i source destination s0. unfold exec.
      rewrite (no_session_guarded_job _ _ _ _ _ _ Hno). simpl.
      unfold exec. rewrite arrive_eq. simpl.
      destruct (cancel_at _ _); apply no_write_same_store_trace; reflexivity. }
  destruct H as [Hstore Hext]. split; [|exact Hext].
  apply (same_store_log s s' Hstore).
Qed.

Lemma no_session_no_transfer_witness :
  (forall local_path remote_path,
     upload_file More.offline local_path remote_path Scenario.observed
     = (Ok false, Scenario.observed))
  /\ (forall remote_path local_path,
        download_file More.offline remote_path local_path Scenario.observed
        = (Ok false, Scenario.observed))
  /\ (forall t local_path remote_path,
        upload_directory More.offline t local_path remote_path
          Scenario.observed
        = (Ok false, Scenario.observed))
  /\ (forall t remote_path local_path,
        download_directory More.offline t remote_path local_path
          Scenario.observed
        = (Ok false, Scenario.observed))
  /\ (forall file_list direction,
        let s' := exec (transfer_thread More.offline file_list direction)
                    Scenario.observed in
        log_entries s' = log_entries Scenario.observed
        /\ exists evs,
             trace s' = trace Scenario.observed ++ evs
             /\ Forall (fun e => is_store_write e = false) evs).
Proof. apply no_session_no_transfer. reflexivity. Defined.

(** ** The result of a directory walk *)

Lemma returns_bind {A B} (m : M A) (k : A -> M B) :
  returns m -> (forall a, returns (k a)) -> returns (bind m k).
Proof.
  intros Hm Hk s. unfold outcome, bind. destruct (Hm s) as [a Ha].
  unfold outcome in Ha. destruct (m s) as [r s1]. simpl in Ha. subst r.
  apply Hk.
Qed.

Lemma returns_tolerant {A} (body : M A) (a : A) :
  returns (try_except body (fun _ => ret a)).
Proof.
  intros s. unfold outcome, try_except.
  destruct (body s) as [[b|e] s1]; eexists; reflexivity.
Qed.

Lemma guarded_true (body : M unit) (text : string -> string) (s : engine) :
  returns body ->
  outcome (try_except (body ;; ret true)
             (fun e => print (text e) ;; ret false)) s = Ok true.
Proof.
  intros Hbody. unfold outcome, try_except, bind.
  destruct (Hbody s) as [[] Ha]. unfold outcome in Ha.
  destruct (body s) as [r s1]. simpl in Ha. subst r. reflexivity.
Qed.

Lemma yields_ret {A} (a : A) : yields (ret a) a.
Proof. intros s. reflexivity. Qed.

Lemma yields_bind {A B} (m : M A) (k : A -> M B) (b : B) :
  returns m -> (forall a, yields (k a) b) -> yields (bind m k) b.
Proof.
  intros Hm Hk s. unfold outcome, bind. destruct (Hm s) as [a Ha].
  unfold outcome in Ha. destruct (m s) as [r s1]. simpl in Ha. subst r.
  apply Hk.
Qed.

Lemma yields_try {A} (body : M A) (handler : string -> M A) (a : A) :
  yields body a -> yields (try_except body handler) a.
Proof.
  intros Hbody s. unfold outcome, try_except. specialize (Hbody s).
  unfold outcome in Hbody. destruct (body s) as [r s1]. simpl in Hbody.
  subst r. reflexivity.
Qed.

Lemma yields_caught {A B} (m : M A) (k : unit -> M B) (msg : string)
    (text : string -> string) (b : B) :
  returns m ->
  yields (try_except (m ;; (x <- raise msg ;; k x))
            (fun e => print (text e) ;; ret b)) b.
Proof.
  intros Hm s. unfold outcome, try_except, bind. destruct (Hm s) as [a Ha].
  unfold outcome in Ha. destruct (m s) as [r s1]. simpl in Ha. subst r.
  reflexivity.
Qed.

Lemma outcome_bind_ok {A B} (m : M A) (k : A -> M B) (s : engine) :
  (exists a, outcome m s = Ok a) ->
  exists a, outcome (bind m k) s = outcome (k a) (exec m s).
Proof.
  intros [a Ha]. exists a. unfold outcome, exec, bind in *.
  destruct (m s) as [r s1]. simpl in *. subst r. reflexivity.
Qed.

Lemma returns_emit_lift (e : event) (r : result unit) :
  returns (try_except (emit e ;; lift r) (fun _ => ret tt)).
Proof. apply returns_tolerant. Qed.

(** X3: the result of a directory walk says only whether the walk of the
    top directory ran.  With an active session [upload_directory] returns
    True exactly when listing the local directory did not raise: a failure
    to make the remote directory, and every failure below (unreadable
    files, failed transfers, subdirectories that cannot be listed), is not
    reported.  [download_directory] returns True exactly when the local
    directory could be made, the remote one listed, and every entry of that
    listing has a mode: for an entry whose [st_mode] is [None] the test
    [is_directory] raises, which ends the walk; failures of the transfers
    and below the subdirectories are not reported either. *)
Theorem directory_result_ignores_entries
    (w : world) (t : node) (s : engine) :
  is_connected_to_server w = true ->
  (forall local_path remote_path,
     outcome (upload_directory w t local_path remote_path) s
     = Ok (match os_listdir_raises w local_path with
           | None => true
           | Some _ => false
           end))
  /\ (forall remote_path local_path,
        outcome (download_directory w t remote_path local_path) s
        = Ok (match os_makedirs w local_path,
                    sftp_listdir_attr_raises w remote_path with
              | Ok _, None =>
                  forallb (fun entry => bool_decide (is_Some (mode_of entry.2)))
                    (listing_of t)
              | _, _ => false
              end)).
Proof.
  intros Hyes.
  assert (Hclient : get_sftp_client w = true).
  { unfold is_connected_to_server, get_sftp_client in *.
    destruct (is_connected w), (ssh_client w), (sftp_client w);
      simpl in *; congruence. }
  destruct t as [m items]. split.
  - intros local_path remote_path. simpl. rewrite Hyes, Hclient. simpl.
    destruct (os_listdir_raises w local_path) as [msg|] eqn:Hlist.
    + apply (yields_caught _ _ msg
               (fun e => "Directory upload error / Klasör yükleme hatası: "
                         +:+ e)).
      apply returns_tolerant.
    + apply yields_try, yields_bind; [apply returns_tolerant|]. intros _.
      apply yields_bind; [apply returns_ret|]. intros _.
      apply yields_bind; [|intros _; apply yields_ret].
      clear Hlist. induction items as [|[item child] rest IH];
        [apply returns_ret|].
      apply returns_bind; [|intros _; exact IH].
      destruct (isdir _);
        [apply upload_directory_returns | apply upload_file_returns].
  - intros remote_path local_path. simpl. rewrite Hyes, Hclient. simpl.
    destruct (os_makedirs w local_path) as [[]|msg] eqn:Hmk.
    + destruct (sftp_listdir_attr_raises w remote_path) as [msg|] eqn:Hlist.
      * unfold outcome, try_except, bind. simpl. reflexivity.
      * assert (Heach :
          forall s0,
            outcome
              ((fix each (items : list (string * node)) : M unit :=
                  match items with
                  | [] => ret tt
                  | (item, child) :: rest =>
                      match mode_of child with
                      | Some mode =>
                          if is_directory mode
                          then download_directory w child
                                 (Py.unbackslash (Py.join remote_path item))
                                 (Py.join local_path item)
                          else download_file w
                                 (Py.unbackslash (Py.join remote_path item))
                                 (Py.join local_path item)
                      | None =>
                          raise "unsupported operand type(s) for &: 'NoneType' and 'int'"
                      end ;;
                      each rest
                  end) items) s0
            = if forallb
                   (fun entry => bool_decide (is_Some (mode_of entry.2))) items
              then Ok tt
              else Raise
                     "unsupported operand type(s) for &: 'NoneType' and 'int'").
        { clear Hlist. induction items as [|[item child] rest IH]; intros s0;
            [reflexivity|].
          cbn [forallb snd]. destruct (mode_of child) as [mode|] eqn:Hmode.
          - rewrite bool_decide_eq_true_2 by eauto. cbn [andb].
            assert (Hsub : returns
                             (if is_directory mode
                              then download_directory w child
                                     (Py.unbackslash (Py.join remote_path item))
                                     (Py.join local_path item)
                              else download_file w
                                     (Py.unbackslash (Py.join remote_path item))
                                     (Py.join local_path item))).
            { destruct (is_directory mode);
                [apply download_directory_returns
                | apply download_file_returns]. }
            destruct (outcome_bind_ok _
                        (fun _ : bool =>
                           (fix each (items : list (string * node)) : M unit :=
                              match items with
                              | [] => ret tt
                              | (item, child) :: rest =>
                                  match mode_of child with
                                  | Some mode =>
                                      if is_directory mode
                                      then download_directory w child
                                             (Py.unbackslash
                                                (Py.join remote_path item))
                                             (Py.join local_path item)
                                      else download_file w
                                             (Py.unbackslash
                                                (Py.join remote_path item))
                                             (Py.join local_path item)
                                  | None =>
                                      raise "unsupported operand type(s) for &: 'NoneType' and 'int'"
                                  end ;;
                                  each rest
                              end) rest) s0 (Hsub s0)) as [a Ha].
            exact (eq_trans Ha (IH _)).
          - rewrite bool_decide_eq_false_2 by (intros [x Hx]; discriminate).
            cbn [andb]. reflexivity. }
        unfold outcome, try_except. unfold bind at 1. cbn [emit modify].
        unfold bind at 1. cbn [lift]. unfold bind at 1. cbn [ret].
        unfold bind at 1.
        match goal with
        | |- context [?each items ?s1] =>
            specialize (Heach s1); unfold outcome in Heach;
            destruct (each items s1) as [r s2]
        end.
        simpl in Heach. subst r.
        destruct (forallb _ items); reflexivity.
    + unfold outcome, try_except, bind. simpl. reflexivity.
Qed.

(** A directory listed with an entry that has no mode. *)
Lemma directory_result_ignores_entries_witness :
  (forall local_path remote_path,
     outcome (upload_directory More.hostile More.nested local_path
                remote_path) Scenario.observed
     = Ok (match os_listdir_raises More.hostile local_path with
           | None => true
           | Some _ => false
           end))
  /\ (forall remote_path local_path,
        outcome (download_directory More.hostile More.nested remote_path
                   local_path) Scenario.observed
        = Ok (match os_makedirs More.hostile local_path,
                    sftp_listdir_attr_raises More.hostile remote_path with
              | Ok _, None =>
                  forallb (fun entry => bool_decide (is_Some (mode_of entry.2)))
                    (listing_of More.nested)
              | _, _ => false
              end))
  /\ outcome (download_directory Scenario.remote_dir More.modeless
                "/remote/d" "d") Scenario.observed
     = Ok false.
Proof.
  split; [|split].
  - apply directory_result_ignores_entries. reflexivity.
  - apply directory_result_ignores_entries. reflexivity.
  - apply (directory_result_ignores_entries Scenario.remote_dir More.modeless
             Scenario.observed eq_refl).
Defined.

(** ** The retry without the hook *)




(** ** What the hook reports *)

Lemma invoke_exec_trace {A} (ev : A -> event) (cb : observer A) (a : A)
    (s : engine) :
  exists s', invoke ev cb a s = (match cb a with
                                 | None => Ok tt
                                 | Some msg => Raise msg
                                 end, s')
             /\ trace s' = trace s ++ [ev a]
             /\ callbacks s' = callbacks s
             /\ transfer_cancelled s' = transfer_cancelled s.
Proof.
  unfold invoke, bind. simpl. destruct (cb a); eexists; repeat split.
Qed.

(** X5: the percentage of the hook is not clamped.  For a file of positive
    size, with a progress callback installed and no cancel request, the
    first thing the hook does is to hand the callback
    [transferred / file_size * 100]: the value is at most 100 exactly when
    the bytes transferred do not exceed the size resolved before the
    transfer, it is 100 exactly when they equal it, and it is negative
    exactly when they are. *)
Theorem hook_percent_unclamped
    (w : world) (file_size : Z) (c : chunk) (s : engine) (cb : observer Q) :
  (0 < file_size)%Z ->
  transfer_cancelled s = false ->
  progress_callback s = Some cb ->
  exists percent rest,
    trace (exec (callback w file_size c) s)
    = trace s ++ EvProgress percent :: rest
    /\ (percent == inject_Z (c_bytes c) / inject_Z file_size * 100)%Q
    /\ ((percent <= 100)%Q <-> (c_bytes c <= file_size)%Z)
    /\ (percent = 100%Q <-> c_bytes c = file_size)
    /\ ((percent < 0)%Q <-> (c_bytes c < 0)%Z).
Proof.
  intros Hpos Hc Hcb.
  set (percent := Qred (inject_Z (c_bytes c) / inject_Z file_size * 100)).
  assert (Hval : (percent == inject_Z (c_bytes c) / inject_Z file_size * 100)%Q)
    by apply Qred_correct.
  assert (Hexp : (inject_Z (c_bytes c) / inject_Z file_size * 100
                  == (c_bytes c * 100) # Z.to_pos file_size)%Q).
  { destruct file_size as [|p|p]; try lia. unfold Qeq. simpl. lia. }
  exists percent.
  assert (Htrace : exists rest,
             trace (exec (callback w file_size c) s)
             = trace s ++ EvProgress percent :: rest).
  { unfold callback, exec. rewrite bind_get, Hc, bind_get, Hcb.
    unfold truediv. destruct (Z.eqb_spec file_size 0) as [H0|_]; [lia|].
    unfold bind at 2, ret at 1. fold percent.
    destruct (invoke_exec_trace EvProgress cb percent s)
      as (s1 & Hrun & Ht & _ & _).
    unfold bind at 1. rewrite Hrun. destruct (cb percent).
    - exists []. exact Ht.
    - match goal with
      | |- context [(?m s1).2] =>
          assert (Hk : keeps (extends (fun _ => True)) m)
      end.
      { assert (Hemit : forall (e : event) (s0 : engine),
                   True -> extends (fun _ => True) s0 (exec (emit e) s0)).
        { intros e s0 _. exists [e]. split; [reflexivity|].
          constructor; [exact I|constructor]. }
        destruct (Py.Qltb _ _); [|apply keeps_ret; apply _].
        apply keeps_bind; [apply _|apply keeps_get; apply _|].
        intros speed_cb. apply keeps_bind; [apply _| |].
        { destruct speed_cb; [|apply keeps_ret; apply _].
          apply (keeps_invoke _ (fun _ => True)); auto. }
        intros _. apply keeps_bind; [apply _|apply keeps_get; apply _|].
        intros eta_cb. destruct eta_cb; [|apply keeps_ret; apply _].
        apply (keeps_invoke _ (fun _ => True)); auto. }
      pose proof (Hk s1) as Hext. unfold exec in Hext.
      destruct Hext as (rest & Hrest & _). exists rest.
      rewrite Hrest, Ht, <- app_assoc. reflexivity. }
  destruct Htrace as [rest Htrace]. exists rest.
  split; [exact Htrace|]. split; [exact Hval|].
  split; [|split].
  - rewrite Hval, Hexp. unfold Qle. simpl.
    rewrite Z2Pos.id by lia. lia.
  - split.
    + intros H100. assert (Hq : (percent == 100)%Q) by (rewrite H100; reflexivity).
      rewrite Hval, Hexp in Hq. unfold Qeq in Hq. simpl in Hq.
      rewrite Z2Pos.id in Hq by lia. lia.
    + intros Heq. unfold percent. rewrite Heq.
      change 100%Q with (Qred 100). apply Qred_complete.
      rewrite Heq in Hexp. rewrite Hexp. unfold Qeq. simpl.
      rewrite Z2Pos.id by lia. lia.
  - rewrite Hval, Hexp. unfold Qlt. simpl. lia.
Qed.

Lemma hook_percent_unclamped_witness :
  exists percent rest,
    trace (exec (callback Scenario.two_chunks 2048 (Chunk false 4096 1))
             Scenario.observed)
    = trace Scenario.observed ++ EvProgress percent :: rest
    /\ (percent == inject_Z 4096 / inject_Z 2048 * 100)%Q
    /\ ((percent <= 100)%Q <-> (4096 <= 2048)%Z)
    /\ (percent = 100%Q <-> 4096%Z = 2048%Z)
    /\ ((percent < 0)%Q <-> (4096 < 0)%Z).
Proof.
  apply (hook_percent_unclamped Scenario.two_chunks 2048
           (Chunk false 4096 1) Scenario.observed Scenario.quiet).
  - lia.
  - reflexivity.
  - reflexivity.
Defined.



(** ** The text of a duration *)

Lemma Qfloor_eq (x : Q) : Qfloor x = (Qnum x / Zpos (Qden x))%Z.
Proof. destruct x. reflexivity. Qed.

Lemma Qltb_whole (x : Q) (k : Z) :
  Py.Qltb x (inject_Z k) = (Qfloor x <? k)%Z.
Proof.
  unfold Py.Qltb. destruct (Qfloor x <? k)%Z eqn:Hlt.
  - apply negb_true_iff. destruct (Qle_bool (inject_Z k) x) eqn:Hle;
      [|reflexivity].
    apply Qle_bool_iff in Hle. apply Z.ltb_lt in Hlt. exfalso.
    apply Qfloor_resp_le in Hle. rewrite Qfloor_Z in Hle. lia.
  - apply negb_false_iff, Qle_bool_iff. apply Z.ltb_ge in Hlt.
    apply Qle_trans with (inject_Z (Qfloor x)); [|apply Qfloor_le].
    rewrite <- Zle_Qle. exact Hlt.
Qed.

Lemma int_nonneg (x : Q) : (0 <= x)%Q -> Py.int x = Qfloor x.
Proof.
  intros H. unfold Py.int. rewrite Qfloor_eq. apply Z.quot_div_nonneg.
  - unfold Qle in H. simpl in H. lia.
  - reflexivity.
Qed.

Lemma Qfloor_div_pos (x : Q) (p : positive) :
  Qfloor (x / inject_Z (Zpos p)) = (Qfloor x / Zpos p)%Z.
Proof.
  rewrite !Qfloor_eq. destruct x as [a b]. simpl.
  rewrite Z.mul_1_r, Pos2Z.inj_mul. rewrite Z.div_div by lia. reflexivity.
Qed.

Lemma Qfloor_sub_whole (x : Q) (m : Z) :
  Qfloor (x - inject_Z m) = (Qfloor x - m)%Z.
Proof.
  rewrite !Qfloor_eq. destruct x as [a b]. simpl.
  rewrite Pos.mul_1_r, Z.mul_1_r.
  replace (a + - m * Zpos b)%Z with (a + (- m) * Zpos b)%Z by lia.
  rewrite Z.div_add by lia. lia.
Qed.

Lemma floordiv_floor (x : Q) (p : positive) :
  Py.floordiv x (inject_Z (Zpos p)) = inject_Z (Qfloor x / Zpos p).
Proof. unfold Py.floordiv. rewrite Qfloor_div_pos. reflexivity. Qed.

Lemma modulo_floor (x : Q) (p : positive) :
  Qfloor (Py.modulo x (inject_Z (Zpos p))) = (Qfloor x mod Zpos p)%Z.
Proof.
  unfold Py.modulo. rewrite floordiv_floor.
  rewrite (Qfloor_comp _ _ (Qred_correct _)).
  assert (Heq : (x - inject_Z (Zpos p) * inject_Z (Qfloor x / Zpos p)
                 == x - inject_Z (Zpos p * (Qfloor x / Zpos p)))%Q).
  { rewrite inject_Z_mult. reflexivity. }
  rewrite (Qfloor_comp _ _ Heq), Qfloor_sub_whole.
  rewrite Z.mod_eq by lia. reflexivity.
Qed.

Lemma modulo_nonneg (x : Q) (p : positive) :
  (0 <= Py.modulo x (inject_Z (Zpos p)))%Q.
Proof.
  unfold Py.modulo. rewrite Qred_correct, floordiv_floor.
  assert (Hle : (inject_Z (Zpos p) * inject_Z (Qfloor x / Zpos p) <= x)%Q).
  { apply Qle_trans with (inject_Z (Qfloor x)); [|apply Qfloor_le].
    rewrite <- inject_Z_mult, <- Zle_Qle. apply Z.mul_div_le. lia. }
  apply -> Qle_minus_iff in Hle. exact Hle.
Qed.

Lemma int_whole (z : Z) : Py.int (inject_Z z) = z.
Proof. unfold Py.int. simpl. apply Z.quot_1_r. Qed.

(** X7: the text of a duration shows whole seconds, truncated.  For a
    duration that is not negative, with [n] its whole number of seconds:
    below one minute the text is "<n>s"; below one hour it is
    "<n div 60>m <n mod 60>s"; from one hour on it is
    "<n div 3600>h <(n mod 3600) div 60>m", the seconds being dropped. *)
Theorem format_time_whole_seconds (seconds : Q) :
  (0 <= seconds)%Q ->
  let n := Qfloor seconds in
  format_time seconds
  = if (n <? 60)%Z then pretty n +:+ "s"
    else if (n <? 3600)%Z then
      pretty (n / 60)%Z +:+ "m " +:+ pretty (n mod 60)%Z +:+ "s"
    else
      pretty (n / 3600)%Z +:+ "h " +:+ pretty ((n mod 3600) / 60)%Z +:+ "m".
Proof.
  intros Hpos n. unfold format_time, Py.str_int.
  change 60%Q with (inject_Z 60). change 3600%Q with (inject_Z 3600).
  rewrite !Qltb_whole. fold n.
  destruct (n <? 60)%Z; [rewrite int_nonneg by exact Hpos; reflexivity|].
  destruct (n <? 3600)%Z.
  - rewrite floordiv_floor, int_whole.
    rewrite int_nonneg by apply modulo_nonneg.
    rewrite modulo_floor. reflexivity.
  - rewrite !floordiv_floor, !int_whole, modulo_floor. reflexivity.
Qed.

Lemma format_time_whole_seconds_witness :
  let n := Qfloor (7325 # 2) in
  format_time (7325 # 2)
  = if (n <? 60)%Z then pretty n +:+ "s"
    else if (n <? 3600)%Z then
      pretty (n / 60)%Z +:+ "m " +:+ pretty (n mod 60)%Z +:+ "s"
    else
      pretty (n / 3600)%Z +:+ "h " +:+ pretty ((n mod 3600) / 60)%Z +:+ "m".
Proof.
  apply format_time_whole_seconds. unfold Qle. simpl. lia.
Defined.

(** ** The text of a size *)

Lemma Qltb_true (x y : Q) : Py.Qltb x y = true <-> (x < y)%Q.
Proof.
  unfold Py.Qltb. rewrite negb_true_iff. split.
  - intros H. apply Qnot_le_lt. intros Hle. apply Qle_bool_iff in Hle.
    congruence.
  - intros H. destruct (Qle_bool y x) eqn:Hle; [|reflexivity].
    apply Qle_bool_iff in Hle. exfalso. apply (Qlt_not_le _ _ H Hle).
Qed.

Lemma Qltb_false (x y : Q) : Py.Qltb x y = false <-> (y <= x)%Q.
Proof.
  unfold Py.Qltb. rewrite negb_false_iff. apply Qle_bool_iff.
Qed.

Lemma Qeq_bool_false (x y : Q) : ~ (x == y)%Q -> Qeq_bool x y = false.
Proof.
  intros H. destruct (Qeq_bool x y) eqn:Heq; [|reflexivity].
  apply Qeq_bool_iff in Heq. contradiction.
Qed.

Lemma above_not_zero (x k : Q) : (0 < k)%Q -> (k <= x)%Q -> ~ (x == 0)%Q.
Proof.
  intros Hk Hge Heq. apply (Qlt_not_le _ _ Hk).
  apply Qle_trans with x; [exact Hge|]. apply Qle_lteq. right. exact Heq.
Qed.

(** X8: the unit and the number in the text of a size.  A size of zero is
    "0 B"; any other size below 1024, negative ones included, is shown in
    bytes; from 1024 on the size is divided by the largest of 1024, 1024^2
    and 1024^3 that does not exceed it, so that the number handed to the
    one-decimal rendering is at least 1 and, for KB and MB, below 1024. *)
Theorem format_size_ranges (w : world) (size : Q) :
  ((size == 0)%Q -> format_size w size = "0 B")
  /\ (~ (size == 0)%Q -> (size < 1024)%Q ->
      format_size w size = float_str w size +:+ " B")
  /\ ((1024 <= size)%Q -> (size < 1024 ^ 2)%Q ->
      format_size w size = float_1f w (size / 1024) +:+ " KB"
      /\ (1 <= size / 1024)%Q /\ (size / 1024 < 1024)%Q)
  /\ ((1024 ^ 2 <= size)%Q -> (size < 1024 ^ 3)%Q ->
      format_size w size = float_1f w (size / (1024 ^ 2)) +:+ " MB"
      /\ (1 <= size / (1024 ^ 2))%Q /\ (size / (1024 ^ 2) < 1024)%Q)
  /\ ((1024 ^ 3 <= size)%Q ->
      format_size w size = float_1f w (size / (1024 ^ 3)) +:+ " GB"
      /\ (1 <= size / (1024 ^ 3))%Q).
Proof.
  assert (H12 : (1024 < 1024 ^ 2)%Q) by reflexivity.
  assert (H23 : (1024 ^ 2 < 1024 ^ 3)%Q) by reflexivity.
  assert (P1 : (0 < 1024)%Q) by reflexivity.
  assert (P2 : (0 < 1024 ^ 2)%Q) by reflexivity.
  assert (P3 : (0 < 1024 ^ 3)%Q) by reflexivity.
  unfold format_size. split; [|split; [|split; [|split]]].
  - intros H0. apply Qeq_bool_iff in H0. rewrite H0. reflexivity.
  - intros H0 Hlt. rewrite (Qeq_bool_false _ _ H0).
    apply Qltb_true in Hlt. rewrite Hlt. reflexivity.
  - intros Hge Hlt.
    assert (H0 : ~ (size == 0)%Q) by exact (above_not_zero _ _ P1 Hge).
    split; [|split].
    + rewrite (Qeq_bool_false _ _ H0).
      apply Qltb_false in Hge. apply Qltb_true in Hlt. rewrite Hge, Hlt.
      reflexivity.
    + apply Qle_shift_div_l; [exact P1|]. rewrite Qmult_1_l. exact Hge.
    + apply Qlt_shift_div_r; [exact P1|]. exact Hlt.
  - intros Hge2 Hlt.
    assert (Hge : (1024 <= size)%Q)
      by (apply Qle_trans with (1024 ^ 2)%Q; [discriminate|exact Hge2]).
    assert (H0 : ~ (size == 0)%Q) by exact (above_not_zero _ _ P1 Hge).
    split; [|split].
    + rewrite (Qeq_bool_false _ _ H0).
      apply Qltb_false in Hge. apply Qltb_false in Hge2.
      apply Qltb_true in Hlt. rewrite Hge, Hge2, Hlt. reflexivity.
    + apply Qle_shift_div_l; [exact P2|]. rewrite Qmult_1_l. exact Hge2.
    + apply Qlt_shift_div_r; [exact P2|]. exact Hlt.
  - intros Hge3.
    assert (Hge2 : (1024 ^ 2 <= size)%Q)
      by (apply Qle_trans with (1024 ^ 3)%Q; [discriminate|exact Hge3]).
    assert (Hge : (1024 <= size)%Q)
      by (apply Qle_trans with (1024 ^ 2)%Q; [discriminate|exact Hge2]).
    assert (H0 : ~ (size == 0)%Q) by exact (above_not_zero _ _ P1 Hge).
    split.
    + rewrite (Qeq_bool_false _ _ H0).
      apply Qltb_false in Hge. apply Qltb_false in Hge2.
      apply Qltb_false in Hge3. rewrite Hge, Hge2, Hge3. reflexivity.
    + apply Qle_shift_div_l; [exact P3|]. rewrite Qmult_1_l. exact Hge3.
Qed.

Lemma format_size_ranges_witness :
  format_size Scenario.two_chunks 0 = "0 B"
  /\ format_size Scenario.two_chunks (-5)
     = float_str Scenario.two_chunks (-5) +:+ " B"
  /\ (format_size Scenario.two_chunks 1536
      = float_1f Scenario.two_chunks (1536 / 1024) +:+ " KB"
      /\ (1 <= 1536 / 1024)%Q /\ (1536 / 1024 < 1024)%Q)
  /\ (format_size Scenario.two_chunks 1572864
      = float_1f Scenario.two_chunks (1572864 / (1024 ^ 2)) +:+ " MB"
      /\ (1 <= 1572864 / (1024 ^ 2))%Q /\ (1572864 / (1024 ^ 2) < 1024)%Q)
  /\ (format_size Scenario.two_chunks 2147483648
      = float_1f Scenario.two_chunks (2147483648 / (1024 ^ 3)) +:+ " GB"
      /\ (1 <= 2147483648 / (1024 ^ 3))%Q).
Proof.
  split; [|split; [|split; [|split]]].
  - apply format_size_ranges. reflexivity.
  - apply format_size_ranges; [discriminate|reflexivity].
  - apply format_size_ranges; [discriminate|reflexivity].
  - apply format_size_ranges; [discriminate|reflexivity].
  - apply format_size_ranges. discriminate.
Defined.

(** ** Which entries count as directories *)

Lemma land_bit14 (mode : Z) :
  Z.land mode 16384 = if Z.testbit mode 14 then 16384%Z else 0%Z.
Proof.
  apply Z.bits_inj'. intros n Hn. rewrite Z.land_spec.
  change 16384%Z with (2 ^ 14)%Z. rewrite Z.pow2_bits_eqb by lia.
  destruct (Z.eqb_spec 14 n) as [<-|Hne].
  - rewrite andb_true_r. destruct (Z.testbit mode 14).
    + rewrite Z.pow2_bits_true by lia. reflexivity.
    + rewrite Z.bits_0. reflexivity.
  - rewrite andb_false_r. destruct (Z.testbit mode 14).
    + rewrite Z.pow2_bits_false by lia. reflexivity.
    + rewrite Z.bits_0. reflexivity.
Qed.

(** X9: which entries the download walk takes for directories.
    [is_directory] looks at one bit of the mode, the one of value 0o040000:
    it accepts every mode that [stat.S_ISDIR] accepts (the test the upload
    walk uses through [os.path.isdir]), and also modes that are not
    directories, such as that of a block device (0o060644) or of a socket
    (0o140755), into which [download_directory] therefore recurses. *)
Theorem is_directory_one_bit :
  (forall mode, is_directory mode = Z.testbit mode 14)
  /\ (forall mode, S_ISDIR mode = true -> is_directory mode = true)
  /\ (is_directory 24996 = true /\ S_ISDIR 24996 = false)
  /\ (is_directory 49645 = true /\ S_ISDIR 49645 = false).
Proof.
  assert (Hbit : forall mode, is_directory mode = Z.testbit mode 14).
  { intros mode. unfold is_directory. rewrite land_bit14.
    destruct (Z.testbit mode 14); reflexivity. }
  split; [exact Hbit|]. split; [|split; split; reflexivity].
  intros mode H. rewrite Hbit. unfold S_ISDIR in H.
  apply Z.eqb_eq in H.
  assert (Hb : Z.testbit (Z.land mode 61440) 14 = true)
    by (rewrite H; reflexivity).
  rewrite Z.land_spec in Hb. apply andb_true_iff in Hb. apply Hb.
Qed.

Lemma is_directory_one_bit_witness : is_directory 16877 = true.
Proof.
  destruct is_directory_one_bit as (_ & H & _). apply H. reflexivity.
Defined.

(** ** The log stays in order *)

#[local] Instance keeps_log_ok_preorder : PreOrder keeps_log_ok.
Proof.
  split; [intros s H; exact H|].
  intros s1 s2 s3 H12 H23 H. apply H23, H12, H.
Qed.

Lemma log_ok_store (s s' : engine) : store s' = store s -> keeps_log_ok s s'.
Proof.
  intros Hstore (Hown & Hall & Hlen).
  destruct (same_store_log s s' Hstore) as [Hent Hall'].
  unfold store in Hstore. injection Hstore as Htl Hls Hds.
  split; [|split].
  - unfold log_owned in *. rewrite Htl, Hls. exact Hown.
  - apply Hall', Hall.
  - rewrite Hent. exact Hlen.
Qed.

Lemma log_ok_init : log_ok init.
Proof.
  split; [|split].
  - unfold log_owned. simpl. rewrite lookup_singleton_eq. eauto.
  - apply log_allocated_init.
  - rewrite log_entries_init. simpl. lia.
Qed.

Lemma log_ok_log_transfer ts a f sz d :
  keeps keeps_log_ok (log_transfer ts a f sz d).
Proof.
  intros s (Hown & Hall & Hlen).
  destruct (log_transfer_entries ts a f sz d s Hall) as [Hent Hall'].
  split; [|split].
  - apply (log_owned_kept s Hown).
  - exact Hall'.
  - rewrite Hent, last100_length. lia.
Qed.

Lemma log_ok_transfer_thread (w : world) (file_list : list (string * string))
    (direction : string) :
  keeps keeps_log_ok (transfer_thread w file_list direction).
Proof.
  apply (keeps_transfer_thread keeps_log_ok (fun _ => True) True); auto.
  - intros e s _. apply log_ok_store. reflexivity.
  - intros _ s. apply log_ok_store. reflexivity.
  - apply log_ok_log_transfer.
  - intros b s. split; apply log_ok_store; reflexivity.
  - intros source destination _ s. apply log_ok_store.
    apply transfer_one_same_store.
Qed.

(** X10: the log stays bounded and well formed through every method.  The
    log of a new engine is in order (its list and the dicts it refers to
    exist, and it has at most 100 entries), and every public method keeps
    it so: setting the callbacks, cancelling, submitting a batch, running
    the worker thread of any batch in any world, logging, reading the log
    and clearing it. *)
Theorem log_stays_in_order :
  log_ok init
  /\ forall s,
       log_ok s ->
       (forall p st sp et, log_ok (exec (set_progress_callbacks p st sp et) s))
       /\ log_ok (exec cancel_transfer s)
       /\ (forall file_list direction,
             log_ok (exec (transfer_files file_list direction) s))
       /\ (forall w file_list direction,
             log_ok (exec (transfer_thread w file_list direction) s))
       /\ (forall w, log_ok (exec (run_thread w) s))
       /\ (forall ts a f sz d, log_ok (exec (log_transfer ts a f sz d) s))
       /\ log_ok (exec get_transfer_log s)
       /\ log_ok (exec clear_transfer_log s).
Proof.
  split; [apply log_ok_init|]. intros s Hok.
  split; [intros; apply (log_ok_store s); [reflexivity|exact Hok]|].
  split; [apply (log_ok_store s); [reflexivity|exact Hok]|].
  split.
  { intros file_list direction. apply (log_ok_store s); [|exact Hok].
    unfold exec, transfer_files. rewrite bind_get.
    destruct (transfer_in_progress s); reflexivity. }
  split; [intros; apply log_ok_transfer_thread, Hok|].
  split.
  { intros w. unfold exec, run_thread. rewrite bind_get.
    destruct (current_transfer_thread s) as [[file_list direction]|];
      [apply log_ok_transfer_thread, Hok | exact Hok]. }
  split; [intros; apply log_ok_log_transfer, Hok|].
  destruct Hok as (Hown & Hall & Hlen). split.
  - split; [apply (log_owned_kept s Hown)|].
    assert (Hlist : log_list (exec get_transfer_log s) = log_list s).
    { unfold exec, get_transfer_log, log_list. simpl.
      rewrite lookup_insert_ne; [reflexivity|].
      intros Heq. apply (is_fresh (dom (lists s))). rewrite Heq.
      apply elem_of_dom. exact Hown. }
    split.
    + unfold log_allocated. rewrite Hlist. exact Hall.
    + unfold log_entries. rewrite Hlist. exact Hlen.
  - split; [apply (log_owned_kept s Hown)|].
    assert (Hlist : log_list (exec clear_transfer_log s) = []).
    { unfold exec, clear_transfer_log, modify. simpl.
      apply log_list_set_store. }
    split.
    + unfold log_allocated. rewrite Hlist. constructor.
    + unfold log_entries. rewrite Hlist. simpl. lia.
Qed.

Lemma log_stays_in_order_witness :
  log_ok (exec (transfer_thread Scenario.two_chunks Scenario.two_jobs "upload")
            init)
  /\ log_ok (exec clear_transfer_log init).
Proof.
  destruct log_stays_in_order as [Hinit Hkeep].
  destruct (Hkeep init Hinit) as (_ & _ & _ & Hthread & _ & _ & _ & Hclear).
  split; [apply Hthread | exact Hclear].
Defined.

(** ** A returned log is a snapshot *)

#[local] Instance keeps_snapshot_preorder r l entries :
  PreOrder (keeps_snapshot r l entries).
Proof.
  split; [intros s H; exact H|].
  intros s1 s2 s3 H12 H23 H. apply H23, H12, H.
Qed.

Lemma snapshot_store r l entries (s s' : engine) :
  store s' = store s -> keeps_snapshot r l entries s s'.
Proof.
  unfold store, keeps_snapshot, snapshot. intros H.
  injection H as Htl Hls Hds. rewrite Htl, Hls, Hds. auto.
Qed.

Lemma snapshot_read r l entries (s : engine) :
  snapshot r l entries s -> Caller.read r s = entries.
Proof.
  intros (Hr & _ & _ & Hent). unfold Caller.read. rewrite Hr. exact Hent.
Qed.

Lemma snapshot_new_dict r l entries (s : engine) (e : log_entry)
    (tl : loc) (ls : gmap loc (list loc)) :
  snapshot r l entries s ->
  ls !! r = Some l -> r <> tl ->
  snapshot r l entries
    (set_store tl ls (<[fresh (dom (dicts s)) := e]> (dicts s)) s).
Proof.
  intros (Hr & Hne & Hall & Hent) Hls Htl.
  assert (Hsame : Forall (fun d => (<[fresh (dom (dicts s)) := e]> (dicts s))
                                     !! d = dicts s !! d) l).
  { eapply Forall_impl; [exact Hall|]. intros d Hd. simpl in *.
    apply lookup_insert_ne. intros Heq. subst d.
    apply (is_fresh (dom (dicts s))). apply elem_of_dom. exact Hd. }
  split; [exact Hls|]. split; [exact Htl|]. simpl. split.
  - rewrite Forall_forall in Hall, Hsame |- *. intros d Hd.
    rewrite (Hsame d Hd). apply Hall, Hd.
  - rewrite <- Hent. apply omap_ext_Forall. exact Hsame.
Qed.

Lemma snapshot_log_transfer r l entries ts a f sz d :
  keeps (keeps_snapshot r l entries) (log_transfer ts a f sz d).
Proof.
  intros s Hsnap. pose proof Hsnap as (Hr & Hne & _ & _).
  unfold exec, log_transfer, modify. simpl.
  set (ls := <[transfer_log s := log_list s ++ [fresh (dom (dicts s))]]>
               (lists s)).
  assert (Hkept : ls !! r = Some l)
    by (unfold ls; rewrite lookup_insert_ne by congruence; exact Hr).
  destruct (_ <? _)%nat.
  - assert (Hfresh : r <> fresh (dom ls)).
    { intros Heq. apply (is_fresh (dom ls)). rewrite <- Heq.
      apply elem_of_dom. rewrite Hkept. eauto. }
    apply snapshot_new_dict; [exact Hsnap| |exact Hfresh].
    rewrite lookup_insert_ne by congruence. exact Hkept.
  - apply snapshot_new_dict; [exact Hsnap|exact Hkept|exact Hne].
Qed.

Lemma snapshot_transfer_thread r l entries (w : world)
    (file_list : list (string * string)) (direction : string) :
  keeps (keeps_snapshot r l entries) (transfer_thread w file_list direction).
Proof.
  apply (keeps_transfer_thread (keeps_snapshot r l entries)
           (fun _ => True) True); auto.
  - intros e s _. apply snapshot_store. reflexivity.
  - intros _ s. apply snapshot_store. reflexivity.
  - apply snapshot_log_transfer.
  - intros b s. split; apply snapshot_store; reflexivity.
  - intros source destination _ s. apply snapshot_store.
    apply transfer_one_same_store.
Qed.

Lemma snapshot_clear r l entries :
  keeps (keeps_snapshot r l entries) clear_transfer_log.
Proof.
  intros s (Hr & Hne & Hall & Hent).
  unfold exec, clear_transfer_log, modify, snapshot. simpl.
  rewrite lookup_insert_ne by congruence. auto.
Qed.

Lemma snapshot_get r l entries :
  keeps (keeps_snapshot r l entries) get_transfer_log.
Proof.
  intros s (Hr & Hne & Hall & Hent).
  unfold exec, get_transfer_log, snapshot. simpl.
  rewrite lookup_insert_ne; [auto|].
  intros Heq. apply (is_fresh (dom (lists s))). rewrite Heq.
  apply elem_of_dom. rewrite Hr. eauto.
Qed.

(** X11: the list returned by [get_transfer_log] is a snapshot.  Whatever
    the engine does afterwards (log further transfers, run the worker
    thread of any batch, clear the log, hand out another copy), reading the
    list that was returned still gives the entries the log had when it was
    returned. *)
Theorem returned_list_is_snapshot (s : engine) :
  log_ok s ->
  exists r,
    outcome get_transfer_log s = Ok r
    /\ let s1 := exec get_transfer_log s in
       Caller.read r s1 = log_entries s
       /\ (forall ts a f sz d,
             Caller.read r (exec (log_transfer ts a f sz d) s1) = log_entries s)
       /\ (forall entries,
             Caller.read r (exec (log_all entries) s1) = log_entries s)
       /\ (forall w file_list direction,
             Caller.read r (exec (transfer_thread w file_list direction) s1)
             = log_entries s)
       /\ Caller.read r (exec clear_transfer_log s1) = log_entries s
       /\ Caller.read r (exec get_transfer_log s1) = log_entries s.
Proof.
  intros (Hown & Hall & _). exists (fresh (dom (lists s))).
  split; [reflexivity|]. intros s1.
  set (r := fresh (dom (lists s))) in *.
  assert (Hne : r <> transfer_log s).
  { intros Heq. apply (is_fresh (dom (lists s))). fold r. rewrite Heq.
    apply elem_of_dom. exact Hown. }
  assert (Hsnap : snapshot r (log_list s) (log_entries s) s1).
  { unfold s1, exec, get_transfer_log, snapshot. simpl. fold r.
    rewrite lookup_insert_eq. repeat split; auto. }
  split; [apply (snapshot_read _ _ _ _ Hsnap)|].
  split.
  { intros. apply (snapshot_read r (log_list s)).
    apply snapshot_log_transfer, Hsnap. }
  split.
  { intros entries. apply (snapshot_read r (log_list s)).
    revert Hsnap. generalize s1. induction entries as [|e rest IH];
      intros s0 Hsnap; [exact Hsnap|].
    change (exec (log_all (e :: rest)) s0)
      with (exec (log_all rest)
              (exec (log_transfer (e_timestamp e) (e_action e) (e_filename e)
                       (e_size e) (e_duration e)) s0)).
    apply IH, snapshot_log_transfer, Hsnap. }
  split.
  { intros. apply (snapshot_read r (log_list s)).
    apply snapshot_transfer_thread, Hsnap. }
  split.
  - apply (snapshot_read r (log_list s)). apply snapshot_clear, Hsnap.
  - apply (snapshot_read r (log_list s)). apply snapshot_get, Hsnap.
Qed.

Lemma returned_list_is_snapshot_witness :
  exists r,
    outcome get_transfer_log Scenario.logged_once = Ok r
    /\ let s1 := exec get_transfer_log Scenario.logged_once in
       Caller.read r s1 = log_entries Scenario.logged_once
       /\ (forall ts a f sz d,
             Caller.read r (exec (log_transfer ts a f sz d) s1)
             = log_entries Scenario.logged_once)
       /\ (forall entries,
             Caller.read r (exec (log_all entries) s1)
             = log_entries Scenario.logged_once)
       /\ (forall w file_list direction,
             Caller.read r (exec (transfer_thread w file_list direction) s1)
             = log_entries Scenario.logged_once)
       /\ Caller.read r (exec clear_transfer_log s1)
          = log_entries Scenario.logged_once
       /\ Caller.read r (exec get_transfer_log s1)
          = log_entries Scenario.logged_once.
Proof.
  apply returned_list_is_snapshot.
  apply log_ok_log_transfer, log_ok_init.
Defined.

(** ** Clearing the log *)

(** X12: [clear_transfer_log] empties the log in place.  Afterwards the
    log has no entry and is still the same list object, and what is logged
    from then on is kept as in a new engine: the log holds the last 100 of
    the entries logged since the clearing. *)
Theorem clear_starts_afresh (s : engine) (entries : list log_entry) :
  log_entries (exec clear_transfer_log s) = []
  /\ transfer_log (exec clear_transfer_log s) = transfer_log s
  /\ log_entries (exec (log_all entries) (exec clear_transfer_log s))
     = last100 entries.
Proof.
  assert (Hlist : log_list (exec clear_transfer_log s) = []).
  { unfold exec, clear_transfer_log, modify. simpl. apply log_list_set_store. }
  assert (Hent : log_entries (exec clear_transfer_log s) = []).
  { unfold log_entries. rewrite Hlist. reflexivity. }
  split; [exact Hent|]. split; [reflexivity|].
  rewrite log_all_entries.
  - rewrite Hent. reflexivity.
  - unfold log_allocated. rewrite Hlist. constructor.
  - rewrite Hent. simpl. lia.
Qed.

(** ** A cancel request that comes too early *)

Lemma transfer_thread_ignores_flags (w : world)
    (file_list : list (string * string)) (direction : string)
    (b : bool) (s : engine) :
  transfer_thread w file_list direction (set_transfer_cancelled b s)
  = transfer_thread w file_list direction s
  /\ transfer_thread w file_list direction (set_transfer_in_progress b s)
     = transfer_thread w file_list direction s.
Proof.
  unfold transfer_thread, try_finally, try_except.
  rewrite !bind_modify. split; reflexivity.
Qed.

(** X13: a cancel request issued before the worker thread starts is lost.
    On an idle engine, submitting a batch, calling [cancel_transfer] and
    then letting the worker thread run gives exactly the result, the
    effects and the final state of submitting the batch and letting the
    thread run: the thread clears the request when it starts. *)
Theorem early_cancel_is_lost (w : world) (file_list : list (string * string))
    (direction : string) (s : engine) :
  transfer_in_progress s = false ->
  (transfer_files file_list direction ;; cancel_transfer ;; run_thread w) s
  = (transfer_files file_list direction ;; run_thread w) s.
Proof.
  intros Hidle. unfold transfer_files, cancel_transfer, run_thread.
  unfold bind, get, modify, ret. simpl. rewrite Hidle. simpl.
  apply transfer_thread_ignores_flags.
Qed.

Lemma early_cancel_is_lost_witness :
  (transfer_files Scenario.two_jobs "upload" ;; cancel_transfer ;;
   run_thread Scenario.two_chunks) Scenario.observed
  = (transfer_files Scenario.two_jobs "upload" ;;
     run_thread Scenario.two_chunks) Scenario.observed.
Proof. apply early_cancel_is_lost. reflexivity. Defined.

(** ** What a job and a batch add to the log *)

Lemma job_try_log (w : world) (direction : string) (i : nat)
    (source destination : string) (s : engine) :
  log_allocated s ->
  exists ok,
    outcome (transfer_one w direction source destination) s = Ok ok
    /\ let after := exec (transfer_one w direction source destination) s in
       let cancelled :=
         transfer_cancelled after || cancel_at w (AfterTransfer i) in
       log_entries (exec (job_try w direction i source destination) s)
       = if ok && negb cancelled
         then last100 (log_entries s ++ [job_entry w direction i source])
         else log_entries s.
Proof.
  intros Hall.
  destruct (transfer_one_returns w direction source destination s)
    as [ok Hok].
  exists ok. split; [exact Hok|]. intros after cancelled.
  pose proof (transfer_one_same_store w direction source destination s)
    as Hsame. fold after in Hsame.
  destruct (same_store_log s after Hsame) as [Hent Hall1].
  unfold exec, job_try.
  rewrite (bind_ok _ _ _ _ _ (returns_eq _ _ _ Hok)). fold after.
  unfold bind at 1. rewrite arrive_eq, bind_get.
  assert (Hflag : transfer_cancelled
                    (if cancel_at w (AfterTransfer i)
                     then set_transfer_cancelled true after else after)
                  = cancelled).
  { unfold cancelled. destruct (cancel_at w (AfterTransfer i)); simpl.
    - rewrite orb_true_r. reflexivity.
    - rewrite orb_false_r. reflexivity. }
  rewrite Hflag. destruct (ok && negb cancelled).
  - rewrite <- Hent.
    assert (Hstore : same_store after
                       (if cancel_at w (AfterTransfer i)
                        then set_transfer_cancelled true after else after))
      by (destruct (cancel_at _ _); reflexivity).
    destruct (same_store_log _ _ Hstore) as [Hent2 Hall2].
    rewrite <- Hent2.
    apply (log_transfer_entries _ _ _ _ _ _ (Hall2 (Hall1 Hall))).
  - simpl. rewrite <- Hent. destruct (cancel_at _ _); reflexivity.
Qed.

(** X14: a job is logged exactly when its transfer succeeded and no cancel
    request is set once it is over.  The transfer of a job always returns;
    the log gains the entry of the job (direction, base name of the source,
    size looked up again, duration) if the transfer returned True and no
    cancel request is set at that point, and is left as it was otherwise. *)
Theorem job_logged_iff_success (w : world) (direction : string) (i : nat)
    (source destination : string) (s : engine) :
  log_allocated s ->
  exists ok,
    outcome (transfer_one w direction source destination) s = Ok ok
    /\ let after := exec (transfer_one w direction source destination) s in
       let cancelled :=
         transfer_cancelled after || cancel_at w (AfterTransfer i) in
       log_entries (exec (job_try w direction i source destination) s)
       = if ok && negb cancelled
         then last100 (log_entries s ++ [job_entry w direction i source])
         else log_entries s.
Proof. apply job_try_log. Qed.

Lemma job_logged_iff_success_witness :
  exists ok,
    outcome (transfer_one Scenario.two_chunks "upload" "/home/a.txt"
               "/remote/a.txt") init = Ok ok
    /\ let after := exec (transfer_one Scenario.two_chunks "upload"
                            "/home/a.txt" "/remote/a.txt") init in
       let cancelled :=
         transfer_cancelled after
         || cancel_at Scenario.two_chunks (AfterTransfer 0) in
       log_entries (exec (job_try Scenario.two_chunks "upload" 0
                            "/home/a.txt" "/remote/a.txt") init)
       = if ok && negb cancelled
         then last100 (log_entries init
                       ++ [job_entry Scenario.two_chunks "upload" 0
                             "/home/a.txt"])
         else log_entries init.
Proof. apply job_logged_iff_success, log_allocated_init. Defined.

Lemma gained_store (candidates : list log_entry) (s s' : engine) :
  store s' = store s -> gained candidates s s'.
Proof.
  intros Hstore Hok. split; [apply (log_ok_store s s' Hstore Hok)|].
  exists []. split; [apply sublist_nil_l|].
  destruct (same_store_log s s' Hstore) as [Hent _].
  rewrite Hent, app_nil_r. symmetry. apply last100_short, Hok.
Qed.

Lemma gained_weaken (c1 c2 : list log_entry) (s s' : engine) :
  sublist c1 c2 -> gained c1 s s' -> gained c2 s s'.
Proof.
  intros Hsub H Hok. destruct (H Hok) as (Hok' & added & Hadd & Hent).
  split; [exact Hok'|]. exists added. split; [|exact Hent].
  etransitivity; eassumption.
Qed.

Lemma gained_trans (c1 c2 : list log_entry) (s1 s2 s3 : engine) :
  gained c1 s1 s2 -> gained c2 s2 s3 -> gained (c1 ++ c2) s1 s3.
Proof.
  intros H12 H23 Hok. destruct (H12 Hok) as (Hok2 & a1 & Hs1 & He1).
  destruct (H23 Hok2) as (Hok3 & a2 & Hs2 & He2).
  split; [exact Hok3|]. exists (a1 ++ a2). split.
  - apply sublist_app; assumption.
  - rewrite He2, He1, last100_app, <- app_assoc. reflexivity.
Qed.

Lemma gained_bind {A B} (c1 c2 : list log_entry) (m : M A) (k : A -> M B) :
  (forall s, gained c1 s (exec m s)) ->
  (forall a s, gained c2 s (exec (k a) s)) ->
  forall s, gained (c1 ++ c2) s (exec (bind m k) s).
Proof.
  intros Hm Hk s. unfold exec, bind. specialize (Hm s). unfold exec in Hm.
  destruct (m s) as [[a|e] s1]; simpl in *.
  - apply (gained_trans c1 c2 s s1); [exact Hm|]. apply Hk.
  - apply (gained_weaken c1); [apply sublist_inserts_r; reflexivity|exact Hm].
Qed.

Lemma same_store_emit (e : event) (s : engine) :
  (fun _ : event => True) e -> same_store s (exec (emit e) s).
Proof. intros _. reflexivity. Qed.

Lemma same_store_cancel :
  True -> forall s, same_store s (set_transfer_cancelled true s).
Proof. intros _ s. reflexivity. Qed.

Lemma job_try_returns (w : world) (direction : string) (i : nat)
    (source destination : string) :
  returns (job_try w direction i source destination).
Proof.
  unfold job_try. apply returns_bind; [apply transfer_one_returns|].
  intros ok. apply returns_bind.
  { intros s. unfold outcome. rewrite arrive_eq. eexists. reflexivity. }
  intros _. apply returns_bind; [intros s; eexists; reflexivity|].
  intros cancelled. destruct (ok && negb cancelled);
    [intros s; eexists; reflexivity | apply returns_ret].
Qed.

Lemma guarded_job_gained (w : world) (direction : string) (i : nat)
    (source destination : string) (s : engine) :
  gained [job_entry w direction i source] s
    (exec (guarded_job w direction i source destination) s).
Proof.
  assert (Hexec : exec (guarded_job w direction i source destination) s
                  = exec (job_try w direction i source destination) s).
  { destruct (job_try_returns w direction i source destination s) as [[] H].
    unfold exec, guarded_job, try_except.
    rewrite (returns_eq _ _ _ H). reflexivity. }
  rewrite Hexec. intros Hok. split.
  - apply (keeps_job_try keeps_log_ok True); auto.
    + intros _ s0. apply log_ok_store. reflexivity.
    + apply log_ok_log_transfer.
    + intros s0. apply log_ok_store, transfer_one_same_store.
  - destruct (job_try_log w direction i source destination s)
      as (ok & _ & Hent); [apply Hok|].
    simpl in Hent. destruct (ok && negb _).
    + exists [job_entry w direction i source]. split; [reflexivity|exact Hent].
    + exists []. split; [apply sublist_nil_l|].
      rewrite Hent, app_nil_r. symmetry. apply last100_short, Hok.
Qed.

Lemma each_job_gained (w : world) (direction : string) (total_files : nat)
    (file_list : list (string * string)) :
  forall i s,
    gained (job_entries w direction i file_list) s
      (exec (each_job w direction total_files i file_list) s).
Proof.
  induction file_list as [|[source destination] rest IH]; intros i s.
  - apply gained_store. reflexivity.
  - cbn [each_job job_entries].
    apply (gained_bind [] (job_entry w direction i source
                           :: job_entries w direction (S i) rest)).
    { intros s0. apply gained_store.
      apply (keeps_arrive same_store True same_store_cancel). auto. }
    intros _ s0. unfold exec. rewrite bind_get.
    destruct (transfer_cancelled s0); [apply gained_store; reflexivity|].
    apply (gained_bind [] (job_entry w direction i source
                           :: job_entries w direction (S i) rest)).
    { intros s1. apply gained_store.
      apply (keeps_announce_job same_store (fun _ => True) same_store_emit).
      auto. }
    intros _. apply (gained_bind [job_entry w direction i source]
                       (job_entries w direction (S i) rest)).
    { intros s1. apply guarded_job_gained. }
    intros _. apply (gained_bind [] (job_entries w direction (S i) rest)).
    { intros s1. apply gained_store.
      apply (keeps_update_progress same_store (fun _ => True) True
               same_store_emit same_store_cancel); auto. }
    intros _ s1. apply IH.
Qed.

Lemma job_entries_length (w : world) (direction : string)
    (file_list : list (string * string)) :
  forall i, length (job_entries w direction i file_list) = length file_list.
Proof.
  induction file_list as [|[source destination] rest IH]; intros i;
    [reflexivity|]. simpl. rewrite IH. reflexivity.
Qed.

Lemma thread_adds_entries (w : world)
    (file_list : list (string * string)) (direction : string) (s : engine) :
  log_ok s ->
  exists added,
    sublist added (job_entries w direction 0 file_list)
    /\ length added <= length file_list
    /\ log_entries (exec (transfer_thread w file_list direction) s)
       = last100 (log_entries s ++ added).
Proof.
  intros Hok.
  assert (H : gained (job_entries w direction 0 file_list) s
                (exec (transfer_thread w file_list direction) s)).
  { unfold exec, transfer_thread, try_finally.
    match goal with
    | |- context [try_except ?body ?handler s] =>
        assert (Hinner : gained (job_entries w direction 0 file_list) s
                           (exec (try_except body handler) s))
    end.
    { unfold exec, try_except.
      match goal with
      | |- context [bind ?m ?k s] =>
          assert (Hbody : gained (job_entries w direction 0 file_list) s
                            (exec (bind m k) s))
      end.
      { apply (gained_bind [] (job_entries w direction 0 file_list)).
        { intros s0. apply gained_store. reflexivity. }
        intros _. apply (gained_bind [] (job_entries w direction 0 file_list)).
        { intros s0. apply gained_store. reflexivity. }
        intros _.
        replace (job_entries w direction 0 file_list)
          with (job_entries w direction 0 file_list ++ [])
          by apply app_nil_r.
        apply gained_bind; [apply each_job_gained|].
        intros _ s0. apply gained_store.
        apply (keeps_final_status same_store (fun _ => True) True
                 same_store_emit same_store_cancel); auto. }
      unfold exec in Hbody. destruct (bind _ _ s) as [[[]|e] s1];
        simpl in *; [exact Hbody|].
      replace (job_entries w direction 0 file_list)
        with (job_entries w direction 0 file_list ++ [])
        by apply app_nil_r.
      apply (gained_trans _ [] s s1); [exact Hbody|].
      apply gained_store. reflexivity. }
    unfold exec in Hinner. destruct (try_except _ _ s) as [r s1]. simpl in *.
    replace (job_entries w direction 0 file_list)
      with (job_entries w direction 0 file_list ++ [])
      by apply app_nil_r.
    apply (gained_trans _ [] s s1); [exact Hinner|].
    apply gained_store. reflexivity. }
  destruct (H Hok) as (_ & added & Hsub & Hent).
  exists added. split; [exact Hsub|]. split; [|exact Hent].
  apply sublist_length in Hsub.
  rewrite job_entries_length in Hsub. exact Hsub.
Qed.

(** X15: what a batch adds to the log.  Run on an engine whose log is in
    order, the worker thread of any batch, in any world, leaves a log that
    is the old one followed by entries of jobs of the batch, at most one
    per job and in the order of the jobs, cut to its last 100 entries. *)
Theorem batch_adds_job_entries (w : world)
    (file_list : list (string * string)) (direction : string) (s : engine) :
  log_ok s ->
  exists added,
    sublist added (job_entries w direction 0 file_list)
    /\ length added <= length file_list
    /\ log_entries (exec (transfer_thread w file_list direction) s)
       = last100 (log_entries s ++ added).
Proof. apply thread_adds_entries. Qed.

Lemma batch_adds_job_entries_witness :
  exists added,
    sublist added (job_entries Scenario.first_unreadable "upload" 0
                     Scenario.two_jobs)
    /\ length added <= length Scenario.two_jobs
    /\ log_entries (exec (transfer_thread Scenario.first_unreadable
                            Scenario.two_jobs "upload") init)
       = last100 (log_entries init ++ added).
Proof. apply batch_adds_job_entries, log_ok_init. Defined.

(** ** The last progress of a batch *)

Lemma extends_emit (e : event) (s : engine) :
  (fun _ : event => True) e -> extends (fun _ => True) s (exec (emit e) s).
Proof.
  intros _. exists [e]. split; [reflexivity|]. constructor; [exact I|constructor].
Qed.

Lemma guarded_job_extends (w : world) (direction : string) (i : nat)
    (source destination : string) :
  keeps (extends (fun _ => True))
    (guarded_job w direction i source destination).
Proof.
  assert (Hcancel : True -> forall s,
             extends (fun _ => True) s (set_transfer_cancelled true s))
    by (intros _ s; apply extends_same_trace; reflexivity).
  apply (keeps_guarded_job (extends (fun _ => True)) (fun _ => True) True
           extends_emit Hcancel); auto.
  - intros ts a f sz d s. apply extends_same_trace.
    unfold exec, log_transfer, modify. simpl.
    destruct (_ <? _)%nat; reflexivity.
  - apply (keeps_transfer_one (extends (fun _ => True)) (fun _ => True) True
             extends_emit Hcancel); auto.
Qed.

Lemma update_progress_calm (w : world) (i total_files : nat) (s : engine)
    (cb : observer Q) :
  calm w -> total_files <> 0 ->
  transfer_cancelled s = false ->
  progress_callback s = Some cb -> (forall p, cb p = None) ->
  update_progress w i total_files s
  = (Ok tt,
     exec (emit (EvProgress
                   (Qred (inject_Z (Z.of_nat i + 1)
                          / inject_Z (Z.of_nat total_files) * 100)))) s).
Proof.
  intros (Hcp & _) Htot Hc Hcb Hret. unfold update_progress.
  rewrite Hcp. unfold bind at 1. simpl arrive. unfold ret at 1.
  rewrite bind_get, Hc. simpl negb. cbv iota.
  unfold truediv.
  destruct (Z.eqb_spec (Z.of_nat total_files) 0) as [H0|_]; [lia|].
  change (negb false) with true. cbv iota.
  unfold bind at 1, ret at 1. rewrite bind_get, Hcb.
  apply invoke_returns, Hret.
Qed.

Lemma percent_full (n : Z) :
  (0 < n)%Z -> Qred (inject_Z n / inject_Z n * 100) = 100%Q.
Proof.
  intros Hn. change 100%Q with (Qred 100). apply Qred_complete.
  destruct n as [|p|p]; try lia. unfold Qeq. simpl. lia.
Qed.

Lemma emit_fields (e : event) (s : engine) :
  trace (exec (emit e) s) = trace s ++ [e]
  /\ status_callback (exec (emit e) s) = status_callback s
  /\ progress_callback (exec (emit e) s) = progress_callback s
  /\ transfer_cancelled (exec (emit e) s) = transfer_cancelled s
  /\ callbacks (exec (emit e) s) = callbacks s.
Proof. repeat split. Qed.

Lemma each_job_ends_with_progress (w : world) (direction : string)
    (total_files : nat) (cbs : observer string) (cbp : observer Q) :
  calm w -> total_files <> 0 ->
  (forall m, cbs m = None) -> (forall p, cbp p = None) ->
  forall file_list i s,
    file_list <> [] ->
    status_callback s = Some cbs -> progress_callback s = Some cbp ->
    transfer_cancelled s = false ->
    exists s' evs,
      each_job w direction total_files i file_list s = (Ok tt, s')
      /\ trace s'
         = trace s ++ evs
           ++ [EvProgress
                 (Qred (inject_Z (Z.of_nat (i + length file_list))
                        / inject_Z (Z.of_nat total_files) * 100))]
      /\ transfer_cancelled s' = false
      /\ callbacks s' = callbacks s.
Proof.
  intros Hcalm Htot Hrets Hretp.
  induction file_list as [|[source destination] rest IH];
    intros i s Hne Hs Hp Hc; [contradiction|].
  assert (Hret : observers_return s).
  { split; intros cb Hcb x; [rewrite Hs in Hcb | rewrite Hp in Hcb];
      injection Hcb as <-; auto. }
  cbn [each_job]. pose proof Hcalm as (Hcp & Hput & Hget).
  rewrite Hcp. unfold bind at 1. unfold arrive at 1. unfold ret at 1.
  rewrite bind_get, Hc.
  rewrite (bind_ok _ _ _ _ _ (announce_job_returns i total_files source s
                                 ltac:(rewrite Hs; eauto) Hret)).
  destruct (emit_fields (EvStatus (job_status i total_files source)) s)
    as (T2 & Hs2 & Hp2 & Hc2 & C2).
  set (s2 := exec (emit (EvStatus (job_status i total_files source))) s) in *.
  clearbody s2.
  rewrite (bind_ok _ _ _ _ _ (guarded_job_returns w direction i source
                                 destination s2)).
  pose proof (job_undisturbed w direction i source destination s2)
    as (C3 & _ & F3).
  pose proof (guarded_job_extends w direction i source destination s2)
    as (e3 & T3 & _).
  set (s3 := exec (guarded_job w direction i source destination) s2) in *.
  clearbody s3.
  destruct (callbacks_same _ _ C3) as (Hs3 & Hp3 & _).
  assert (Hc3 : transfer_cancelled s3 = false)
    by (apply F3; [exact Hcalm | rewrite Hc2; exact Hc]).
  rewrite (bind_ok _ _ _ _ _
             (update_progress_calm w i total_files s3 cbp Hcalm Htot Hc3
                ltac:(rewrite Hp3, Hp2; exact Hp) Hretp)).
  set (percent := Qred (inject_Z (Z.of_nat i + 1)
                        / inject_Z (Z.of_nat total_files) * 100)).
  destruct (emit_fields (EvProgress percent) s3)
    as (T4 & Hs4 & Hp4 & Hc4 & C4).
  set (s4 := exec (emit (EvProgress percent)) s3) in *. clearbody s4.
  assert (T4' : trace s4
                = trace s ++ (EvStatus (job_status i total_files source) :: e3)
                  ++ [EvProgress percent]).
  { rewrite T4, T3, T2, <- !app_assoc. reflexivity. }
  destruct rest as [|next rest].
  - exists s4, (EvStatus (job_status i total_files source) :: e3).
    split; [reflexivity|]. split.
    + rewrite T4'. unfold percent.
      replace (Z.of_nat (i + length [(source, destination)]))
        with (Z.of_nat i + 1)%Z by (cbn [length]; lia).
      reflexivity.
    + split; [rewrite Hc4; exact Hc3|]. rewrite C4, C3. exact C2.
  - destruct (IH (S i) s4) as (s' & evs & Hrun & Ht & Hc' & C').
    + discriminate.
    + rewrite Hs4, Hs3, Hs2. exact Hs.
    + rewrite Hp4, Hp3, Hp2. exact Hp.
    + rewrite Hc4. exact Hc3.
    + exists s'.
      exists ((EvStatus (job_status i total_files source) :: e3)
              ++ [EvProgress percent] ++ evs).
      split; [exact Hrun|]. split.
      * rewrite Ht, T4'.
        replace (i + length ((source, destination) :: next :: rest))
          with (S i + length (next :: rest)) by (cbn [length]; lia).
        rewrite <- !app_assoc. reflexivity.
      * split; [exact Hc'|]. rewrite C', C4, C3. exact C2.
Qed.

Lemma final_status_calm (w : world) (s : engine) (cb : observer string) :
  calm w -> transfer_cancelled s = false ->
  status_callback s = Some cb -> (forall m, cb m = None) ->
  final_status w s
  = (Ok tt, exec (emit (EvStatus "Transfer completed")) s).
Proof.
  intros (Hcp & _) Hc Hcb Hret. unfold final_status.
  rewrite bind_get, Hcb, Hcp. unfold bind at 1. unfold arrive at 1.
  unfold ret at 1. rewrite bind_get, Hc.
  apply invoke_returns, Hret.
Qed.

(** X16.  [transfer_thread] (file_transfer.py 303-356) counts jobs, not
    successes: in a world where no cancel request arrives, with a status and
    a progress observer that return, the last two observer calls of a
    non-empty batch are a progress of exactly 100 and the status
    "Transfer completed", whatever became of the jobs; both flags are down
    afterwards. *)
Theorem uncancelled_batch_ends_at_100 (w : world)
    (file_list : list (string * string)) (direction : string) (s : engine)
    (cbs : observer string) (cbp : observer Q) :
  calm w -> file_list <> [] ->
  status_callback s = Some cbs -> progress_callback s = Some cbp ->
  (forall m, cbs m = None) -> (forall p, cbp p = None) ->
  exists evs,
    trace (exec (transfer_thread w file_list direction) s)
    = trace s ++ evs ++ [EvProgress 100; EvStatus "Transfer completed"]
    /\ transfer_in_progress (exec (transfer_thread w file_list direction) s)
       = false
    /\ transfer_cancelled (exec (transfer_thread w file_list direction) s)
       = false.
Proof.
  intros Hcalm Hne Hs Hp Hrets Hretp.
  assert (Htot : length file_list <> 0) by (destruct file_list; [contradiction|discriminate]).
  set (s0 := set_transfer_cancelled false (set_transfer_in_progress true s)).
  destruct (each_job_ends_with_progress w direction (length file_list) cbs cbp
              Hcalm Htot Hrets Hretp file_list 0 s0 Hne Hs Hp eq_refl)
    as (s1 & evs & Hrun & Ht & Hc1 & C1).
  destruct (callbacks_same _ _ C1) as (Hs1 & _ & _).
  assert (Hfin := final_status_calm w s1 cbs Hcalm Hc1
                    ltac:(rewrite Hs1; exact Hs) Hrets).
  assert (Hbody : transfer_thread w file_list direction s
                  = (Ok tt,
                     set_transfer_cancelled false
                       (set_transfer_in_progress false
                          (exec (emit (EvStatus "Transfer completed")) s1)))).
  { unfold transfer_thread, try_finally, try_except.
    rewrite !bind_modify. fold s0.
    rewrite (bind_ok _ _ _ _ _ Hrun), Hfin. reflexivity. }
  exists evs. unfold exec at 1 2 3. rewrite Hbody.
  split; [|split; reflexivity].
  change (trace s1 ++ [EvStatus "Transfer completed"]
          = trace s ++ evs ++ [EvProgress 100; EvStatus "Transfer completed"]).
  change (0 + length file_list) with (length file_list) in Ht.
  rewrite (percent_full (Z.of_nat (length file_list))) in Ht by lia.
  rewrite Ht. change (trace s0) with (trace s).
  rewrite <- !app_assoc. reflexivity.
Qed.

Lemma uncancelled_batch_ends_at_100_witness :
  exists evs,
    trace (exec (transfer_thread Scenario.first_unreadable Scenario.two_jobs
                   "upload") Scenario.observed)
    = trace Scenario.observed ++ evs
      ++ [EvProgress 100; EvStatus "Transfer completed"]
    /\ transfer_in_progress
         (exec (transfer_thread Scenario.first_unreadable Scenario.two_jobs
                  "upload") Scenario.observed) = false
    /\ transfer_cancelled
         (exec (transfer_thread Scenario.first_unreadable Scenario.two_jobs
                  "upload") Scenario.observed) = false.
Proof.
  apply (uncancelled_batch_ends_at_100 Scenario.first_unreadable
           Scenario.two_jobs "upload" Scenario.observed
           (fun _ => None) (fun _ => None)).
  - exact calm_first_unreadable.
  - discriminate.
  - reflexivity.
  - reflexivity.
  - reflexivity.
  - reflexivity.
Defined.

(** ** A batch, job by job *)

Lemma run_eq {A} (m : M A) (s : engine) : m s = (outcome m s, exec m s).
Proof. unfold outcome, exec. destruct (m s). reflexivity. Qed.

#[local] Instance fetched_nil_preorder : PreOrder (fetched []).
Proof.
  split.
  - intros s. exists []. rewrite app_nil_r. split; reflexivity.
  - intros s1 s2 s3 (e12 & H12 & P12) (e23 & H23 & P23).
    exists (e12 ++ e23). rewrite H23, H12, app_assoc.
    split; [reflexivity|]. rewrite omap_app, P12, P23. reflexivity.
Qed.








Lemma try_bind_ok {A B} (m : M A) (k : A -> M B) (h : string -> M B)
    (s s1 : engine) (a : A) :
  m s = (Ok a, s1) -> try_except (bind m k) h s = try_except (k a) h s1.
Proof. intros H. unfold try_except, bind. rewrite H. reflexivity. Qed.

Lemma transfer_one_run (w : world) (direction source destination : string)
    (s : engine) :
  exists ok,
    transfer_one w direction source destination s
    = (Ok ok, exec (transfer_one w direction source destination) s).
Proof.
  destruct (transfer_one_returns w direction source destination s) as [ok Hok].
  exists ok. apply returns_eq, Hok.
Qed.

Lemma told_fields {A} (cb : option (observer A)) (e : event) (s : engine) :
  callbacks (told cb e s) = callbacks s
  /\ transfer_cancelled (told cb e s) = transfer_cancelled s
  /\ store (told cb e s) = store s
  /\ trace (told cb e s) = trace s ++ match cb with Some _ => [e] | None => [] end.
Proof.
  destruct cb; simpl; repeat split. symmetry. apply app_nil_r.
Qed.

(** The status of a job, with an observer that returns. *)
Lemma announce_job_told (i total_files : nat) (source : string) (s : engine) :
  observers_return s ->
  announce_job i total_files source s
  = (Ok tt,
     told (status_callback s) (EvStatus (job_status i total_files source)) s).
Proof.
  intros [Hret _]. unfold announce_job. rewrite bind_get.
  destruct (status_callback s) as [cb|] eqn:Hcb; [|reflexivity].
  apply invoke_returns, (Hret cb eq_refl).
Qed.

(** The progress of a batch, with no cancel request and an observer that
    returns. *)
Lemma update_progress_told (w : world) (i total_files : nat) (s : engine) :
  calm w -> total_files <> 0 -> observers_return s ->
  transfer_cancelled s = false ->
  update_progress w i total_files s
  = (Ok tt,
     told (progress_callback s)
       (EvProgress (Qred (inject_Z (Z.of_nat i + 1)
                          / inject_Z (Z.of_nat total_files) * 100))) s).
Proof.
  intros (Hcp & _) Htot [_ Hret] Hc. unfold update_progress.
  rewrite Hcp. unfold bind at 1. simpl arrive. unfold ret at 1.
  rewrite bind_get, Hc. simpl negb. cbv iota.
  unfold truediv.
  destruct (Z.eqb_spec (Z.of_nat total_files) 0) as [H0|_]; [lia|].
  change (negb false) with true. cbv iota.
  unfold bind at 1, ret at 1. rewrite bind_get.
  destruct (progress_callback s) as [cb|] eqn:Hcb; [|reflexivity].
  apply invoke_returns, (Hret cb eq_refl).
Qed.

(** The final status, with no cancel request and an observer that
    returns. *)
Lemma final_status_told (w : world) (s : engine) :
  calm w -> observers_return s -> transfer_cancelled s = false ->
  final_status w s
  = (Ok tt, told (status_callback s) (EvStatus "Transfer completed") s).
Proof.
  intros (Hcp & _) [Hret _] Hc. unfold final_status. rewrite bind_get.
  destruct (status_callback s) as [cb|] eqn:Hcb; [|reflexivity].
  rewrite Hcp. unfold bind at 1. simpl arrive. unfold ret at 1.
  rewrite bind_get, Hc. apply invoke_returns, (Hret cb eq_refl).
Qed.

(** A transfer sends no status, keeps the observers and, in a calm world,
    sets no cancel request. *)
Lemma transfer_one_undisturbed (w : world)
    (direction source destination : string) :
  keeps (undisturbed w) (transfer_one w direction source destination).
Proof.
  apply (keeps_transfer_one (undisturbed w)
           (fun e => is_status e = false) (~ calm w)).
  - intros e s. apply undisturbed_emit.
  - apply undisturbed_cancel.
  - apply observer_event_not_status.
  - apply not_calm_put.
  - apply not_calm_get.
  - intros _. split; reflexivity.
  - intros _ b. reflexivity.
Qed.

(** The [try] block of a job with no cancel request: the transfer, and the
    log entry if it succeeded. *)
Lemma guarded_job_calm (w : world) (direction : string) (i : nat)
    (source destination : string) (s : engine) :
  calm w -> transfer_cancelled s = false ->
  guarded_job w direction i source destination s
  = (Ok tt,
     match outcome (transfer_one w direction source destination) s with
     | Ok true =>
         exec (log_transfer (job_timestamp w i) direction (Py.basename source)
                 (get_file_size w source (String.eqb direction "download"))
                 (Some (job_duration w i)))
           (exec (transfer_one w direction source destination) s)
     | _ => exec (transfer_one w direction source destination) s
     end).
Proof.
  intros Hcalm Hc.
  pose proof (transfer_one_undisturbed w direction source destination s)
    as (_ & _ & Hflag).
  specialize (Hflag Hcalm Hc).
  destruct (transfer_one_run w direction source destination s) as [ok Hok].
  unfold guarded_job, job_try. rewrite (try_bind_ok _ _ _ _ _ _ Hok).
  unfold outcome at 1. rewrite Hok. cbn [fst].
  destruct Hcalm as (Hcp & _).
  unfold try_except, bind at 1. rewrite Hcp. simpl arrive. unfold ret at 1.
  rewrite bind_get, Hflag.
  destruct ok; reflexivity.
Qed.

Lemma job_in_turn_fields (w : world) (direction : string)
    (total_files i : nat) (source destination : string) (s : engine) :
  calm w -> transfer_cancelled s = false ->
  callbacks (job_in_turn w direction total_files i source destination s)
  = callbacks s
  /\ transfer_cancelled
       (job_in_turn w direction total_files i source destination s) = false.
Proof.
  intros Hcalm Hc. unfold job_in_turn.
  set (s1 := told (status_callback s) _ s).
  destruct (told_fields (status_callback s)
              (EvStatus (job_status i total_files source)) s)
    as (C1 & F1 & _). fold s1 in C1, F1.
  pose proof (transfer_one_undisturbed w direction source destination s1)
    as (C2 & _ & F2).
  set (s2 := exec (transfer_one w direction source destination) s1) in *.
  set (s3 := match outcome _ s1 with Ok true => _ | _ => s2 end).
  assert (H3 : callbacks s3 = callbacks s2
               /\ transfer_cancelled s3 = transfer_cancelled s2).
  { unfold s3. destruct (outcome _ s1) as [[|]|e]; try (split; reflexivity).
    unfold exec, log_transfer, modify. simpl.
    destruct (_ <? _)%nat; split; reflexivity. }
  destruct H3 as (C3 & F3).
  destruct (told_fields (progress_callback s3)
              (EvProgress (Qred (inject_Z (Z.of_nat i + 1)
                                 / inject_Z (Z.of_nat total_files) * 100))) s3)
    as (C4 & F4 & _).
  split; [congruence|]. rewrite F4, F3. apply (F2 Hcalm). congruence.
Qed.

(** The loop, with no cancel request and observers that return, carries
    out every job in turn. *)
Lemma each_job_in_turn (w : world) (direction : string) (total_files : nat)
    (file_list : list (string * string)) :
  calm w -> length file_list <= total_files ->
  forall i s,
    observers_return s -> transfer_cancelled s = false ->
    each_job w direction total_files i file_list s
    = (Ok tt, jobs_in_turn w direction total_files i file_list s)
    /\ callbacks (jobs_in_turn w direction total_files i file_list s)
       = callbacks s
    /\ transfer_cancelled (jobs_in_turn w direction total_files i file_list s)
       = false.
Proof.
  intros Hcalm.
  induction file_list as [|[source destination] rest IH];
    intros Hlen i s Hret Hc.
  - repeat split. exact Hc.
  - simpl in Hlen. assert (Htot : total_files <> 0) by lia.
    destruct (job_in_turn_fields w direction total_files i source destination
                s Hcalm Hc) as (Cj & Fj).
    destruct (callbacks_same _ _ Cj) as (_ & _ & Hretj).
    destruct (IH ltac:(lia) (S i) _ (Hretj Hret) Fj) as (Hrun & Cr & Fr).
    cbn [jobs_in_turn]. split; [|split; [congruence|exact Fr]].
    rewrite <- Hrun. clear Hrun Cr Fr IH.
    cbn [each_job]. unfold bind at 1. rewrite (proj1 Hcalm).
    simpl arrive. unfold ret at 1. rewrite bind_get, Hc. cbv iota.
    rewrite (bind_ok _ _ _ _ _ (announce_job_told i total_files source s Hret)).
    unfold job_in_turn in *.
    set (s1 := told (status_callback s) _ s) in *.
    destruct (told_fields (status_callback s)
                (EvStatus (job_status i total_files source)) s)
      as (C1 & F1 & _). fold s1 in C1, F1.
    assert (Hc1 : transfer_cancelled s1 = false) by congruence.
    rewrite (bind_ok _ _ _ _ _ (guarded_job_calm w direction i source
                                   destination s1 Hcalm Hc1)).
    pose proof (transfer_one_undisturbed w direction source destination s1)
      as (C2 & _ & F2).
    set (s2 := exec (transfer_one w direction source destination) s1) in *.
    set (s3 := match outcome _ s1 with Ok true => _ | _ => s2 end) in *.
    assert (H3 : callbacks s3 = callbacks s2
                 /\ transfer_cancelled s3 = transfer_cancelled s2).
    { unfold s3. destruct (outcome _ s1) as [[|]|e]; try (split; reflexivity).
      unfold exec, log_transfer, modify. simpl.
      destruct (_ <? _)%nat; split; reflexivity. }
    destruct H3 as (C3 & F3).
    assert (C3' : callbacks s3 = callbacks s) by congruence.
    destruct (callbacks_same _ _ C3') as (_ & _ & Hret3).
    assert (Hc3 : transfer_cancelled s3 = false)
      by (rewrite F3; apply (F2 Hcalm Hc1)).
    rewrite (bind_ok _ _ _ _ _ (update_progress_told w i total_files s3 Hcalm
                                   Htot (Hret3 Hret) Hc3)).
    reflexivity.
Qed.

(** A whole batch, with no cancel request and observers that return. *)
Lemma thread_in_turn (w : world) (file_list : list (string * string))
    (direction : string) (s : engine) :
  calm w -> observers_return s ->
  transfer_thread w file_list direction s
  = (Ok tt,
     idle (told (status_callback s) (EvStatus "Transfer completed")
             (jobs_in_turn w direction (length file_list) 0 file_list
                (started s)))).
Proof.
  intros Hcalm Hret.
  assert (Hret0 : observers_return (started s)) by exact Hret.
  destruct (each_job_in_turn w direction (length file_list) file_list Hcalm
              (le_n _) 0 (started s) Hret0 eq_refl) as (Hrun & C1 & F1).
  destruct (callbacks_same _ _ C1) as (Hs1 & _ & Hret1).
  unfold transfer_thread, try_finally, try_except.
  rewrite !bind_modify. fold (started s).
  rewrite (bind_ok _ _ _ _ _ Hrun).
  rewrite (final_status_told w _ Hcalm (Hret1 Hret0) F1).
  rewrite Hs1. reflexivity.
Qed.

Lemma bind_raise {A B} (m : M A) (k : A -> M B) (s s' : engine) (e : string) :
  m s = (Raise e, s') -> bind m k s = (Raise e, s').
Proof. intros H. unfold bind. rewrite H. reflexivity. Qed.

(** One turn of the loop: the cancel request is looked up; the status
    observer may raise; the job returns; the progress observer may raise;
    the loop goes on. *)
Lemma each_job_step (w : world) (direction : string) (total_files i : nat)
    (source destination : string) (rest : list (string * string))
    (s : engine) :
  each_job w direction total_files i ((source, destination) :: rest) s
  = let s1 := if cancel_at w (BeforeJob i)
              then set_transfer_cancelled true s else s in
    if transfer_cancelled s1 then (Ok tt, s1)
    else
      let s2 := exec (announce_job i total_files source) s1 in
      match outcome (announce_job i total_files source) s1 with
      | Raise e => (Raise e, s2)
      | Ok _ =>
          let s3 := exec (guarded_job w direction i source destination) s2 in
          let s4 := exec (update_progress w i total_files) s3 in
          match outcome (update_progress w i total_files) s3 with
          | Raise e => (Raise e, s4)
          | Ok _ => each_job w direction total_files (S i) rest s4
          end
      end.
Proof.
  cbn [each_job]. unfold bind at 1. rewrite arrive_eq. cbv zeta.
  set (s1 := if cancel_at w (BeforeJob i)
             then set_transfer_cancelled true s else s).
  rewrite bind_get. destruct (transfer_cancelled s1); [reflexivity|].
  destruct (outcome (announce_job i total_files source) s1) as [[]|e] eqn:Ha.
  - rewrite (bind_ok _ _ s1 _ tt)
      by (rewrite (run_eq (announce_job i total_files source) s1), Ha;
          reflexivity).
    rewrite (bind_ok _ _ _ _ _ (guarded_job_returns w direction i source
                                   destination _)).
    set (s3 := exec (guarded_job w direction i source destination) _).
    destruct (outcome (update_progress w i total_files) s3) as [[]|e] eqn:Hp.
    + rewrite (bind_ok _ _ s3 _ tt)
        by (rewrite (run_eq (update_progress w i total_files) s3), Hp;
            reflexivity).
      reflexivity.
    + rewrite (bind_raise _ _ s3 _ e)
        by (rewrite (run_eq (update_progress w i total_files) s3), Hp;
            reflexivity).
      reflexivity.
  - rewrite (bind_raise _ _ s1 _ e)
      by (rewrite (run_eq (announce_job i total_files source) s1), Ha;
          reflexivity).
    reflexivity.
Qed.








(** The body of the worker thread: the loop, the final status if the loop
    ended normally, the message of an exception that escaped, and the
    flags. *)
Lemma transfer_thread_step (w : world) (file_list : list (string * string))
    (direction : string) (s : engine) :
  transfer_thread w file_list direction s
  = (Ok tt,
     idle
       (let loop := each_job w direction (length file_list) 0 file_list in
        let s1 := exec loop (started s) in
        match outcome loop (started s) with
        | Ok _ =>
            let s2 := exec (final_status w) s1 in
            match outcome (final_status w) s1 with
            | Ok _ => s2
            | Raise e =>
                exec (print ("Transfer thread error / Transfer thread hatası: "
                             +:+ e)) s2
            end
        | Raise e =>
            exec (print ("Transfer thread error / Transfer thread hatası: "
                         +:+ e)) s1
        end)).
Proof.
  unfold transfer_thread, try_finally, try_except.
  rewrite !bind_modify. fold (started s). cbv zeta.
  set (loop := each_job w direction (length file_list) 0 file_list).
  destruct (outcome loop (started s)) as [[]|e] eqn:Hl.
  - rewrite (bind_ok _ _ (started s) _ tt)
      by (rewrite (run_eq loop (started s)), Hl; reflexivity).
    rewrite (run_eq (final_status w) (exec loop (started s))).
    destruct (outcome (final_status w) _) as [[]|e]; reflexivity.
  - rewrite (bind_raise _ _ (started s) _ e)
      by (rewrite (run_eq loop (started s)), Hl; reflexivity).
    reflexivity.
Qed.





(** The run of the example: both files are sent for, in order, and each
    is logged under the direction string as it was given, with the size
    that [os.path.getsize] finds at the path of the source. *)
Lemma other_direction_run :
  let s' := exec (transfer_thread Scenario.two_chunks
                    [("/r/a.txt", "a.txt"); ("/r/b.txt", "b.txt")] "Download")
              Scenario.observed in
  filter (fun e => bool_decide (is_observer_event e = false)) (trace s')
  = [EvStatus "Transferring (1/2): a.txt";
     EvGet "/r/a.txt" "a.txt" true;
     EvStatus "Transferring (2/2): b.txt";
     EvGet "/r/b.txt" "b.txt" true;
     EvStatus "Transfer completed"]
  /\ log_entries s'
     = [LogEntry "2024-01-01 12:00:00" "Download" "a.txt" (Some 2048%Z)
          (Some 1%Q);
        LogEntry "2024-01-01 12:00:00" "Download" "b.txt" (Some 2048%Z)
          (Some 1%Q)].
Proof. intros s'. split; vm_compute; reflexivity. Qed.

(** ** What goes to the status observer *)

Lemma announce_job_said (i total_files : nat) (source : string) (s : engine) :
  let s' := exec (announce_job i total_files source) s in
  callbacks s' = callbacks s
  /\ transfer_cancelled s' = transfer_cancelled s
  /\ statuses (trace s')
     = statuses (trace s)
       ++ match status_callback s with
          | Some _ => [job_status i total_files source]
          | None => []
          end.
Proof.
  unfold exec, announce_job. rewrite bind_get.
  destruct (status_callback s) as [cb|].
  - match goal with
    | |- context [invoke ?ev ?cb ?a ?s] =>
        change (invoke ev cb a s).2 with (exec (invoke ev cb a) s)
    end.
    rewrite invoke_trace, statuses_app.
    unfold exec, invoke, bind. simpl. destruct (cb _); repeat split.
  - simpl. rewrite app_nil_r. repeat split.
Qed.

(** The statuses of the loop are those of the first [k] jobs, for some
    [k], when a status observer is installed. *)
Lemma each_job_said (w : world) (direction : string) (total_files : nat)
    (file_list : list (string * string)) :
  forall i s, exists k,
    let s' := exec (each_job w direction total_files i file_list) s in
    k <= length file_list
    /\ callbacks s' = callbacks s
    /\ statuses (trace s')
       = statuses (trace s)
         ++ match status_callback s with
            | Some _ => job_statuses total_files i (take k file_list)
            | None => []
            end.
Proof.
  induction file_list as [|[source destination] rest IH]; intros i s.
  - exists 0. simpl. destruct (status_callback s); rewrite app_nil_r;
      repeat split; lia.
  - cbv zeta. unfold exec at 1 2. rewrite each_job_step. cbv zeta.
    set (s1 := if cancel_at w (BeforeJob i)
               then set_transfer_cancelled true s else s).
    assert (H1 : callbacks s1 = callbacks s /\ trace s1 = trace s)
      by (unfold s1; destruct (cancel_at _ _); split; reflexivity).
    destruct H1 as (C1 & T1). clearbody s1.
    assert (Hnone : statuses (trace s)
                    = statuses (trace s)
                      ++ match status_callback s with
                         | Some _ => job_statuses total_files i
                                       (take 0 ((source, destination) :: rest))
                         | None => []
                         end)
      by (simpl; destruct (status_callback s); rewrite app_nil_r; reflexivity).
    destruct (transfer_cancelled s1) eqn:Hc1.
    { exists 0. cbn [snd]. split; [lia|]. split; [exact C1|].
      rewrite T1. exact Hnone. }
    destruct (announce_job_said i total_files source s1) as (C2 & _ & S2).
    set (s2 := exec (announce_job i total_files source) s1) in *.
    destruct (callbacks_same _ _ C1) as (Hs1 & _).
    rewrite Hs1, T1 in S2.
    assert (Hone : statuses (trace s2)
                   = statuses (trace s)
                     ++ match status_callback s with
                        | Some _ => job_statuses total_files i
                                      (take 1 ((source, destination) :: rest))
                        | None => []
                        end)
      by (rewrite S2; reflexivity).
    destruct (outcome (announce_job i total_files source) s1) as [[]|e].
    2:{ exists 1. cbn [snd]. split; [simpl; lia|].
        split; [congruence|exact Hone]. }
    pose proof (job_undisturbed w direction i source destination s2)
      as (C3 & S3 & _).
    set (s3 := exec (guarded_job w direction i source destination) s2) in *.
    pose proof (update_progress_undisturbed w i total_files s3)
      as (C4 & S4 & _).
    set (s4 := exec (update_progress w i total_files) s3) in *.
    assert (C4' : callbacks s4 = callbacks s) by congruence.
    destruct (outcome (update_progress w i total_files) s3) as [[]|e].
    2:{ exists 1. cbn [snd]. split; [simpl; lia|].
        split; [exact C4'|]. rewrite S4, S3. exact Hone. }
    destruct (IH (S i) s4) as (k & Hk & Ck & Sk).
    exists (S k).
    fold (exec (each_job w direction total_files (S i) rest) s4).
    split; [simpl; lia|]. split; [congruence|].
    rewrite Sk, S4, S3, S2.
    destruct (callbacks_same _ _ C4') as (Hs4 & _). rewrite Hs4.
    destruct (status_callback s); simpl; rewrite <- app_assoc; reflexivity.
Qed.

Lemma final_status_said (w : world) (s : engine) :
  exists final,
    statuses (trace (exec (final_status w) s))
    = statuses (trace s)
      ++ match status_callback s with
         | Some _ => [final]
         | None => []
         end
    /\ (final = "Transfer completed" \/ final = "Transfer cancelled").
Proof.
  unfold exec, final_status. rewrite bind_get.
  destruct (status_callback s) as [cb|].
  2:{ exists "Transfer completed". simpl. rewrite app_nil_r. auto. }
  unfold bind at 1. rewrite arrive_eq.
  set (s1 := if cancel_at w BeforeFinalStatus
             then set_transfer_cancelled true s else s).
  assert (T1 : trace s1 = trace s)
    by (unfold s1; destruct (cancel_at _ _); reflexivity).
  clearbody s1. rewrite bind_get.
  destruct (transfer_cancelled s1);
    [exists "Transfer cancelled" | exists "Transfer completed"];
    (split; [|auto]);
    match goal with
    | |- context [invoke ?ev ?cb ?a ?s] =>
        change (invoke ev cb a s).2 with (exec (invoke ev cb a) s)
    end;
    rewrite invoke_trace, statuses_app, T1; reflexivity.
Qed.

(** The statuses of a whole batch: one per job for the first [k] jobs of
    the list, in order, then at most one final status. *)
Lemma thread_said (w : world) (file_list : list (string * string))
    (direction : string) (s : engine) :
  exists k final,
    k <= length file_list
    /\ statuses (trace (exec (transfer_thread w file_list direction) s))
       = statuses (trace s)
         ++ match status_callback s with
            | Some _ =>
                job_statuses (length file_list) 0 (take k file_list) ++ final
            | None => []
            end
    /\ (final = [] \/ final = ["Transfer completed"]
        \/ final = ["Transfer cancelled"]).
Proof.
  destruct (each_job_said w direction (length file_list) file_list 0
              (started s)) as (k & Hk & C1 & S1).
  set (s1 := exec (each_job w direction (length file_list) 0 file_list)
               (started s)) in *.
  change (callbacks (started s)) with (callbacks s) in C1.
  change (status_callback (started s)) with (status_callback s) in S1.
  change (trace (started s)) with (trace s) in S1.
  destruct (callbacks_same _ _ C1) as (Hs1 & _).
  destruct (final_status_said w s1) as (final & S2 & Hfinal).
  rewrite Hs1 in S2.
  unfold exec at 1. rewrite transfer_thread_step. cbn [snd]. cbv zeta.
  fold s1.
  assert (Hidle : forall s0, statuses (trace (idle s0)) = statuses (trace s0))
    by reflexivity.
  assert (Hprint : forall e s0,
             statuses (trace (exec (print e) s0)) = statuses (trace s0)).
  { intros e s0. unfold exec. simpl. rewrite statuses_app. apply app_nil_r. }
  destruct (outcome _ (started s)) as [[]|e].
  - exists k, [final]. split; [exact Hk|]. split.
    + rewrite Hidle.
      assert (Hs : statuses (trace (exec (final_status w) s1))
                   = statuses (trace s)
                     ++ match status_callback s with
                        | Some _ =>
                            job_statuses (length file_list) 0
                              (take k file_list) ++ [final]
                        | None => []
                        end).
      { rewrite S2, S1. destruct (status_callback s);
          rewrite <- app_assoc; reflexivity. }
      destruct (outcome (final_status w) s1) as [[]|e]; [exact Hs|].
      rewrite Hprint. exact Hs.
    + destruct Hfinal as [-> | ->]; auto.
  - exists k, []. split; [exact Hk|]. split; [|auto].
    rewrite Hidle, Hprint, S1, app_nil_r. reflexivity.
Qed.

(** A job whose transfer fails returns to the loop; it has sent no status
    and added no log entry. *)
Lemma guarded_job_failed (w : world) (direction : string) (i : nat)
    (source destination : string) (s : engine) :
  outcome (transfer_one w direction source destination) s = Ok false ->
  guarded_job w direction i source destination s
  = (Ok tt,
     let s1 := exec (transfer_one w direction source destination) s in
     if cancel_at w (AfterTransfer i) then set_transfer_cancelled true s1
     else s1).
Proof.
  intros Hfail. apply returns_eq in Hfail.
  unfold guarded_job, job_try. rewrite (try_bind_ok _ _ _ _ _ _ Hfail).
  unfold try_except, bind at 1. rewrite arrive_eq. reflexivity.
Qed.

(** C6, amended.  There is no error status, and a failed job stops
    nothing.
    - The statuses that a batch hands to the status observer are
      "Transferring (i/total): name" for the first [k] jobs of the list, in
      order, for some [k], followed by at most one of "Transfer completed"
      and "Transfer cancelled": no other status is ever sent.
    - The transfer of a job returns a boolean: the transfer methods catch
      the exceptions (of class [Exception]) of their collaborators and
      observers themselves, so a transfer that fails is one that returns
      False.
    - A job whose transfer returns False returns normally to the loop, in
      the state the transfer left (with the cancel request set if one
      arrived after the transfer): no status is sent and no log entry is
      added for it.
    - When no cancel request arrives and the status and progress observers
      return, the batch carries out every job of the list in turn, whatever
      the outcome of the jobs before it: for each job the status of the job
      (if a status observer is installed), its transfer, the log entry if
      the transfer succeeded, and the progress (if a progress observer is
      installed); then "Transfer completed", and the flags are reset. *)
Theorem failed_job_does_not_stop_batch (w : world)
    (file_list : list (string * string)) (direction : string) (s : engine) :
  let s' := exec (transfer_thread w file_list direction) s in
  (exists k final,
     k <= length file_list
     /\ statuses (trace s')
        = statuses (trace s)
          ++ match status_callback s with
             | Some _ =>
                 job_statuses (length file_list) 0 (take k file_list) ++ final
             | None => []
             end
     /\ (final = [] \/ final = ["Transfer completed"]
         \/ final = ["Transfer cancelled"]))
  /\ (forall source destination s0,
        exists ok,
          outcome (transfer_one w direction source destination) s0 = Ok ok)
  /\ (forall i source destination s0,
        outcome (transfer_one w direction source destination) s0 = Ok false ->
        guarded_job w direction i source destination s0
        = (Ok tt,
           let s1 := exec (transfer_one w direction source destination) s0 in
           if cancel_at w (AfterTransfer i) then set_transfer_cancelled true s1
           else s1))
  /\ (calm w -> observers_return s ->
      s' = idle (told (status_callback s) (EvStatus "Transfer completed")
                   (jobs_in_turn w direction (length file_list) 0 file_list
                      (started s)))).
Proof.
  intros s'. split; [apply thread_said|]. split; [|split].
  - intros source destination s0. apply transfer_one_returns.
  - intros i source destination s0. apply guarded_job_failed.
  - intros Hcalm Hret. unfold s', exec.
    rewrite (thread_in_turn w file_list direction s Hcalm Hret). reflexivity.
Qed.

Lemma failed_job_does_not_stop_batch_witness :
  let w := Scenario.first_unreadable in
  let s' := exec (transfer_thread w Scenario.two_jobs "upload")
              Scenario.observed in
  guarded_job w "upload" 0 "/home/a.txt" "/remote/a.txt" Scenario.observed
  = (Ok tt,
     exec (transfer_one w "upload" "/home/a.txt" "/remote/a.txt")
       Scenario.observed)
  /\ s' = idle (told (status_callback Scenario.observed)
                  (EvStatus "Transfer completed")
                  (jobs_in_turn w "upload" 2 0 Scenario.two_jobs
                     (started Scenario.observed))).
Proof.
  intros w s'.
  destruct (failed_job_does_not_stop_batch w Scenario.two_jobs "upload"
              Scenario.observed) as (_ & _ & Hfailed & Hall).
  split.
  - apply (Hfailed 0 "/home/a.txt" "/remote/a.txt" Scenario.observed).
    reflexivity.
  - apply Hall; [exact calm_first_unreadable | apply observed_returns].
Defined.

(** ** A cancel request stops the batch *)
























(** Runs: a cancel request arrives before the second of two uploads; when
    the transfer of the first has returned, which is then not logged; after
    the last, with everything transferred and logged. *)
Lemma cancel_at_checkpoint_runs :
  let run := fun cancel =>
    exec (transfer_thread (More.cancelling cancel) Scenario.two_jobs "upload")
      Scenario.observed in
  let shown := fun s : engine =>
    (filter (fun e => bool_decide (is_observer_event e = false)) (trace s),
     e_filename <$> log_entries s) in
  shown (run More.before_second)
  = ([EvStatus "Transferring (1/2): a.txt";
      EvPut "/home/a.txt" "/remote/a.txt" true;
      EvStatus "Transfer cancelled"], ["a.txt"])
  /\ shown (run More.after_first_transfer)
     = ([EvStatus "Transferring (1/2): a.txt";
         EvPut "/home/a.txt" "/remote/a.txt" true;
         EvStatus "Transfer cancelled"], [])
  /\ shown (run More.at_the_end)
     = ([EvStatus "Transferring (1/2): a.txt";
         EvPut "/home/a.txt" "/remote/a.txt" true;
         EvStatus "Transferring (2/2): b.txt";
         EvPut "/home/b.txt" "/remote/b.txt" true;
         EvStatus "Transfer cancelled"], ["a.txt"; "b.txt"]).
Proof. intros run shown. repeat split; vm_compute; reflexivity. Qed.

(** ** What the log records *)

Lemma calm_local_dir : calm Scenario.local_dir.
Proof.
  split; [reflexivity|].
  split; intros a b c Hin; simpl in Hin;
    repeat (apply elem_of_cons in Hin as [->|Hin]; [reflexivity|]);
    apply elem_of_nil in Hin; contradiction.
Qed.

(** A batch whose one job is a directory, with no cancel request and
    observers that return: the log gains the one entry of the job when the
    walk returns True, and nothing otherwise. *)
Lemma directory_batch_log (w : world) (source destination : string)
    (t : node) (s : engine) :
  calm w -> observers_return s -> log_allocated s ->
  os_isdir w source = Some t ->
  let announced :=
    told (status_callback s) (EvStatus (job_status 0 1 source)) (started s) in
  exists ok,
    outcome (upload_directory w t source destination) announced = Ok ok
    /\ log_entries
         (exec (transfer_thread w [(source, destination)] "upload") s)
       = if ok
         then last100 (log_entries s ++ [job_entry w "upload" 0 source])
         else log_entries s.
Proof.
  intros Hcalm Hret Hall Hdir announced.
  assert (Hone : transfer_one w "upload" source destination
                 = upload_directory w t source destination).
  { unfold transfer_one. simpl. rewrite Hdir. reflexivity. }
  destruct (transfer_one_returns w "upload" source destination announced)
    as [ok Hok].
  exists ok. split; [rewrite <- Hone; exact Hok|].
  unfold exec at 1. rewrite (thread_in_turn w _ "upload" s Hcalm Hret).
  cbn [snd length jobs_in_turn]. unfold job_in_turn.
  change (status_callback (started s)) with (status_callback s).
  fold announced. rewrite Hok.
  assert (H0 : same_store s announced).
  { unfold announced. destruct (told_fields (status_callback s)
                                  (EvStatus (job_status 0 1 source)) (started s))
      as (_ & _ & Hst & _). exact Hst. }
  pose proof (transfer_one_same_store w "upload" source destination announced)
    as H1.
  set (after := exec (transfer_one w "upload" source destination) announced)
    in *.
  assert (H2 : same_store s after) by (etransitivity; eassumption).
  destruct (same_store_log _ _ H2) as [Hent Hall2].
  match goal with
  | |- log_entries (idle (told ?cb1 ?e1 (told ?cb2 ?e2 ?x))) = _ =>
      assert (Hx : log_entries (idle (told cb1 e1 (told cb2 e2 x)))
                   = log_entries x)
  end.
  { match goal with
    | |- log_entries (idle (told ?cb1 ?e1 (told ?cb2 ?e2 ?x))) = _ =>
        destruct (told_fields cb2 e2 x) as (_ & _ & S2 & _);
        destruct (told_fields cb1 e1 (told cb2 e2 x)) as (_ & _ & S1 & _);
        apply (same_store_log x (idle (told cb1 e1 (told cb2 e2 x))))
    end.
    unfold same_store. etransitivity; [|exact S2].
    etransitivity; [|exact S1]. reflexivity. }
  rewrite Hx. destruct ok; [|exact Hent].
  rewrite <- Hent. apply (log_transfer_entries _ _ _ _ _ _ (Hall2 Hall)).
Qed.

(** C3, amended: the log records batch jobs, not the files inside a
    directory.  No transfer touches the log: a file or a directory tree, in
    either direction, and the transfer of a job, all leave it as it was.  A
    batch run on an engine whose log is in order leaves the old log
    followed by entries of its jobs, at most one per job and in the order
    of the jobs, cut to the last 100; the entry of a job carries the base
    name of the job's source.  On an engine whose log refers to allocated
    entries, a directory job of an upload batch is handed to
    [upload_directory] and adds exactly one entry, the one of the
    directory, when the walk returns True and no cancel request is set once
    it is over; it adds none otherwise.  So a batch whose one job is a
    directory, run with no cancel request and observers that return,
    leaves the old log followed by the one entry of the directory if the
    walk returned True, and the old log otherwise. *)
Theorem directory_job_logged_as_one_entry :
  (forall w t local_path remote_path s,
     store (exec (upload_directory w t local_path remote_path) s) = store s)
  /\ (forall w t remote_path local_path s,
        store (exec (download_directory w t remote_path local_path) s)
        = store s)
  /\ (forall w local_path remote_path s,
        store (exec (upload_file w local_path remote_path) s) = store s)
  /\ (forall w remote_path local_path s,
        store (exec (download_file w remote_path local_path) s) = store s)
  /\ (forall w direction source destination s,
        store (exec (transfer_one w direction source destination) s) = store s)
  /\ (forall w file_list direction s,
        log_ok s ->
        exists added,
          sublist added (job_entries w direction 0 file_list)
          /\ length added <= length file_list
          /\ log_entries (exec (transfer_thread w file_list direction) s)
             = last100 (log_entries s ++ added))
  /\ (forall w direction i source,
        e_filename (job_entry w direction i source) = Py.basename source)
  /\ (forall w i source destination t s,
        log_allocated s ->
        os_isdir w source = Some t ->
        let walk := upload_directory w t source destination in
        transfer_one w "upload" source destination = walk
        /\ exists ok,
             outcome walk s = Ok ok
             /\ log_entries (exec (job_try w "upload" i source destination) s)
                = if ok && negb (transfer_cancelled (exec walk s)
                                 || cancel_at w (AfterTransfer i))
                  then last100 (log_entries s
                                ++ [job_entry w "upload" i source])
                  else log_entries s)
  /\ (forall w source destination t s,
        calm w -> observers_return s -> log_allocated s ->
        os_isdir w source = Some t ->
        let announced :=
          told (status_callback s) (EvStatus (job_status 0 1 source))
            (started s) in
        exists ok,
          outcome (upload_directory w t source destination) announced = Ok ok
          /\ log_entries
               (exec (transfer_thread w [(source, destination)] "upload") s)
             = if ok
               then last100 (log_entries s
                             ++ [job_entry w "upload" 0 source])
               else log_entries s).
Proof.
  split; [|split; [|split; [|split; [|split; [|split; [|split; [|split]]]]]]].
  - intros w t local_path remote_path s.
    apply (keeps_upload_directory same_store (fun _ => True) True
             same_store_emit same_store_cancel); auto.
  - intros w t remote_path local_path s.
    apply (keeps_download_directory same_store (fun _ => True) True
             same_store_emit same_store_cancel); auto.
  - intros w local_path remote_path s.
    apply (keeps_upload_file same_store (fun _ => True) True
             same_store_emit same_store_cancel); auto.
  - intros w remote_path local_path s.
    apply (keeps_download_file same_store (fun _ => True) True
             same_store_emit same_store_cancel); auto.
  - intros w direction source destination s.
    apply transfer_one_same_store.
  - intros w file_list direction s. apply thread_adds_entries.
  - reflexivity.
  - intros w i source destination t s Hall Hdir walk.
    assert (Hone : transfer_one w "upload" source destination = walk).
    { unfold transfer_one. simpl. rewrite Hdir. reflexivity. }
    split; [exact Hone|].
    destruct (job_try_log w "upload" i source destination s Hall)
      as (ok & Hok & Hlog).
    rewrite Hone in Hok, Hlog. exists ok. split; [exact Hok|exact Hlog].
  - intros w source destination t s. apply directory_batch_log.
Qed.

Lemma directory_job_logged_as_one_entry_witness :
  (exists added,
     sublist added (job_entries Scenario.local_dir "upload" 0
                      [("/home/d", "/remote/d")])
     /\ length added <= 1
     /\ log_entries (exec (transfer_thread Scenario.local_dir
                             [("/home/d", "/remote/d")] "upload")
                       Scenario.observed)
        = last100 (log_entries Scenario.observed ++ added))
  /\ (exists ok,
       outcome (upload_directory Scenario.local_dir Scenario.local_d
                  "/home/d" "/remote/d") Scenario.observed = Ok ok
       /\ log_entries (exec (job_try Scenario.local_dir "upload" 0 "/home/d"
                               "/remote/d") Scenario.observed)
          = if ok && negb (transfer_cancelled
                             (exec (upload_directory Scenario.local_dir
                                      Scenario.local_d "/home/d" "/remote/d")
                                Scenario.observed)
                           || cancel_at Scenario.local_dir (AfterTransfer 0))
            then last100 (log_entries Scenario.observed
                          ++ [job_entry Scenario.local_dir "upload" 0
                                "/home/d"])
            else log_entries Scenario.observed)
  /\ log_entries (exec (transfer_thread Scenario.local_dir
                          [("/home/d", "/remote/d")] "upload")
                    Scenario.observed)
     = last100 (log_entries Scenario.observed
                ++ [job_entry Scenario.local_dir "upload" 0 "/home/d"]).
Proof.
  destruct directory_job_logged_as_one_entry
    as (_ & _ & _ & _ & _ & Hbatch & _ & Hjob & Hone).
  split; [|split].
  - apply (Hbatch Scenario.local_dir [("/home/d", "/remote/d")] "upload"
             Scenario.observed).
    exact log_ok_init.
  - refine (proj2 (Hjob Scenario.local_dir 0 "/home/d" "/remote/d"
                     Scenario.local_d Scenario.observed _ eq_refl)).
    exact log_allocated_init.
  - destruct (Hone Scenario.local_dir "/home/d" "/remote/d" Scenario.local_d
                Scenario.observed calm_local_dir (proj2 observed_returns)
                log_allocated_init eq_refl) as (ok & Hok & Hlog).
    vm_compute in Hok. injection Hok as <-. exact Hlog.
Defined.

(** * The connection manager *)

Ltac conn_unfold :=
  unfold Conn.result_of, Conn.exec, Conn.test_connection, Conn.connect,
    Conn.disconnect, Conn.try_except, Conn.bind, Conn.get, Conn.modify,
    Conn.attempt, Conn.notify, Conn.print, Conn.record, Conn.ret,
    Conn.is_connected_to_server, Conn.get_remote_path,
    Conn.get_current_connection.

Ltac conn_split :=
  cbn;
  repeat match goal with
    | |- context [match ?c with Some _ => _ | None => _ end] =>
        destruct c eqn:?; cbn
    | |- context [if ?c then _ else _] => destruct c eqn:?; cbn
    end.

(** ** Closing a session *)

Lemma conn_disconnect_run (n : Conn.net) (m : Conn.manager) :
  exists m1,
    Conn.disconnect n m = (Conn.Return tt, m1)
    /\ Conn.on_connect_callback m1 = Conn.on_connect_callback m
    /\ Conn.on_error_callback m1 = Conn.on_error_callback m
    /\ (Conn.is_connected m1 && bool_decide (is_Some (Conn.sftp_client m1))
        = Conn.is_connected m && bool_decide (is_Some (Conn.sftp_client m))
          && bool_decide (is_Some (Conn.sftp_close n)))
    /\ (Conn.is_connected_to_server m1
        = Conn.is_connected_to_server m
          && bool_decide (is_Some (Conn.sftp_close n)))
    /\ (Conn.sftp_close n = None -> Conn.sftp_client m1 = None)
    /\ (Conn.sftp_close n = None -> Conn.ssh_close n = None ->
        Conn.ssh_client m1 = None /\ Conn.is_connected m1 = false
        /\ Conn.current_connection m1 = None).
Proof.
  destruct m as [ssh sftp cur ic c1 c2 c3 tr]. conn_unfold.
  destruct (Conn.sftp_close n) as [e1|], (Conn.ssh_close n) as [e2|];
    conn_split; eexists; (split; [reflexivity|]); cbn;
    repeat split; intros; try discriminate; try reflexivity.
  all: cbn in *; destruct ic, ssh as [[]|]; reflexivity.
Qed.

(** X17.  [ConnectionManager.disconnect] (connection_manager.py 134-153)
    never raises.  It fails to end the session in exactly one case: the
    manager is connected afterwards if and only if it was connected and
    [sftp_client.close()] raised.  When closing the SFTP session returns,
    [get_sftp_client] is None afterwards; when both closes return, nothing
    of the session is left. *)
Theorem disconnect_fails_only_on_sftp_close (n : Conn.net)
    (m : Conn.manager) :
  let m' := Conn.exec (Conn.disconnect n) m in
  Conn.result_of (Conn.disconnect n) m = Conn.Return tt
  /\ Conn.is_connected_to_server m'
     = Conn.is_connected_to_server m
       && bool_decide (is_Some (Conn.sftp_close n))
  /\ (Conn.sftp_close n = None -> Conn.get_sftp_client m' = None)
  /\ (Conn.sftp_close n = None -> Conn.ssh_close n = None ->
      Conn.ssh_client m' = None /\ Conn.sftp_client m' = None
      /\ Conn.is_connected m' = false
      /\ Conn.get_current_connection m' = None).
Proof.
  intros m'. unfold m', Conn.result_of, Conn.exec.
  destruct (conn_disconnect_run n m)
    as (m1 & -> & _ & _ & _ & Hconn & Hsftp & Hall).
  cbn [fst snd]. split; [reflexivity|]. split; [exact Hconn|].
  split.
  - intros H1. unfold Conn.get_sftp_client. rewrite (Hsftp H1).
    destruct (Conn.is_connected m1); reflexivity.
  - intros H1 H2. destruct (Hall H1 H2) as (? & ? & ?). auto.
Qed.

Lemma disconnect_fails_only_on_sftp_close_witness :
  Conn.is_connected_to_server Conn.session = true
  /\ Conn.is_connected_to_server
       (Conn.exec (Conn.disconnect Conn.fine) Conn.session) = false
  /\ Conn.get_sftp_client
       (Conn.exec (Conn.disconnect Conn.fine) Conn.session) = None
  /\ Conn.get_current_connection
       (Conn.exec (Conn.disconnect Conn.fine) Conn.session) = None
  /\ Conn.is_connected_to_server
       (Conn.exec (Conn.disconnect Conn.stuck) Conn.session) = true.
Proof.
  destruct (disconnect_fails_only_on_sftp_close Conn.fine Conn.session)
    as (_ & Hfine & Hsftp & Hall).
  destruct (disconnect_fails_only_on_sftp_close Conn.stuck Conn.session)
    as (_ & Hstuck & _).
  split; [reflexivity|]. split; [rewrite Hfine; reflexivity|].
  split; [apply Hsftp; reflexivity|].
  split; [apply Hall; reflexivity|].
  rewrite Hstuck. reflexivity.
Defined.

(** ** Opening a session *)

Lemma conn_connect_start (n : Conn.net) (m : Conn.manager) :
  exists m1,
    (if Conn.is_connected m then Conn.disconnect n else Conn.ret tt) m
    = (Conn.Return tt, m1)
    /\ Conn.on_connect_callback m1 = Conn.on_connect_callback m
    /\ Conn.on_error_callback m1 = Conn.on_error_callback m
    /\ (Conn.is_connected m1 && bool_decide (is_Some (Conn.sftp_client m1))
        = Conn.is_connected m && bool_decide (is_Some (Conn.sftp_client m))
          && bool_decide (is_Some (Conn.sftp_close n))).
Proof.
  destruct (Conn.is_connected m) eqn:Hic.
  - destruct (conn_disconnect_run n m) as (m1 & H & H1 & H3 & Hs & _).
    rewrite Hic in Hs. eauto.
  - exists m. rewrite Hic. repeat split.
Qed.

(** X18.  [ConnectionManager.connect] (connection_manager.py 49-132)
    returns [(True, "")] exactly when [ssh_client.connect] and [open_sftp]
    return and the [on_connect] callback, if one is set, returns; it returns
    True with no other message.  In that case the manager is connected, its
    [current_connection] holds the arguments of the call under the name
    [username@ip:port], and [get_remote_path] (210-221) is the home
    directory of that user. *)
Theorem connect_succeeds_iff (n : Conn.net) (m : Conn.manager)
    (ip username password : string) (port timeout : Z) :
  let c := Conn.connect n ip username password port timeout in
  let established :=
    Conn.ssh_connect n ip port username password timeout = None
    /\ Conn.open_sftp n = None
    /\ forall f, Conn.on_connect_callback m = Some f -> f tt = None in
  (Conn.result_of c m = Conn.Return (true, EmptyString) <-> established)
  /\ (forall msg, Conn.result_of c m = Conn.Return (true, msg) -> established)
  /\ (established ->
      Conn.is_connected_to_server (Conn.exec c m) = true
      /\ Conn.get_current_connection (Conn.exec c m)
         = Some (Conn.Connection ip username port
                   (username +:+ "@" +:+ ip +:+ ":" +:+ Py.str_int port))
      /\ Conn.get_remote_path (Conn.exec c m) = "/home/" +:+ username).
Proof.
  intros c established. unfold c, established. clear c established.
  destruct (conn_connect_start n m) as (m1 & Hstart & <- & _).
  unfold Conn.result_of, Conn.exec.
  destruct (Conn.connect n ip username password port timeout m) as [r m']
    eqn:E.
  cbn [fst snd]. revert E.
  unfold Conn.connect, Conn.try_except. unfold Conn.bind at 1.
  unfold Conn.get at 1. cbv beta iota. unfold Conn.bind at 1.
  rewrite Hstart. clear Hstart m.
  destruct m1 as [ssh sftp cur ic c1 c2 c3 tr]. conn_unfold.
  destruct (Conn.ssh_connect n ip port username password timeout) as [e0|],
    (Conn.open_sftp n) as [e3|]; conn_split; intros [= <- <-]; cbn.
  all: repeat split; intros; destruct_and?; simplify_eq; try done.
  all: cbn in *; simplify_eq; try done.
  all: match goal with
       | H : forall f, Some ?c = Some f -> _ |- _ =>
           specialize (H c eq_refl); congruence
       end.
Qed.

Lemma connect_succeeds_iff_witness :
  Conn.result_of (Conn.connect Conn.fine "192.168.1.10" "pi" "raspberry" 22 10)
    Conn.init = Conn.Return (true, EmptyString)
  /\ Conn.get_remote_path
       (Conn.exec (Conn.connect Conn.fine "192.168.1.10" "pi" "raspberry"
                     22 10) Conn.init)
     = "/home/pi"
  /\ Conn.get_current_connection
       (Conn.exec (Conn.connect Conn.fine "192.168.1.10" "pi" "raspberry"
                     22 10) Conn.init)
     = Some (Conn.Connection "192.168.1.10" "pi" 22 "pi@192.168.1.10:22").
Proof.
  destruct (connect_succeeds_iff Conn.fine Conn.init "192.168.1.10" "pi"
              "raspberry" 22 10) as (Hiff & _ & Hpost).
  assert (H : Conn.ssh_connect Conn.fine "192.168.1.10" 22 "pi" "raspberry" 10
              = None
              /\ Conn.open_sftp Conn.fine = None
              /\ forall f, Conn.on_connect_callback Conn.init = Some f ->
                           f tt = None).
  { split; [reflexivity|]. split; [reflexivity|]. intros f Hf. discriminate. }
  split; [apply Hiff, H|].
  destruct (Hpost H) as (_ & Hcur & Hpath).
  split; [exact Hpath | exact Hcur].
Defined.

Lemma conn_connect_session (n : Conn.net) (m : Conn.manager)
    (ip username password : string) (port timeout : Z) :
  Conn.is_connected_to_server
    (Conn.exec (Conn.connect n ip username password port timeout) m)
  = bool_decide (Conn.ssh_connect n ip port username password timeout = None)
    && bool_decide (Conn.open_sftp n = None)
    || Conn.is_connected m && bool_decide (is_Some (Conn.sftp_client m))
       && bool_decide (is_Some (Conn.sftp_close n)).
Proof.
  destruct (conn_connect_start n m) as (m1 & Hstart & _ & _ & <-).
  unfold Conn.exec.
  destruct (Conn.connect n ip username password port timeout m) as [r m']
    eqn:E.
  cbn [fst snd]. revert E.
  unfold Conn.connect, Conn.try_except. unfold Conn.bind at 1.
  unfold Conn.get at 1. cbv beta iota. unfold Conn.bind at 1.
  rewrite Hstart. clear Hstart m.
  destruct m1 as [ssh sftp cur ic c1 c2 c3 tr]. conn_unfold.
  destruct (Conn.ssh_connect n ip port username password timeout) as [e0|],
    (Conn.open_sftp n) as [e3|]; conn_split; intros [= <- <-]; cbn.
  all: destruct ic, sftp as [[]|]; reflexivity.
Qed.

(** X19.  Whether the manager is connected after [connect]
    (connection_manager.py 49-132, 155-162) does not follow from what the
    call returns.  It is connected exactly when [ssh_client.connect] and
    [open_sftp] returned, or when it was connected before and the SFTP
    session of the old connection could not be closed.  So when the
    [on_connect] callback raises and the [on_error] callback returns, the
    call returns False with the message of that exception and leaves the
    session up. *)
Theorem connect_result_and_session (n : Conn.net) (m : Conn.manager)
    (ip username password : string) (port timeout : Z) :
  let c := Conn.connect n ip username password port timeout in
  Conn.is_connected_to_server (Conn.exec c m)
  = bool_decide (Conn.ssh_connect n ip port username password timeout = None)
    && bool_decide (Conn.open_sftp n = None)
    || Conn.is_connected m && bool_decide (is_Some (Conn.sftp_client m))
       && bool_decide (is_Some (Conn.sftp_close n))
  /\ (Conn.ssh_connect n ip port username password timeout = None ->
      Conn.open_sftp n = None ->
      forall f e,
        Conn.on_connect_callback m = Some f -> f tt = Some e ->
        (forall g, Conn.on_error_callback m = Some g ->
                   g (Conn.error_msg_of e) = None) ->
        Conn.result_of c m = Conn.Return (false, Conn.error_msg_of e)
        /\ Conn.is_connected_to_server (Conn.exec c m) = true).
Proof.
  intros c. unfold c. clear c. split; [apply conn_connect_session|].
  intros Hssh Hopen f e Hf Hraise Herr. split.
  - destruct (conn_connect_start n m) as (m1 & Hstart & H1 & H3 & _).
    rewrite <- H1 in Hf. rewrite <- H3 in Herr.
    unfold Conn.result_of.
    destruct (Conn.connect n ip username password port timeout m) as [r m']
      eqn:E.
    cbn [fst]. revert E.
    unfold Conn.connect, Conn.try_except. unfold Conn.bind at 1.
    unfold Conn.get at 1. cbv beta iota. unfold Conn.bind at 1.
    rewrite Hstart, Hssh, Hopen. clear Hstart H1 H3.
    destruct m1 as [ssh sftp cur ic c1 c2 c3 tr]. cbn in Hf, Herr.
    subst c1. conn_unfold. cbn. rewrite Hraise. cbn.
    destruct c3 as [g|]; cbn.
    + rewrite (Herr g eq_refl). intros [= <- _]. reflexivity.
    + intros [= <- _]. reflexivity.
  - rewrite conn_connect_session, Hssh, Hopen. reflexivity.
Qed.

Lemma connect_result_and_session_witness :
  Conn.result_of
    (Conn.connect Conn.fine "192.168.1.10" "pi" "raspberry" 22 10)
    (Conn.exec (Conn.set_connection_callbacks (Some Conn.failing) None None)
       Conn.init)
  = Conn.Return (false,
       "Connection error / Bağlantı hatası: main thread is not in main loop")
  /\ Conn.is_connected_to_server
       (Conn.exec
          (Conn.connect Conn.fine "192.168.1.10" "pi" "raspberry" 22 10)
          (Conn.exec
             (Conn.set_connection_callbacks (Some Conn.failing) None None)
             Conn.init))
     = true.
Proof.
  destruct (connect_result_and_session Conn.fine
              (Conn.exec
                 (Conn.set_connection_callbacks (Some Conn.failing) None None)
                 Conn.init)
              "192.168.1.10" "pi" "raspberry" 22 10) as [_ H].
  apply (H eq_refl eq_refl Conn.failing
           (Conn.OtherException "main thread is not in main loop")).
  - reflexivity.
  - reflexivity.
  - intros g Hg. discriminate.
Defined.

(** ** Probing a session *)

Lemma conn_test_connection_run (n : Conn.net) (m : Conn.manager) :
  exists m',
    Conn.test_connection n m
    = (Conn.Return (Conn.is_connected_to_server m
                    && bool_decide (Conn.sftp_listdir n "/" = None)), m')
    /\ Conn.is_connected_to_server m'
       = Conn.is_connected_to_server m
         && (bool_decide (Conn.sftp_listdir n "/" = None)
             || bool_decide (is_Some (Conn.sftp_close n)))
    /\ (Conn.sftp_listdir n "/" = None -> m' = m).
Proof.
  destruct (conn_disconnect_run n m)
    as (m1 & Hrun & _ & _ & _ & Hconn & _).
  unfold Conn.test_connection. unfold Conn.bind at 1. unfold Conn.get.
  cbv beta iota.
  destruct (Conn.is_connected_to_server m) eqn:Hm; cbn [negb].
  - unfold Conn.try_except, Conn.bind at 1, Conn.attempt.
    destruct (Conn.sftp_listdir n "/") as [e|]; cbv beta iota.
    + unfold Conn.bind. rewrite Hrun. exists m1.
      split; [reflexivity|]. split; [exact Hconn|discriminate].
    + exists m. split; [reflexivity|]. rewrite Hm. split; reflexivity.
  - exists m. split; [reflexivity|]. rewrite Hm. split; reflexivity.
Qed.

(** X20.  [ConnectionManager.test_connection] (connection_manager.py
    191-208) never raises.  It answers True exactly when the manager is
    connected and listing the remote root returns, and then changes
    nothing.  After a failed probe the manager is still connected only if
    closing the SFTP session raised; when that close returns, the answer is
    the state the manager is left in. *)
Theorem test_connection_answer (n : Conn.net) (m : Conn.manager) :
  let m' := Conn.exec (Conn.test_connection n) m in
  Conn.result_of (Conn.test_connection n) m
  = Conn.Return (Conn.is_connected_to_server m
                 && bool_decide (Conn.sftp_listdir n "/" = None))
  /\ Conn.is_connected_to_server m'
     = Conn.is_connected_to_server m
       && (bool_decide (Conn.sftp_listdir n "/" = None)
           || bool_decide (is_Some (Conn.sftp_close n)))
  /\ (Conn.result_of (Conn.test_connection n) m = Conn.Return true -> m' = m)
  /\ (Conn.sftp_close n = None ->
      Conn.result_of (Conn.test_connection n) m
      = Conn.Return (Conn.is_connected_to_server m')).
Proof.
  intros m'. unfold m', Conn.result_of, Conn.exec. clear m'.
  destruct (conn_test_connection_run n m) as (m' & -> & Hconn & Hsame).
  cbn [fst snd]. split; [reflexivity|]. split; [exact Hconn|]. split.
  - intros [= H]. apply andb_prop in H as [_ H].
    apply bool_decide_eq_true in H. exact (Hsame H).
  - intros Hclose. rewrite Hconn, Hclose.
    destruct (Conn.is_connected_to_server m),
      (bool_decide (Conn.sftp_listdir n "/" = None)); reflexivity.
Qed.

Lemma test_connection_answer_witness :
  Conn.result_of (Conn.test_connection Conn.unreachable) Conn.session
  = Conn.Return false
  /\ Conn.is_connected_to_server
       (Conn.exec (Conn.test_connection Conn.unreachable) Conn.session)
     = false
  /\ Conn.result_of (Conn.test_connection Conn.stuck) Conn.session
     = Conn.Return false
  /\ Conn.is_connected_to_server
       (Conn.exec (Conn.test_connection Conn.stuck) Conn.session)
     = true.
Proof.
  destruct (test_connection_answer Conn.unreachable Conn.session)
    as (H1 & H2 & _ & H3).
  destruct (test_connection_answer Conn.stuck Conn.session)
    as (H4 & H5 & _).
  split; [rewrite (H3 eq_refl), H2; reflexivity|].
  split; [rewrite H2; reflexivity|].
  split; [rewrite H4; reflexivity|].
  rewrite H5. reflexivity.
Defined.

(** ** The engine behind a manager *)

(** X21.  The guard of the engine reads the manager
    (file_transfer.py 89-94, connection_manager.py 155-162).  Provided that
    closing an SFTP session returns, the engine refuses every job, leaving
    itself as it was, after [disconnect], after a [test_connection] that
    answered False, and after a [connect] of a manager without a session in
    which [ssh_client.connect] or [open_sftp] raised. *)
Theorem no_session_left_refuses_jobs (n : Conn.net) (m : Conn.manager)
    (w : world) (direction source destination : string) (s : engine) :
  Conn.sftp_close n = None ->
  transfer_one (served_by (Conn.exec (Conn.disconnect n) m) w)
    direction source destination s = (Ok false, s)
  /\ (Conn.result_of (Conn.test_connection n) m = Conn.Return false ->
      transfer_one (served_by (Conn.exec (Conn.test_connection n) m) w)
        direction source destination s = (Ok false, s))
  /\ (forall ip username password port timeout,
        Conn.is_connected m = false ->
        Conn.ssh_connect n ip port username password timeout <> None
        \/ Conn.open_sftp n <> None ->
        transfer_one
          (served_by
             (Conn.exec (Conn.connect n ip username password port timeout) m)
             w)
          direction source destination s = (Ok false, s)).
Proof.
  intros Hclose.
  assert (Hguard : forall m',
             Conn.is_connected_to_server m' = false ->
             transfer_one (served_by m' w) direction source destination s
             = (Ok false, s)).
  { intros m' H. apply no_session_transfer_one. exact H. }
  split; [|split].
  - apply Hguard. unfold Conn.exec.
    destruct (conn_disconnect_run n m) as (m1 & -> & _ & _ & _ & Hconn & _).
    cbn [snd]. rewrite Hconn, Hclose. apply andb_false_r.
  - unfold Conn.result_of, Conn.exec.
    destruct (conn_test_connection_run n m) as (m' & -> & Hconn & _).
    cbn [fst snd]. intros [= Hres]. apply Hguard.
    rewrite Hconn, Hclose.
    destruct (Conn.is_connected_to_server m),
      (bool_decide (Conn.sftp_listdir n "/" = None)); try reflexivity.
    discriminate.
  - intros ip username password port timeout Hic Hfail. apply Hguard.
    rewrite conn_connect_session, Hic.
    destruct Hfail as [H|H].
    + rewrite (bool_decide_eq_false_2 _ H). reflexivity.
    + rewrite (bool_decide_eq_false_2 _ H). apply orb_false_intro;
        [apply andb_false_r|reflexivity].
Qed.

Lemma no_session_left_refuses_jobs_witness :
  transfer_one
    (served_by (Conn.exec (Conn.disconnect Conn.fine) Conn.session)
       Scenario.two_chunks)
    "upload" "/home/a.txt" "/remote/a.txt" Scenario.observed
  = (Ok false, Scenario.observed)
  /\ transfer_one
       (served_by
          (Conn.exec (Conn.test_connection Conn.unreachable) Conn.session)
          Scenario.two_chunks)
       "upload" "/home/a.txt" "/remote/a.txt" Scenario.observed
     = (Ok false, Scenario.observed)
  /\ transfer_one
       (served_by
          (Conn.exec
             (Conn.connect Conn.unreachable "192.168.1.10" "pi" "raspberry"
                22 10) Conn.init)
          Scenario.two_chunks)
       "upload" "/home/a.txt" "/remote/a.txt" Scenario.observed
     = (Ok false, Scenario.observed).
Proof.
  destruct (no_session_left_refuses_jobs Conn.fine Conn.session
              Scenario.two_chunks "upload" "/home/a.txt" "/remote/a.txt"
              Scenario.observed eq_refl) as (H1 & _ & _).
  destruct (no_session_left_refuses_jobs Conn.unreachable Conn.session
              Scenario.two_chunks "upload" "/home/a.txt" "/remote/a.txt"
              Scenario.observed eq_refl) as (_ & H2 & _).
  destruct (no_session_left_refuses_jobs Conn.unreachable Conn.init
              Scenario.two_chunks "upload" "/home/a.txt" "/remote/a.txt"
              Scenario.observed eq_refl) as (_ & _ & H3).
  split; [exact H1|]. split; [apply H2; reflexivity|].
  apply H3; [reflexivity|]. left. discriminate.
Defined.

(** * The file lists *)

(** ** The name of a selected row *)

Lemma gui_startswith_app (old s : Gui.str) :
  Gui.startswith old (old ++ s) = true.
Proof.
  induction old as [|a old IH]; [reflexivity|].
  cbn. rewrite N.eqb_refl. exact IH.
Qed.

Lemma gui_startswith_occurs (old s : Gui.str) :
  Gui.startswith old s = true -> exists r, s = old ++ r.
Proof.
  revert s. induction old as [|a old IH]; intros s H.
  - exists s. reflexivity.
  - destruct s as [|b s]; [discriminate|]. cbn in H.
    apply andb_prop in H as [Hab Hrest]. apply N.eqb_eq in Hab as ->.
    destruct (IH s Hrest) as [r ->]. exists r. reflexivity.
Qed.

Lemma gui_replace_from_skip (old new p s : Gui.str) :
  Gui.replace_from old new (length p) (p ++ s) = Gui.replace_from old new 0 s.
Proof.
  induction p as [|c p IH]; [reflexivity|]. cbn. exact IH.
Qed.

Lemma gui_replace_from_length (old : Gui.str) (skip : nat) (s : Gui.str) :
  length (Gui.replace_from old [] skip s) <= length s - skip.
Proof.
  revert skip. induction s as [|c s IH]; intros skip; [cbn; lia|].
  cbn [Gui.replace_from]. destruct skip as [|k].
  - destruct (Gui.startswith old (c :: s)).
    + cbn [app length]. specialize (IH (length old - 1)). lia.
    + cbn [length]. specialize (IH 0). lia.
  - cbn [length]. specialize (IH k). lia.
Qed.

Lemma gui_replace_absent (old new s : Gui.str) :
  Gui.contains old s = false -> Gui.replace_from old new 0 s = s.
Proof.
  induction s as [|c s IH]; intros Hno; [reflexivity|].
  cbn [Gui.replace_from]. cbn [Gui.contains] in Hno.
  apply orb_false_elim in Hno as [-> Hrest].
  f_equal. apply IH, Hrest.
Qed.

Lemma gui_replace_present (old s : Gui.str) :
  old <> [] -> Gui.contains old s = true ->
  length (Gui.replace_from old [] 0 s) + length old <= length s.
Proof.
  intros Hold. induction s as [|c s IH]; intros Hin.
  - destruct old; [contradiction|discriminate].
  - cbn [Gui.replace_from]. cbn [Gui.contains] in Hin.
    destruct (Gui.startswith old (c :: s)) eqn:Hst.
    + destruct (gui_startswith_occurs _ _ Hst) as [r' Hr'].
      pose proof (gui_replace_from_length old (length old - 1) s) as Hlen.
      apply (f_equal (@length N)) in Hr'. rewrite length_app in Hr'.
      cbn [app length] in *. destruct old; [contradiction|].
      cbn [length] in *. lia.
    + cbn [orb] in Hin. specialize (IH Hin). cbn [length]. lia.
Qed.

Lemma gui_clean_dir (name : Gui.str) :
  Gui.replace [Gui.folder; Gui.space] [] (Gui.item_text true name)
  = Gui.replace_from [Gui.folder; Gui.space] [] 0 name.
Proof. reflexivity. Qed.

Lemma gui_clean_file (name : Gui.str) :
  Gui.replace [Gui.page; Gui.space] []
    (Gui.replace [Gui.folder; Gui.space] [] (Gui.item_text false name))
  = Gui.replace_from [Gui.page; Gui.space] [] 0
      (Gui.replace_from [Gui.folder; Gui.space] [] 0 name).
Proof. reflexivity. Qed.

Lemma gui_selected_name_eq (is_dir : bool) (name : Gui.str) :
  Gui.selected_name (Gui.item_text is_dir name)
  = let cleaned :=
      Gui.replace_from [Gui.page; Gui.space] [] 0
        (Gui.replace_from [Gui.folder; Gui.space] [] 0 name) in
    if Gui.startswith [Gui.folder] cleaned then drop 2 cleaned else cleaned.
Proof.
  unfold Gui.selected_name. destruct is_dir.
  - rewrite gui_clean_dir. reflexivity.
  - rewrite gui_clean_file. reflexivity.
Qed.

Lemma gui_selected_name_length (is_dir : bool) (name : Gui.str) :
  length (Gui.selected_name (Gui.item_text is_dir name))
  <= length (Gui.replace_from [Gui.page; Gui.space] [] 0
               (Gui.replace_from [Gui.folder; Gui.space] [] 0 name)).
Proof.
  rewrite gui_selected_name_eq. cbv zeta.
  destruct (Gui.startswith _ _); [rewrite length_drop|]; lia.
Qed.

Lemma gui_selected_name_clean (is_dir : bool) (name : Gui.str) :
  Gui.contains [Gui.folder; Gui.space] name = false ->
  Gui.contains [Gui.page; Gui.space] name = false ->
  Gui.selected_name (Gui.item_text is_dir name)
  = if Gui.startswith [Gui.folder] name then drop 2 name else name.
Proof.
  intros HF HP. rewrite gui_selected_name_eq. cbv zeta.
  rewrite (gui_replace_absent _ [] name HF).
  rewrite (gui_replace_absent _ [] name HP). reflexivity.
Qed.

Lemma gui_plain_name (is_dir : bool) (name : Gui.str) :
  Gui.plain name = true ->
  Gui.selected_name (Gui.item_text is_dir name) = name.
Proof.
  unfold Gui.plain. intros H.
  apply andb_prop in H as [H Hst]. apply andb_prop in H as [HF HP].
  apply negb_true_iff in Hst, HF, HP.
  rewrite (gui_selected_name_clean is_dir name HF HP), Hst. reflexivity.
Qed.

(** X22.  The name that [transfer_to_remote] and [transfer_to_local]
    (gui_components.py 699-703, 723-727) recover from a row that
    [refresh_local_files] or [refresh_remote_files] (492-493, 546-547)
    inserted is the name of the entry if and only if the name holds
    neither icon followed by a space and does not begin with the folder
    icon.  For every other name the job is built for a shorter name. *)
Theorem selected_name_round_trip (is_dir : bool) (name : Gui.str) :
  (Gui.selected_name (Gui.item_text is_dir name) = name
   <-> Gui.plain name = true)
  /\ (Gui.plain name = false ->
      length (Gui.selected_name (Gui.item_text is_dir name)) < length name).
Proof.
  unfold Gui.plain.
  pose proof (gui_selected_name_length is_dir name) as Hsel.
  pose proof (gui_replace_from_length [Gui.folder; Gui.space] 0 name) as HF.
  pose proof (gui_replace_from_length [Gui.page; Gui.space] 0
                (Gui.replace_from [Gui.folder; Gui.space] [] 0 name)) as HP.
  assert (Hshort : length (Gui.selected_name (Gui.item_text is_dir name))
                   < length name ->
                   Gui.selected_name (Gui.item_text is_dir name) <> name).
  { intros Hlt Heq. rewrite Heq in Hlt. lia. }
  destruct (Gui.contains [Gui.folder; Gui.space] name) eqn:HcF.
  - pose proof (gui_replace_present [Gui.folder; Gui.space] name
                  ltac:(discriminate) HcF) as H.
    cbn [length] in H. cbn [negb andb].
    assert (Hlt : length (Gui.selected_name (Gui.item_text is_dir name))
                  < length name) by lia.
    split; [split; [intros Heq; destruct (Hshort Hlt Heq)|discriminate]|].
    intros _. exact Hlt.
  - rewrite (gui_replace_absent _ [] name HcF) in *.
    destruct (Gui.contains [Gui.page; Gui.space] name) eqn:HcP.
    + pose proof (gui_replace_present [Gui.page; Gui.space] name
                    ltac:(discriminate) HcP) as H.
      cbn [length] in H. cbn [negb andb].
      assert (Hlt : length (Gui.selected_name (Gui.item_text is_dir name))
                    < length name) by lia.
      split; [split; [intros Heq; destruct (Hshort Hlt Heq)|discriminate]|].
      intros _. exact Hlt.
    + rewrite (gui_selected_name_clean is_dir name HcF HcP) in *.
      destruct (Gui.startswith [Gui.folder] name) eqn:Hst; cbn [negb andb].
      * assert (Hlt : length (drop 2 name) < length name).
        { destruct name as [|c name]; [discriminate|].
          rewrite length_drop. cbn [length]. lia. }
        split; [split; [intros Heq; destruct (Hshort Hlt Heq)|discriminate]|].
        intros _. exact Hlt.
      * split; [split; reflexivity|discriminate].
Qed.

Lemma selected_name_round_trip_witness :
  Gui.selected_name (Gui.item_text false (Gui.ascii_str "notes.txt"))
  = Gui.ascii_str "notes.txt"
  /\ length (Gui.selected_name
               (Gui.item_text false
                  ([Gui.page; Gui.space] ++ Gui.ascii_str "notes.txt")))
     < length ([Gui.page; Gui.space] ++ Gui.ascii_str "notes.txt").
Proof.
  split.
  - apply (selected_name_round_trip false (Gui.ascii_str "notes.txt")).
    reflexivity.
  - apply (selected_name_round_trip false
             ([Gui.page; Gui.space] ++ Gui.ascii_str "notes.txt")).
    reflexivity.
Defined.

(** ** The paths of a job *)

Lemma gui_replace_one (a b : N) (s : Gui.str) :
  Gui.replace [a] [b] s = map (fun c => if (a =? c)%N then b else c) s.
Proof.
  unfold Gui.replace. induction s as [|c s IH]; [reflexivity|].
  cbn [Gui.replace_from Gui.startswith length Nat.sub map app].
  rewrite andb_true_r. destruct (a =? c)%N; cbn [app]; f_equal; exact IH.
Qed.

Lemma gui_replace_one_gone (a b : N) (s : Gui.str) :
  a <> b -> ~ In a (Gui.replace [a] [b] s).
Proof.
  intros Hab. rewrite gui_replace_one. induction s as [|c s IH]; [tauto|].
  cbn [map In]. intros [H|H]; [|exact (IH H)].
  destruct (N.eqb_spec a c); congruence.
Qed.

Lemma gui_replace_one_same (a b : N) (s : Gui.str) :
  a <> b -> (Gui.replace [a] [b] s = s <-> ~ In a s).
Proof.
  intros Hab. rewrite gui_replace_one. induction s as [|c s IH].
  - cbn. tauto.
  - cbn [map In]. destruct (N.eqb_spec a c) as [->|Hac].
    + split; [intros [= H _]; congruence | intros H; destruct H; auto].
    + split.
      * intros [= H] [H'|H']; [congruence|]. apply IH in H. tauto.
      * intros H. f_equal. apply IH. tauto.
Qed.

(** X23.  For one selected row of an entry with a plain name,
    [transfer_to_remote] and [transfer_to_local] (gui_components.py
    686-732) hand the engine one job in the direction "upload" or
    "download", between the entry of that name in the local directory and
    the remote path obtained from the path of that name in the remote
    directory by turning every backslash into a slash, all other characters
    staying in place.  The remote path of the job holds no backslash, and it
    is the path of the entry exactly when that path holds none. *)
Theorem job_paths (local_current_path remote_current_path : Gui.str)
    (is_dir : bool) (name : Gui.str) :
  Gui.plain name = true ->
  let remote_path :=
    map (fun c => if (c =? Gui.backslash)%N then Gui.slash else c)
      (Gui.join remote_current_path name) in
  Gui.transfer_to_remote true local_current_path remote_current_path
    [Gui.item_text is_dir name]
  = Gui.TransferFiles
      [(Gui.join local_current_path name, remote_path)] "upload"
  /\ Gui.transfer_to_local true local_current_path remote_current_path
       [Gui.item_text is_dir name]
     = Gui.TransferFiles
         [(remote_path, Gui.join local_current_path name)] "download"
  /\ ~ In Gui.backslash remote_path
  /\ (remote_path = Gui.join remote_current_path name
      <-> ~ In Gui.backslash (Gui.join remote_current_path name)).
Proof.
  intros Hplain remote_path.
  pose proof (gui_plain_name is_dir name Hplain) as Hname.
  assert (Hpath : Gui.replace [Gui.backslash] [Gui.slash]
                    (Gui.join remote_current_path name) = remote_path).
  { rewrite gui_replace_one. unfold remote_path. apply map_ext.
    intros c. rewrite N.eqb_sym. reflexivity. }
  unfold Gui.transfer_to_remote, Gui.transfer_to_local.
  cbn [negb map]. rewrite Hname, Hpath.
  split; [reflexivity|]. split; [reflexivity|]. rewrite <- Hpath.
  split; [apply gui_replace_one_gone; discriminate|].
  apply gui_replace_one_same. discriminate.
Qed.

Lemma job_paths_witness :
  let remote_path := Gui.ascii_str "/home/pi/a/b" in
  Gui.transfer_to_remote true (Gui.ascii_str "/home/user")
    (Gui.ascii_str "/home/pi") [Gui.item_text false (Gui.ascii_str "a\b")]
  = Gui.TransferFiles
      [(Gui.join (Gui.ascii_str "/home/user") (Gui.ascii_str "a\b"),
        remote_path)] "upload"
  /\ Gui.transfer_to_local true (Gui.ascii_str "/home/user")
       (Gui.ascii_str "/home/pi")
       [Gui.item_text false (Gui.ascii_str "a\b")]
     = Gui.TransferFiles
         [(remote_path,
           Gui.join (Gui.ascii_str "/home/user") (Gui.ascii_str "a\b"))]
         "download"
  /\ ~ In Gui.backslash remote_path
  /\ (remote_path
      = Gui.join (Gui.ascii_str "/home/pi") (Gui.ascii_str "a\b")
      <-> ~ In Gui.backslash
            (Gui.join (Gui.ascii_str "/home/pi") (Gui.ascii_str "a\b"))).
Proof.
  exact (job_paths (Gui.ascii_str "/home/user") (Gui.ascii_str "/home/pi")
           false (Gui.ascii_str "a\b") eq_refl).
Defined.
